(** * Referral contest bot: the referral state machine of [index.js]

    A shallow embedding of the webhook version of the bot (the second
    program of [src/index.js]): the two tables the handlers query, the
    SQL statements they issue, and the handlers for [/start],
    [new_chat_members], [left_chat_member], [/rank] and the broadcast
    endpoint.  Tables are lists of rows in insertion order (a SQL table is
    a bag, and the handlers read [rows[0]]); every statement acts on all
    the rows its WHERE clause selects. *)

From Stdlib Require Import ZArith Bool List String Ascii Lia Permutation Sorted.
From Stdlib Require Import DecimalString DecimalZ DecimalPos.
Import ListNotations.

Local Open Scope string_scope.
Local Open Scope list_scope.
Local Open Scope Z_scope.

(** ** Identifiers as text

    A referral link is [https://t.me/<bot>?start=<chatId>]: the id of the
    chat the link was asked in, the referrer's own in a private chat,
    printed in decimal.  It comes back as [match[1]], a string,
    which the [/start] handler passes to [Number] for the self-referral
    test and, unconverted, to the store as the [referrer_id] parameter. *)

Module Ident.

(** [`${chatId}`]: the decimal text of an integer id. *)
Definition to_string (z : Z) : string := NilZero.string_of_int (Z.to_int z).

(** *** Characters *)

Definition code (c : ascii) : nat := nat_of_ascii c.

Definition between (lo hi n : nat) : bool := (Nat.leb lo n && Nat.leb n hi)%bool.

(** The value of [c] as a digit, letters counting from ten. *)
Definition digit_value (c : ascii) : option Z :=
  let n := code c in
  if between 48 57 n then Some (Z.of_nat n - 48)
  else if between 97 102 n then Some (Z.of_nat n - 87)
  else if between 65 70 n then Some (Z.of_nat n - 55)
  else None.

(** [c] is a digit in base [base] (2, 8, 10 or 16). *)
Definition is_digit (base : Z) (c : ascii) : bool :=
  match digit_value c with
  | Some d => d <? base
  | None => false
  end.

(** The longest prefix of digits in base [base], and what follows it. *)
Fixpoint take_digits (base : Z) (s : string) : string * string :=
  match s with
  | EmptyString => (EmptyString, EmptyString)
  | String c s' =>
      if is_digit base c
      then (String c (fst (take_digits base s')), snd (take_digits base s'))
      else (EmptyString, s)
  end.

(** The value of a run of decimal digits. *)
Definition dec_value (ds : string) : Z :=
  match NilEmpty.uint_of_string ds with
  | Some u => Z.of_uint u
  | None => 0
  end.

(** The value of a run of digits in base [base], most significant first,
    after the digits of value [acc]. *)
Fixpoint radix_value (base : Z) (ds : string) (acc : Z) : Z :=
  match ds with
  | EmptyString => acc
  | String c ds' =>
      radix_value base ds'
        (acc * base + match digit_value c with Some d => d | None => 0 end)
  end.

(** The base a prefix [0x], [0o] or [0b] (in either case) announces. *)
Definition radix_of (c : ascii) : option Z :=
  let n := code c in
  if (Nat.eqb n 120 || Nat.eqb n 88)%bool then Some 16
  else if (Nat.eqb n 111 || Nat.eqb n 79)%bool then Some 8
  else if (Nat.eqb n 98 || Nat.eqb n 66)%bool then Some 2
  else None.

(** *** White space of the store

    Space, tab, line feed, vertical tab, form feed and carriage return
    (C's [isspace]), which the store's integer input skips on both
    sides. *)
Definition is_space (c : ascii) : bool :=
  let n := nat_of_ascii c in
  (Nat.eqb n 32 || (Nat.leb 9 n && Nat.leb n 13))%bool.

Fixpoint trim_left (s : string) : string :=
  match s with
  | EmptyString => EmptyString
  | String c s' => if is_space c then trim_left s' else s
  end.

Fixpoint trim_right (s : string) : string :=
  match s with
  | EmptyString => EmptyString
  | String c s' =>
      match trim_right s' with
      | EmptyString => if is_space c then EmptyString else String c EmptyString
      | t => String c t
      end
  end.

Definition trim (s : string) : string := trim_right (trim_left s).

Fixpoint no_space (s : string) : bool :=
  match s with
  | EmptyString => true
  | String c s' => (negb (is_space c) && no_space s')%bool
  end.

(** *** White space of JavaScript

    [String.prototype.trim] and [Number] strip ECMAScript's WhiteSpace
    and LineTerminator characters; strings are held here in UTF-8, where
    these are the one-byte characters above, U+00A0 (C2 A0) and the
    three-byte U+1680, U+2000 to U+200A, U+2028, U+2029, U+202F, U+205F,
    U+3000 and U+FEFF. *)
Definition space1 (c : ascii) : bool := is_space c.

Definition space2 (c c1 : ascii) : bool :=
  (Nat.eqb (code c) 194 && Nat.eqb (code c1) 160)%bool.

Definition space3 (c c1 c2 : ascii) : bool :=
  let n := code c in let n1 := code c1 in let n2 := code c2 in
  ((Nat.eqb n 225 && Nat.eqb n1 154 && Nat.eqb n2 128)
   || (Nat.eqb n 226 && Nat.eqb n1 128
       && (between 128 138 n2 || between 168 169 n2 || Nat.eqb n2 175))
   || (Nat.eqb n 226 && Nat.eqb n1 129 && Nat.eqb n2 159)
   || (Nat.eqb n 227 && Nat.eqb n1 128 && Nat.eqb n2 128)
   || (Nat.eqb n 239 && Nat.eqb n1 187 && Nat.eqb n2 191))%bool.

Fixpoint js_trim_start (s : string) : string :=
  match s with
  | EmptyString => s
  | String c s1 =>
      if space1 c then js_trim_start s1
      else match s1 with
           | EmptyString => s
           | String c1 s2 =>
               if space2 c c1 then js_trim_start s2
               else match s2 with
                    | EmptyString => s
                    | String c2 s3 =>
                        if space3 c c1 c2 then js_trim_start s3 else s
                    end
           end
  end.

(** [s] holds nothing but white space. *)
Fixpoint all_space (s : string) : bool :=
  match s with
  | EmptyString => true
  | String c s1 =>
      if space1 c then all_space s1
      else match s1 with
           | EmptyString => false
           | String c1 s2 =>
               if space2 c c1 then all_space s2
               else match s2 with
                    | EmptyString => false
                    | String c2 s3 =>
                        if space3 c c1 c2 then all_space s3 else false
                    end
           end
  end.

Fixpoint js_trim_end (s : string) : string :=
  match s with
  | EmptyString => EmptyString
  | String c s' => if all_space s then EmptyString else String c (js_trim_end s')
  end.

(** [s.trim()] *)
Definition js_trim (s : string) : string := js_trim_end (js_trim_start s).

(** *** [Number] *)

(** The value of a JavaScript number as far as the handler looks at it:
    it is only compared, with [!==], against the integer [msg.from.id].
    A finite value that is no integer and the two infinities differ from
    every integer. *)
Inductive jsnum : Type :=
| JNaN
| JNum (z : Z)
| JFraction
| JInfinity.

(** [Number.isInteger(x)] *)
Definition isInteger (x : jsnum) : bool :=
  match x with
  | JNum _ => true
  | _ => false
  end.

(** [x !== y] for [x = Number(..)] and [y] an integer: NaN differs from
    everything. *)
Definition strict_neq (x : jsnum) (y : Z) : bool :=
  match x with
  | JNum z => negb (z =? y)
  | _ => true
  end.

Definition negate (x : jsnum) : jsnum :=
  match x with
  | JNum z => JNum (- z)
  | _ => x
  end.

(** The double nearest to [num / den], for [num] and [den] positive, ties
    going to the even significand: with [2^e <= num / den < 2^(e+1)] the
    doubles around it are the multiples of [2^u], [u = e - 52] (and
    [-1074] where doubles are subnormal). *)
Definition nearest_double (num den : Z) : jsnum :=
  let e0 := Z.log2 num - Z.log2 den in
  let below := if 0 <=? e0 then num <? den * 2 ^ e0 else num * 2 ^ (- e0) <? den in
  let e := if below then e0 - 1 else e0 in
  let u := Z.max (e - 52) (-1074) in
  let n' := if 0 <=? u then num else num * 2 ^ (- u) in
  let d' := if 0 <=? u then den * 2 ^ u else den in
  let q := n' / d' in
  let r := n' mod d' in
  let n := if 2 * r <? d' then q
           else if d' <? 2 * r then q + 1
           else if Z.even q then q else q + 1 in
  if 0 <=? u then
    if 2 ^ 1024 <=? n * 2 ^ u then JInfinity else JNum (n * 2 ^ u)
  else if n mod 2 ^ (- u) =? 0 then JNum (n / 2 ^ (- u))
  else JFraction.

(** [m * 10^k] as a number: an integer value is kept as it is (a double
    holds every integer below 2^53 exactly, and ids are far below), a
    value that is no integer is rounded to the nearest double, which can
    be an integer. *)
Definition scaled (m k : Z) : jsnum :=
  if 0 <=? k then JNum (m * 10 ^ k)
  else if m mod 10 ^ (- k) =? 0 then JNum (m / 10 ^ (- k))
  else nearest_double m (10 ^ (- k)).

(** ExponentPart, which must end the text: [e] or [E], an optional sign
    and one or more digits; no exponent part is exponent 0. *)
Definition exponent (s : string) : option Z :=
  match s with
  | EmptyString => Some 0
  | String c r =>
      if (Nat.eqb (code c) 101 || Nat.eqb (code c) 69)%bool then
        let signed :=
          match r with
          | String "+" d => (1, d)
          | String "-" d => (-1, d)
          | _ => (1, r)
          end in
        match take_digits 10 (snd signed) with
        | (EmptyString, _) => None
        | (x, EmptyString) => Some (fst signed * dec_value x)
        | (_, String _ _) => None
        end
      else None
  end.

(** StrUnsignedDecimalLiteral: [Infinity], or digits with an optional
    fraction (one of the two digit runs may be empty) and an optional
    exponent. *)
Definition unsigned_decimal (s : string) : jsnum :=
  if String.eqb s "Infinity" then JInfinity
  else
    let i := fst (take_digits 10 s) in
    let r1 := snd (take_digits 10 s) in
    let fraction :=
      match r1 with
      | String "." r => take_digits 10 r
      | _ => (EmptyString, r1)
      end in
    let f := fst fraction in
    match (i ++ f)%string with
    | EmptyString => JNaN
    | digits =>
        match exponent (snd fraction) with
        | Some e => scaled (dec_value digits) (e - Z.of_nat (String.length f))
        | None => JNaN
        end
    end.

(** StrDecimalLiteral: an optional sign before the above. *)
Definition signed_decimal (s : string) : jsnum :=
  match s with
  | String "+" r => unsigned_decimal r
  | String "-" r => negate (unsigned_decimal r)
  | _ => unsigned_decimal s
  end.

(** NonDecimalIntegerLiteral: [0x], [0o] or [0b] and one or more digits
    of that base, with no sign; [None] when [s] has no such prefix. *)
Definition radix_literal (s : string) : option jsnum :=
  match s with
  | String "0" (String p ds) =>
      match radix_of p with
      | Some base =>
          Some (match take_digits base ds with
                | (EmptyString, _) => JNaN
                | (_, String _ _) => JNaN
                | (digits, EmptyString) => JNum (radix_value base digits 0)
                end)
      | None => None
      end
  | _ => None
  end.

(** [Number(s)] on a string (ECMAScript's StringToNumber): white space
    is trimmed on both sides; the empty string is 0; what is left must be
    a decimal literal or an unsigned radix literal as a whole, and is NaN
    otherwise. *)
Definition Number (s : string) : jsnum :=
  match js_trim s with
  | EmptyString => JNum 0
  | t => match radix_literal t with
         | Some x => x
         | None => signed_decimal t
         end
  end.

(** *** The store's integer input *)

(** Digits in base [base] as the store groups them: an underscore may
    stand before a digit; the digits, without the underscores, and what
    follows them.  An underscore followed by anything but a digit is an
    error. *)
Fixpoint grouped_digits (base : Z) (s : string) : option (string * string) :=
  match s with
  | EmptyString => Some (EmptyString, EmptyString)
  | String c s' =>
      if is_digit base c then
        match grouped_digits base s' with
        | Some (ds, r) => Some (String c ds, r)
        | None => None
        end
      else if Nat.eqb (code c) 95 then
        match s' with
        | String c' _ => if is_digit base c' then grouped_digits base s' else None
        | EmptyString => None
        end
      else Some (EmptyString, s)
  end.

(** The digits must be at least one and reach the end of the text. *)
Definition whole_digits (base : Z) (s : string) : option string :=
  match grouped_digits base s with
  | Some (String c ds, EmptyString) => Some (String c ds)
  | _ => None
  end.

(** Grouped decimal digits; they do not begin with an underscore. *)
Definition decimal_integer (s : string) : option Z :=
  match s with
  | String "_" _ => None
  | _ => option_map dec_value (whole_digits 10 s)
  end.

(** An unsigned integer of the store: [0x], [0o] or [0b] and grouped
    digits of that base (an underscore may follow the prefix), or grouped
    decimal digits. *)
Definition unsigned_integer (s : string) : option Z :=
  match s with
  | String "0" (String p ds) =>
      match radix_of p with
      | Some base => option_map (fun digits => radix_value base digits 0)
                                (whole_digits base ds)
      | None => decimal_integer s
      end
  | _ => decimal_integer s
  end.

Definition signed_integer (s : string) : option Z :=
  match s with
  | String "-" r => option_map Z.opp (unsigned_integer r)
  | String "+" r => unsigned_integer r
  | _ => unsigned_integer s
  end.

(** Modelled from the spec: the declaration of the [referrals] table is not
    in the source; the spec's data model gives the referrer identifier as a
    numeric identifier, so a text parameter bound to [referrer_id] goes
    through the store's integer input.  It is PostgreSQL's (the source
    connects through [pg]), as of version 16: white space is skipped on
    both sides; then come an optional sign and decimal digits, or a radix
    prefix and digits, in both cases with underscores allowed between
    digits; anything else is rejected with an error.  The column is taken
    to hold any integer: its width is not in the source. *)
Definition int8in (s : string) : option Z := signed_integer (trim s).

(** The two ways in which text that [Number] reads as NaN is still an
    integer for the store: an underscore, or a sign before a radix
    prefix. *)
Fixpoint has_underscore (s : string) : bool :=
  match s with
  | EmptyString => false
  | String c s' => (Nat.eqb (code c) 95 || has_underscore s')%bool
  end.

Definition signed_radix (s : string) : bool :=
  match trim s with
  | String c (String "0" (String p _)) =>
      ((Nat.eqb (code c) 43 || Nat.eqb (code c) 45)
       && match radix_of p with Some _ => true | None => false end)%bool
  | _ => false
  end.

(** Characters of one byte that are no white space, and text made of
    them: trimming, the store's or JavaScript's, leaves it as it is. *)
Definition solid (c : ascii) : bool :=
  (negb (is_space c) && Nat.ltb (code c) 128)%bool.

Fixpoint all_solid (s : string) : bool :=
  match s with
  | EmptyString => true
  | String c s' => (solid c && all_solid s')%bool
  end.

Fixpoint all_digits (base : Z) (s : string) : bool :=
  match s with
  | EmptyString => true
  | String c s' => (is_digit base c && all_digits base s')%bool
  end.

End Ident.

(** ** The persistent store *)

(** Modelled from the spec: the table declarations are not in the source.
    The columns are the ones the queries name; a new user starts with
    [referral_count = 0] and a new referral with [is_active = false] (the
    columns' defaults, which the INSERT statements rely on).  The store
    enforces nothing on insertion: uniqueness of [telegram_id] and of
    [referred_id] is kept by the handlers' check-then-insert, and a
    referral row can name a referrer who has no row in [users].  What ties
    the two tables is the cascade of a deletion ([Sql.delete_user]). *)
Record user_row : Type := mkUser {
  telegram_id : Z;
  username : option string;
  first_name : string;
  referral_count : Z
}.

Record referral_row : Type := mkReferral {
  referrer_id : Z;
  referred_id : Z;
  is_active : bool
}.

Record store : Type := mkStore {
  users : list user_row;
  referrals : list referral_row
}.

Definition empty_store : store := mkStore [] [].

Module Sql.

(** [SELECT * FROM users WHERE telegram_id = $1] *)
Definition select_user (id : Z) (s : store) : list user_row :=
  filter (fun u => telegram_id u =? id) (users s).

(** [INSERT INTO users (telegram_id, username, first_name) VALUES ($1, $2, $3) RETURNING *] *)
Definition new_user (id : Z) (un : option string) (fn : string) : user_row :=
  mkUser id un fn 0.

Definition insert_user (u : user_row) (s : store) : store :=
  mkStore (users s ++ [u]) (referrals s).

(** [SELECT * FROM referrals WHERE referred_id = $1] *)
Definition select_referral (referred : Z) (s : store) : list referral_row :=
  filter (fun r => referred_id r =? referred) (referrals s).

(** [INSERT INTO referrals (referrer_id, referred_id) VALUES ($1, $2)] *)
Definition insert_referral (referrer referred : Z) (s : store) : store :=
  mkStore (users s) (referrals s ++ [mkReferral referrer referred false]).

(** [UPDATE referrals SET referrer_id = $1 WHERE referred_id = $2] *)
Definition set_referrer (referrer referred : Z) (r : referral_row) : referral_row :=
  if referred_id r =? referred
  then mkReferral referrer (referred_id r) (is_active r)
  else r.

Definition update_referrer (referrer referred : Z) (s : store) : store :=
  mkStore (users s) (map (set_referrer referrer referred) (referrals s)).

(** [SELECT referrer_id FROM referrals WHERE referred_id = $1 AND is_active = <b>] *)
Definition select_referrer (referred : Z) (b : bool) (s : store) : list Z :=
  map referrer_id
    (filter (fun r => (referred_id r =? referred) && Bool.eqb (is_active r) b)%bool
            (referrals s)).

(** [UPDATE referrals SET is_active = <b> WHERE referred_id = $1] *)
Definition set_active (b : bool) (referred : Z) (r : referral_row) : referral_row :=
  if referred_id r =? referred
  then mkReferral (referrer_id r) (referred_id r) b
  else r.

Definition update_active (b : bool) (referred : Z) (s : store) : store :=
  mkStore (users s) (map (set_active b referred) (referrals s)).

(** [UPDATE users SET referral_count = <f referral_count> WHERE telegram_id = $1] *)
Definition set_count (f : Z -> Z) (id : Z) (u : user_row) : user_row :=
  if telegram_id u =? id
  then mkUser (telegram_id u) (username u) (first_name u) (f (referral_count u))
  else u.

Definition update_count (f : Z -> Z) (id : Z) (s : store) : store :=
  mkStore (map (set_count f id) (users s)) (referrals s).

(** [referral_count + 1] and [GREATEST(0, referral_count - 1)] *)
Definition incr (c : Z) : Z := c + 1.
Definition decr_floor (c : Z) : Z := Z.max 0 (c - 1).

(** The referral row [r] does not depend on the user [id]: it names them
    neither as referrer nor as referred. *)
Definition keeps (id : Z) (r : referral_row) : bool :=
  (negb (referrer_id r =? id) && negb (referred_id r =? id))%bool.

(** Modelled from the spec: the table declarations, and with them what a
    deletion from [users] does to [referrals], are not in the source; the
    spec has the deletion of a user cascade to the referral rows that
    depend on them.  [DELETE FROM users WHERE telegram_id = $1] removes the
    rows of [users] with that id and, when there is one, the referral rows
    that name the id as referrer or as referred. *)
Definition delete_user (id : Z) (s : store) : store :=
  mkStore (filter (fun u => negb (telegram_id u =? id)) (users s))
          (if existsb (fun u => telegram_id u =? id) (users s)
           then filter (keeps id) (referrals s)
           else referrals s).

(** [SELECT telegram_id FROM users] *)
Definition select_ids (s : store) : list Z := map telegram_id (users s).

End Sql.

(** ** Handlers: a state and exception monad over the store and the outbox *)

(** Who a message is sent to: a numeric chat id, or the text of the start
    parameter ([bot.sendMessage(newReferrerId, ..)]). *)
Inductive recipient : Type :=
| ToChat (id : Z)
| ToParam (s : string).

(** The messages the handlers send, by template. *)
Inductive text : Type :=
| WelcomeReferred (firstName : string)
| GroupLink
| ReferrerPending (firstName : string)
| WelcomeBackReferred (firstName : string)
| ReferrerPendingReturning (firstName : string)
| AlreadyActiveMember (firstName : string)
| WelcomeMenu
| StartFailed
| JoinSuccess (firstName : string)
| LeftNotice (firstName : string)
| RankReport (referral_count position : Z)
| NoReferralsYet
| RankFailed
| Broadcast (body : string).

(** What a handler acts on: the store as its session sees it, the
    snapshot taken by [BEGIN] while a transaction is open, and the
    messages handed to the transport so far (oldest first). *)
Record world : Type := mkWorld {
  db : store;
  snapshot : option store;
  outbox : list (recipient * text)
}.

Definition fresh (s : store) : world := mkWorld s None [].

(** What a handler can catch: a query the store rejects, or a send the
    transport rejects ([err.response.statusCode], absent when the failure
    carries no response). *)
Inductive error : Type :=
| InvalidInteger (s : string)
| SendFailed (statusCode : option Z).

Inductive outcome (A : Type) : Type :=
| Returned (a : A)
| Thrown (e : error).
Arguments Returned {A} a.
Arguments Thrown {A} e.

(** A thrown error keeps the world reached so far: statements outside a
    transaction are committed one by one. *)
Definition M (A : Type) : Type := world -> outcome A * world.

Definition ret {A} (a : A) : M A := fun w => (Returned a, w).

Definition bind {A B} (m : M A) (k : A -> M B) : M B :=
  fun w => match m w with
           | (Returned a, w') => k a w'
           | (Thrown e, w') => (Thrown e, w')
           end.

Definition throw {A} (e : error) : M A := fun w => (Thrown e, w).

(** [try { body } catch (error) { handler }] *)
Definition try_catch {A} (body : M A) (handler : error -> M A) : M A :=
  fun w => match body w with
           | (Returned a, w') => (Returned a, w')
           | (Thrown e, w') => handler e w'
           end.

Notation "x <- m ;; k" := (bind m (fun x => k))
  (at level 61, m at next level, right associativity).
Notation "m ;;; k" := (bind m (fun _ => k))
  (at level 61, right associativity).

(** A SELECT, and a statement that writes. *)
Definition query {A} (q : store -> A) : M A := fun w => (Returned (q (db w)), w).

Definition exec (f : store -> store) : M unit :=
  fun w => (Returned tt, mkWorld (f (db w)) (snapshot w) (outbox w)).

(** [BEGIN], [COMMIT] and [ROLLBACK] ([ROLLBACK] with no transaction open
    does nothing). *)
Definition sql_begin : M unit :=
  fun w => (Returned tt, mkWorld (db w) (Some (db w)) (outbox w)).

Definition sql_commit : M unit :=
  fun w => (Returned tt, mkWorld (db w) None (outbox w)).

Definition sql_rollback : M unit :=
  fun w => (Returned tt,
            match snapshot w with
            | Some s0 => mkWorld s0 None (outbox w)
            | None => w
            end).

(** Binding a text parameter to an integer column. *)
Definition bind_int8 (p : string) : M Z :=
  match Ident.int8in p with
  | Some z => ret z
  | None => throw (InvalidInteger p)
  end.

(** [bot.sendMessage(to, ..)] not awaited (or with its rejection
    swallowed by [.catch]): the handler goes on whatever the transport
    does with it. *)
Definition sendMessage (to : recipient) (t : text) : M unit :=
  fun w => (Returned tt, mkWorld (db w) (snapshot w) (outbox w ++ [(to, t)])).

Definition run {A} (m : M A) (s : store) : outcome A * world := m (fresh s).

(** The store a handler leaves behind, and what it sent. *)
Definition store_after {A} (m : M A) (s : store) : store := db (snd (run m s)).
Definition sent {A} (m : M A) (s : store) : list (recipient * text) :=
  outbox (snd (run m s)).

(** [getOrCreateUser(telegramId, username, firstName)] *)
Definition getOrCreateUser (telegramId : Z) (username : option string)
    (firstName : string) : M (option user_row) :=
  res <- query (Sql.select_user telegramId) ;;
  res <- (if (List.length res =? 0)%nat
          then (let u := Sql.new_user telegramId username firstName in
                exec (Sql.insert_user u) ;;; ret [u])
          else ret res) ;;
  ret (hd_error res).

(** The part of an incoming message the handlers read: [msg.chat.id],
    [msg.from.id], [msg.from.username], [msg.from.first_name]. *)
Record message : Type := mkMessage {
  chat_id : Z;
  from_id : Z;
  from_username : option string;
  from_first_name : string
}.

(** A JavaScript string in a condition: only the empty string is false. *)
Definition truthy (s : string) : bool :=
  match s with EmptyString => false | _ => true end.

(** [bot.onText(/\/start(?: (.+))?/, async (msg, match) => ..)];
    [newReferrerId] is [match[1]], absent when the command has no
    parameter. *)
Definition on_start (msg : message) (newReferrerId : option string) : M unit :=
  let chatId := chat_id msg in
  let userId := from_id msg in
  let firstName := from_first_name msg in
  try_catch
    (getOrCreateUser userId (from_username msg) firstName ;;;
     match newReferrerId with
     | Some ref =>
         if (truthy ref && Ident.strict_neq (Ident.Number ref) userId)%bool then
           existingReferralRes <- query (Sql.select_referral userId) ;;
           match hd_error existingReferralRes with
           | None =>
               referrer <- bind_int8 ref ;;
               exec (Sql.insert_referral referrer userId) ;;;
               sendMessage (ToChat chatId) (WelcomeReferred firstName) ;;;
               sendMessage (ToChat chatId) GroupLink ;;;
               sendMessage (ToParam ref) (ReferrerPending firstName)
           | Some existingReferral =>
               if negb (is_active existingReferral) then
                 referrer <- bind_int8 ref ;;
                 exec (Sql.update_referrer referrer userId) ;;;
                 sendMessage (ToChat chatId) (WelcomeBackReferred firstName) ;;;
                 sendMessage (ToChat chatId) GroupLink ;;;
                 sendMessage (ToParam ref) (ReferrerPendingReturning firstName)
               else
                 sendMessage (ToChat chatId) (AlreadyActiveMember firstName)
           end
         else sendMessage (ToChat chatId) WelcomeMenu
     | None => sendMessage (ToChat chatId) WelcomeMenu
     end)
    (fun _ => sendMessage (ToChat chatId) StartFailed).

(** [bot.on('new_chat_members', ..)] for [msg.new_chat_members[0]] *)
Definition on_new_chat_members (newMemberId : Z) (firstName : string) : M unit :=
  try_catch
    (sql_begin ;;;
     referralRes <- query (Sql.select_referrer newMemberId false) ;;
     match referralRes with
     | referrer_id :: _ =>
         exec (Sql.update_active true newMemberId) ;;;
         exec (Sql.update_count Sql.incr referrer_id) ;;;
         sql_commit ;;;
         sendMessage (ToChat referrer_id) (JoinSuccess firstName)
     | [] => sql_rollback
     end)
    (fun _ => sql_rollback).

(** [bot.on('left_chat_member', ..)] for [msg.left_chat_member] *)
Definition on_left_chat_member (leftMemberId : Z) (leftMemberName : string) : M unit :=
  try_catch
    (sql_begin ;;;
     referralRes <- query (Sql.select_referrer leftMemberId true) ;;
     match referralRes with
     | referrer_id :: _ =>
         exec (Sql.update_count Sql.decr_floor referrer_id) ;;;
         exec (Sql.update_active false leftMemberId) ;;;
         sql_commit ;;;
         sendMessage (ToChat referrer_id) (LeftNotice leftMemberName)
     | [] => sql_rollback
     end)
    (fun _ => sql_rollback).

(** ** Rank query *)

Module Rank.

(** [ORDER BY referral_count DESC], rows with equal counts kept in table
    order. *)
Fixpoint insert_desc (u : user_row) (l : list user_row) : list user_row :=
  match l with
  | [] => [u]
  | v :: l' =>
      if referral_count u <? referral_count v
      then v :: insert_desc u l'
      else u :: l
  end.

Definition order_desc (l : list user_row) : list user_row :=
  fold_right insert_desc [] l.

(** [RANK() OVER (..)] along the ordered rows: a row whose count equals
    the previous row's shares its rank, any other row takes its 1-based
    row number.  [prev] is the previous row's count and rank, [n] the
    number of rows already passed. *)
Fixpoint rank_from (prev : option (Z * Z)) (n : Z) (l : list user_row)
  : list (user_row * Z) :=
  match l with
  | [] => []
  | u :: l' =>
      let position :=
        match prev with
        | Some (c, k) => if c =? referral_count u then k else n + 1
        | None => n + 1
        end in
      (u, position) :: rank_from (Some (referral_count u, position)) (n + 1) l'
  end.

(** The CTE [user_rank]. *)
Definition user_rank (s : store) : list (user_row * Z) :=
  rank_from None 0 (order_desc (users s)).

(** [SELECT position, referral_count FROM user_rank WHERE telegram_id = $1] *)
Definition rank_query (id : Z) (s : store) : list (Z * Z) :=
  map (fun r => (snd r, referral_count (fst r)))
      (filter (fun r => telegram_id (fst r) =? id) (user_rank s)).

End Rank.

(** [bot.onText(/\/rank/, ..)] *)
Definition on_rank (chatId : Z) : M unit :=
  try_catch
    (res <- query (Rank.rank_query chatId) ;;
     match res with
     | (position, referral_count) :: _ =>
         if referral_count >? 0
         then sendMessage (ToChat chatId) (RankReport referral_count position)
         else sendMessage (ToChat chatId) NoReferralsYet
     | [] => sendMessage (ToChat chatId) NoReferralsYet
     end)
    (fun _ => sendMessage (ToChat chatId) RankFailed).

(** ** Broadcast *)

(** What the transport does with one awaited send. *)
Inductive delivery : Type :=
| Delivered
| Rejected (statusCode : option Z).

(** [await bot.sendMessage(id, message)]: the attempt is recorded, and a
    rejected send throws. *)
Definition awaitSendMessage (transport : Z -> delivery) (id : Z) (t : text) : M unit :=
  sendMessage (ToChat id) t ;;;
  match transport id with
  | Delivered => ret tt
  | Rejected code => throw (SendFailed code)
  end.

Record tally : Type := mkTally {
  successCount : Z;
  failureCount : Z
}.

(** [err.response && err.response.statusCode === 403] *)
Definition is_forbidden (e : error) : bool :=
  match e with
  | SendFailed (Some code) => code =? 403
  | _ => false
  end.

(** [for (const id of userIds) { try { .. } catch (err) { .. } }]; the
    pause after every twentieth success changes nothing in the store. *)
Fixpoint broadcast_loop (transport : Z -> delivery) (message : string)
    (userIds : list Z) (t : tally) : M tally :=
  match userIds with
  | [] => ret t
  | id :: rest =>
      t' <- try_catch
              (awaitSendMessage transport id (Broadcast message) ;;;
               ret (mkTally (successCount t + 1) (failureCount t)))
              (fun err =>
                 (if is_forbidden err
                  then exec (Sql.delete_user id)
                  else ret tt) ;;;
                 ret (mkTally (successCount t) (failureCount t + 1))) ;;
      broadcast_loop transport message rest t'
  end.

Record broadcast_result : Type := mkResult {
  total : Z;
  success : Z;
  failed : Z
}.

(** [broadcastMessage(message)] *)
Definition broadcastMessage (transport : Z -> delivery) (message : string)
  : M broadcast_result :=
  userIds <- query Sql.select_ids ;;
  t <- broadcast_loop transport message userIds (mkTally 0 0) ;;
  ret (mkResult (successCount t + failureCount t) (successCount t) (failureCount t)).

(** The replies of [app.post('/broadcast', ..)]. *)
Inductive response : Type :=
| BadRequest
| Completed (success_count failed_count : Z)
| ServerError.

(** [!message || typeof message !== 'string' || message.trim().length === 0];
    a body whose [message] is missing or no string is [None]. *)
Definition blank (message : option string) : bool :=
  match message with
  | None => true
  | Some m => (negb (truthy m) || (String.length (Ident.js_trim m) =? 0)%nat)%bool
  end.

Definition post_broadcast (transport : Z -> delivery) (message : option string)
  : M response :=
  match message with
  | Some m =>
      if blank message then ret BadRequest
      else try_catch
             (results <- broadcastMessage transport m ;;
              ret (Completed (success results) (failed results)))
             (fun _ => ret ServerError)
  | None => ret BadRequest
  end.

(** ** The three operations of the referral state machine *)

(** [RegisterReferral(referrerId, referredId)] is the [/start] of the
    referred user, in their private chat, with the referrer's link;
    [OnMemberJoined] and [OnMemberLeft] are the two group events. *)
Inductive op : Type :=
| RegisterReferral (referrerId : Z) (referred : message)
| OnMemberJoined (memberId : Z) (firstName : string)
| OnMemberLeft (memberId : Z) (firstName : string).

Definition handle (o : op) : M unit :=
  match o with
  | RegisterReferral referrerId referred =>
      on_start referred (Some (Ident.to_string referrerId))
  | OnMemberJoined memberId firstName => on_new_chat_members memberId firstName
  | OnMemberLeft memberId firstName => on_left_chat_member memberId firstName
  end.

Definition step (s : store) (o : op) : store := store_after (handle o) s.

Definition steps (s : store) (ops : list op) : store := fold_left step ops s.

(** A user writing to the bot in their private chat. *)
Definition private (id : Z) (un : option string) (fn : string) : message :=
  mkMessage id id un fn.

(** ** Reading the tables *)

(** [U.referral_count]: the count in [U]'s row, if [U] has one. *)
Definition count_of (s : store) (U : Z) : option Z :=
  option_map referral_count (hd_error (Sql.select_user U s)).

(** The number of referral rows with referrer [U] and [is_active = true]. *)
Definition active_for (U : Z) (r : referral_row) : bool :=
  ((referrer_id r =? U) && is_active r)%bool.

Definition active_referrals (s : store) (U : Z) : Z :=
  Z.of_nat (List.length (filter (active_for U) (referrals s))).

Definition known (s : store) (U : Z) : bool :=
  existsb (fun u => telegram_id u =? U) (users s).

(** The store [getOrCreateUser] leaves: a row with count 0 is appended for
    an id that has none. *)
Definition with_user (id : Z) (un : option string) (fn : string) (s : store) : store :=
  if known s id then s else Sql.insert_user (Sql.new_user id un fn) s.

Definition with_sender (msg : message) (s : store) : store :=
  with_user (from_id msg) (from_username msg) (from_first_name msg) s.

(** ** Consistency of the two tables for one user *)

(** One referral row per referred user; if an active referral names [U] as
    referrer, [U] has a row in [users]; and the count of every row of [U]
    is the number of active referral rows that name [U] as referrer. *)
Record consistent (U : Z) (s : store) : Prop := mkConsistent {
  referred_unique : NoDup (map referred_id (referrals s));
  referrer_known : forall r, In r (referrals s) -> is_active r = true ->
                             referrer_id r = U -> known s U = true;
  count_exact : forall u, In u (users s) -> telegram_id u = U ->
                          referral_count u = active_referrals s U
}.

(** If the join is about to credit [U], then [U] has a row in [users]. *)
Definition credited_present (U : Z) (s : store) (o : op) : bool :=
  match o with
  | OnMemberJoined memberId _ =>
      match Sql.select_referrer memberId false s with
      | referrer :: _ => (negb (referrer =? U) || known s U)%bool
      | [] => true
      end
  | _ => true
  end.

Fixpoint always_present (U : Z) (s : store) (ops : list op) : bool :=
  match ops with
  | [] => true
  | o :: rest => (credited_present U s o && always_present U (step s o) rest)%bool
  end.

(** No row of [rs] is about the referred user [B]. *)
Definition no_row (B : Z) (rs : list referral_row) : Prop :=
  forall r, In r rs -> (referred_id r =? B) = false.

(** The number of rows of [l] whose count is strictly greater than [c]. *)
Definition above (c : Z) (l : list user_row) : Z :=
  Z.of_nat (List.length (filter (fun v => c <? referral_count v) l)).

(** [u] may stand before [v] in descending order of count. *)
Definition not_below (u v : user_row) : Prop := referral_count v <= referral_count u.

(** How one awaited send ended, as the broadcast loop sorts it. *)
Definition is_delivered (d : delivery) : bool :=
  match d with
  | Delivered => true
  | Rejected _ => false
  end.

Definition is_blocked (d : delivery) : bool :=
  match d with
  | Delivered => false
  | Rejected code => is_forbidden (SendFailed code)
  end.

(** The store after the loop has passed the recipients [ids]. *)
Definition purge (transport : Z -> delivery) (ids : list Z) (s : store) : store :=
  fold_left (fun s id => if is_blocked (transport id) then Sql.delete_user id s else s)
            ids s.

(** ** The remaining handlers *)

(** *** Command text

    [bot.onText(/\/start(?: (.+))?/, ..)] runs the handler on a text in
    which the pattern matches, with the result of the match.  The pattern
    is not anchored: the leftmost [/start] counts; the group is the rest
    of the line after one space, and is absent when no non-empty rest
    follows a space. *)
Module Command.

(** [s] starts with a line terminator: LF, CR, or U+2028 or U+2029 (in
    UTF-8, E2 80 A8 and E2 80 A9), the characters [.] does not match. *)
Definition at_line_end (s : string) : bool :=
  match s with
  | EmptyString => false
  | String c rest =>
      let n := nat_of_ascii c in
      if (Nat.eqb n 10 || Nat.eqb n 13)%bool then true
      else if Nat.eqb n 226 then
        match rest with
        | String c1 (String c2 _) =>
            (Nat.eqb (nat_of_ascii c1) 128
             && (Nat.eqb (nat_of_ascii c2) 168 || Nat.eqb (nat_of_ascii c2) 169))%bool
        | _ => false
        end
      else false
  end.

(** What a greedy [.*] takes at the start of [s]. *)
Fixpoint to_line_end (s : string) : string :=
  match s with
  | EmptyString => EmptyString
  | String c s' => if at_line_end s then EmptyString else String c (to_line_end s')
  end.

(** [s] without the prefix [p], when it has it. *)
Fixpoint strip_prefix (p s : string) : option string :=
  match p with
  | EmptyString => Some s
  | String a p' =>
      match s with
      | EmptyString => None
      | String b s' => if Ascii.eqb a b then strip_prefix p' s' else None
      end
  end.

(** What follows the leftmost occurrence of [p] in [s]. *)
Fixpoint after_first (p s : string) : option string :=
  match strip_prefix p s with
  | Some rest => Some rest
  | None =>
      match s with
      | EmptyString => None
      | String _ s' => after_first p s'
      end
  end.

(** [/\/start(?: (.+))?/.exec(text)]: [None] when the pattern does not
    match, otherwise [match[1]]. *)
Definition start_match (text : string) : option (option string) :=
  match after_first "/start" text with
  | None => None
  | Some rest =>
      Some (match rest with
            | String " " r =>
                match to_line_end r with
                | EmptyString => None
                | g => Some g
                end
            | _ => None
            end)
  end.

End Command.

(** The [/start] handler as registered: it runs on a text the pattern
    matches. *)
Definition on_start_text (msg : message) (text : string) : M unit :=
  match Command.start_match text with
  | Some newReferrerId => on_start msg newReferrerId
  | None => ret tt
  end.

(** *** Handlers that only query

    [/mylink], [/top10] and the inline buttons send messages the handlers
    above do not; their replies are either one of those templates or one
    of the following. *)
Inductive reply : Type :=
| Template (t : text)
| ReferralLink (url : string)
| LeaderboardEmpty
| Leaderboard (body : string)
| LeaderboardFailed.

(** These handlers issue no statement that writes: they read the store
    and add to the messages sent; a failing request throws. *)
Module Q.

Definition t (A : Type) : Type :=
  store -> list (recipient * reply) -> outcome A * list (recipient * reply).

Definition ret {A} (a : A) : t A := fun _ out => (Returned a, out).

Definition bind {A B} (m : t A) (k : A -> t B) : t B :=
  fun s out => match m s out with
               | (Returned a, out') => k a s out'
               | (Thrown e, out') => (Thrown e, out')
               end.

Definition throw {A} (e : error) : t A := fun _ out => (Thrown e, out).

Definition try_catch {A} (body : t A) (handler : error -> t A) : t A :=
  fun s out => match body s out with
               | (Returned a, out') => (Returned a, out')
               | (Thrown e, out') => handler e s out'
               end.

Definition query {A} (q : store -> A) : t A := fun s out => (Returned (q s), out).

Definition sendMessage (to : recipient) (r : reply) : t unit :=
  fun _ out => (Returned tt, out ++ [(to, r)]).

(** What a handler sends, on a store. *)
Definition sent {A} (m : t A) (s : store) : list (recipient * reply) := snd (m s []).

End Q.

Notation "x <~ m ;; k" := (Q.bind m (fun x => k))
  (at level 61, m at next level, right associativity).

(** [https://t.me/${botUsername}?start=${chatId}]; [botUsername] comes
    from the environment. *)
Definition referral_link (botUsername : string) (chatId : Z) : string :=
  "https://t.me/" ++ botUsername ++ "?start=" ++ Ident.to_string chatId.

(** [bot.onText(/\/mylink/, ..)] *)
Definition on_mylink (botUsername : string) (chatId : Z) : Q.t unit :=
  Q.sendMessage (ToChat chatId) (ReferralLink (referral_link botUsername chatId)).

Module Board.

(** [SELECT first_name, username, referral_count FROM users
     WHERE referral_count > 0 ORDER BY referral_count DESC LIMIT 10];
    the rows are kept whole, the handler reads the three columns. *)
Definition top10_query (s : store) : list user_row :=
  firstn 10 (Rank.order_desc (filter (fun u => referral_count u >? 0) (users s))).

(** The rows the query orders, before [LIMIT]. *)
Definition candidates (s : store) : list user_row :=
  Rank.order_desc (filter (fun u => referral_count u >? 0) (users s)).

Definition newline : string := String (ascii_of_nat 10) EmptyString.

(** [row.username ? `@${row.username}` : row.first_name] *)
Definition display_name (row : user_row) : string :=
  match username row with
  | Some u => if truthy u then "@" ++ u else first_name row
  | None => first_name row
  end.

(** [`${index + 1}. ${name} - ${row.referral_count} referral(s)\n`] *)
Definition line (index : nat) (row : user_row) : string :=
  Ident.to_string (Z.of_nat index + 1) ++ ". " ++ display_name row ++ " - "
  ++ Ident.to_string (referral_count row) ++ " referral(s)" ++ newline.

Definition header : string :=
  "🏆 **Top 10 Referrers** 🏆" ++ newline ++ newline.

(** [rows.forEach((row, index) => { leaderboardText += .. })] *)
Definition render (rows : list user_row) : string :=
  fold_left (fun leaderboardText ir => (leaderboardText ++ line (fst ir) (snd ir))%string)
            (combine (seq 0 (List.length rows)) rows) header.

(** The query and the two replies, as both the command and the button
    have them. *)
Definition reply_leaderboard (chatId : Z) : Q.t unit :=
  Q.try_catch
    (res <~ Q.query top10_query ;;
     if (List.length res =? 0)%nat
     then Q.sendMessage (ToChat chatId) LeaderboardEmpty
     else Q.sendMessage (ToChat chatId) (Leaderboard (render res)))
    (fun _ => Q.sendMessage (ToChat chatId) LeaderboardFailed).

End Board.

(** [await bot.getChatMember(chatId, userId)]: the member's status, or a
    rejected request. *)
Definition awaitChatMember (getChatMember : Z -> Z -> option string)
    (chatId userId : Z) : Q.t string :=
  match getChatMember chatId userId with
  | Some status => Q.ret status
  | None => Q.throw (SendFailed None)
  end.

(** [bot.onText(/\/top10/, ..)]; [chat_type] is [msg.chat.type].  In a
    group the handler goes on for creators and administrators only, and
    returns without a word otherwise. *)
Definition on_top10 (getChatMember : Z -> Z -> option string) (msg : message)
    (chat_type : string) : Q.t unit :=
  let chatId := chat_id msg in
  allowed <~ (if (String.eqb chat_type "group" || String.eqb chat_type "supergroup")%bool
                  then Q.try_catch
                         (status <~ awaitChatMember getChatMember chatId (from_id msg) ;;
                          Q.ret (String.eqb status "creator"
                                 || String.eqb status "administrator")%bool)
                         (fun _ => Q.ret false)
                  else Q.ret true) ;;
  if allowed then Board.reply_leaderboard chatId else Q.ret tt.

(** [bot.on('callback_query', ..)]; [chatId] is the chat of the message
    the button sits under, [data] the button's callback data.  The
    acknowledgement [bot.answerCallbackQuery(..)] that comes first sends no
    message and reads nothing; it is left out. *)
Definition on_callback_query (botUsername : string) (chatId : Z) (data : string)
  : Q.t unit :=
  if String.eqb data "main_menu" then
    Q.sendMessage (ToChat chatId) (Template WelcomeMenu)
  else if String.eqb data "get_link" then
    Q.sendMessage (ToChat chatId) (ReferralLink (referral_link botUsername chatId))
  else if String.eqb data "get_rank" then
    Q.try_catch
      (res <~ Q.query (Rank.rank_query chatId) ;;
       match res with
       | (position, referral_count) :: _ =>
           if referral_count >? 0
           then Q.sendMessage (ToChat chatId) (Template (RankReport referral_count position))
           else Q.sendMessage (ToChat chatId) (Template NoReferralsYet)
       | [] => Q.sendMessage (ToChat chatId) (Template NoReferralsYet)
       end)
      (fun _ => Q.sendMessage (ToChat chatId) (Template RankFailed))
  else if String.eqb data "get_leaderboard" then
    Board.reply_leaderboard chatId
  else Q.ret tt.

(** ** Every event that writes *)

Inductive event : Type :=
| Started (msg : message) (text : string)
| MemberJoined (memberId : Z) (firstName : string)
| MemberLeft (memberId : Z) (firstName : string)
| BroadcastPosted (transport : Z -> delivery) (message : option string).

Definition react (e : event) : M unit :=
  match e with
  | Started msg text => on_start_text msg text
  | MemberJoined memberId firstName => on_new_chat_members memberId firstName
  | MemberLeft memberId firstName => on_left_chat_member memberId firstName
  | BroadcastPosted transport message => post_broadcast transport message ;;; ret tt
  end.

Definition after (s : store) (e : event) : store := store_after (react e) s.

Definition after_all (s : store) (es : list event) : store := fold_left after es s.

(** What holds of the tables whatever has happened: one row per user,
    one referral row per referred user, and no negative count. *)
Record sound (s : store) : Prop := mkSound {
  ids_unique : NoDup (map telegram_id (users s));
  referred_once : NoDup (map referred_id (referrals s));
  counts_nonneg : forall u, In u (users s) -> 0 <= referral_count u
}.

(** No count is ahead of the user's active referrals. *)
Definition behind (s : store) : Prop :=
  forall u, In u (users s) -> referral_count u <= active_referrals s (telegram_id u).

(** Events other than broadcasts. *)
Definition is_broadcast (e : event) : bool :=
  match e with
  | BroadcastPosted _ _ => true
  | _ => false
  end.

Definition no_broadcast (es : list event) : bool :=
  forallb (fun e => negb (is_broadcast e)) es.

(** Whom a broadcast over [transport] removes from the store [s]: the
    users with a row whose send is rejected as forbidden. *)
Definition removed (transport : Z -> delivery) (s : store) (id : Z) : bool :=
  (known s id && is_blocked (transport id))%bool.

(** [id] is one of the recipients [ids] and is removed. *)
Definition removed_among (transport : Z -> delivery) (ids : list Z) (s : store)
    (id : Z) : bool :=
  existsb (fun i => ((i =? id) && removed transport s i)%bool) ids.

(** The referral rows a broadcast keeps: those that name no removed user. *)
Definition spared (transport : Z -> delivery) (s : store) (r : referral_row) : bool :=
  (negb (removed transport s (referrer_id r))
   && negb (removed transport s (referred_id r)))%bool.

(** The rank and count [/rank] reads for a user. *)
Definition rank_of (s : store) (U : Z) : option (Z * Z) :=
  hd_error (Rank.rank_query U s).

(** * Properties *)

(** ** Decimal ids survive the round trip through the link *)

Module IdentFacts.
Import Ident.

Ltac each_char c :=
  destruct c as [[|] [|] [|] [|] [|] [|] [|] [|]].

(** *** Trimming *)

Lemma trim_left_no_space s : no_space s = true -> trim_left s = s.
Proof.
  destruct s as [|c s]; simpl; [reflexivity|].
  destruct (is_space c); simpl; [discriminate | reflexivity].
Qed.

Lemma trim_right_no_space s : no_space s = true -> trim_right s = s.
Proof.
  induction s as [|c s IH]; simpl; [reflexivity|].
  destruct (is_space c) eqn:Hc; simpl; [discriminate|].
  intros H. rewrite (IH H). destruct s; reflexivity.
Qed.

Lemma trim_no_space s : no_space s = true -> trim s = s.
Proof.
  intros H. unfold trim. rewrite (trim_left_no_space s H).
  now apply trim_right_no_space.
Qed.

Lemma solid_not_space c : solid c = true -> is_space c = false.
Proof.
  unfold solid. intros H. apply andb_true_iff in H.
  destruct H as [H _]. now apply negb_true_iff in H.
Qed.

Lemma solid_code c k : solid c = true -> (128 <= k)%nat -> Nat.eqb (code c) k = false.
Proof.
  unfold solid. intros H Hk. apply andb_true_iff in H. destruct H as [_ H].
  apply Nat.ltb_lt in H. apply Nat.eqb_neq. lia.
Qed.

Lemma solid_space2 c c1 : solid c = true -> space2 c c1 = false.
Proof.
  intros H. unfold space2. now rewrite (solid_code c 194 H) by lia.
Qed.

Lemma solid_space3 c c1 c2 : solid c = true -> space3 c c1 c2 = false.
Proof.
  intros H. unfold space3. cbv zeta.
  rewrite (solid_code c 225 H), (solid_code c 226 H), (solid_code c 227 H),
    (solid_code c 239 H) by lia.
  reflexivity.
Qed.

Lemma js_trim_start_solid c s :
  solid c = true -> js_trim_start (String c s) = String c s.
Proof.
  intros H. cbn [js_trim_start]. unfold space1.
  rewrite (solid_not_space c H).
  destruct s as [|c1 s]; [reflexivity|]. rewrite (solid_space2 c c1 H).
  destruct s as [|c2 s]; [reflexivity|]. now rewrite (solid_space3 c c1 c2 H).
Qed.

Lemma all_space_solid c s : solid c = true -> all_space (String c s) = false.
Proof.
  intros H. cbn [all_space]. unfold space1.
  rewrite (solid_not_space c H).
  destruct s as [|c1 s]; [reflexivity|]. rewrite (solid_space2 c c1 H).
  destruct s as [|c2 s]; [reflexivity|]. now rewrite (solid_space3 c c1 c2 H).
Qed.

Lemma js_trim_end_cons c s :
  js_trim_end (String c s)
  = if all_space (String c s) then EmptyString else String c (js_trim_end s).
Proof. reflexivity. Qed.

Lemma js_trim_end_all_space s : all_space s = true -> js_trim_end s = EmptyString.
Proof.
  destruct s as [|c s]; [reflexivity|]. rewrite js_trim_end_cons. now intros ->.
Qed.

Lemma trim_right_empty s : trim_right s = EmptyString -> all_space s = true.
Proof.
  induction s as [|c s IH]; [reflexivity|]. simpl.
  destruct (trim_right s); [|discriminate].
  destruct (is_space c) eqn:Hc; [|discriminate].
  intros _. unfold space1. rewrite Hc. now apply IH.
Qed.

Lemma js_trim_end_solid s :
  all_solid (trim_right s) = true -> js_trim_end s = trim_right s.
Proof.
  induction s as [|c s IH]; [reflexivity|].
  rewrite js_trim_end_cons. cbn [trim_right].
  destruct (trim_right s) as [|c' t] eqn:Ht.
  - destruct (is_space c) eqn:Hc.
    + intros _.
      assert (E : all_space (String c s) = true).
      { cbn [all_space]. unfold space1. rewrite Hc. now apply trim_right_empty. }
      now rewrite E.
    + cbn [all_solid]. intros H. apply andb_true_iff in H. destruct H as [H _].
      rewrite (all_space_solid c s H).
      now rewrite (js_trim_end_all_space s (trim_right_empty s Ht)).
  - cbn [all_solid]. intros H. apply andb_true_iff in H. destruct H as [H H'].
    rewrite (all_space_solid c s H). f_equal. apply IH. exact H'.
Qed.

Lemma trim_right_head c s :
  is_space c = false ->
  exists t, trim_right (String c s) = String c t.
Proof.
  intros Hc. cbn [trim_right]. rewrite Hc.
  destruct (trim_right s); eauto.
Qed.

Lemma js_trim_start_solid_trim s :
  all_solid (trim s) = true -> js_trim_start s = trim_left s.
Proof.
  unfold trim. induction s as [|c s IH]; [reflexivity|].
  cbn [trim_left js_trim_start]. unfold space1.
  destruct (is_space c) eqn:Hc; [exact IH|].
  intros H. destruct (trim_right_head c s Hc) as [t Ht].
  rewrite Ht in H. cbn [all_solid] in H. apply andb_true_iff in H.
  destruct H as [H _].
  pose proof (js_trim_start_solid c s H) as E. cbn [js_trim_start] in E.
  unfold space1 in E. rewrite Hc in E. exact E.
Qed.

(** Where the store's trimming leaves one-byte characters only, that of
    JavaScript leaves the same text. *)
Lemma js_trim_solid s : all_solid (trim s) = true -> js_trim s = trim s.
Proof.
  intros H. unfold js_trim. rewrite (js_trim_start_solid_trim s H).
  now apply js_trim_end_solid.
Qed.

Lemma all_solid_no_space s : all_solid s = true -> no_space s = true.
Proof.
  induction s as [|c s IH]; [reflexivity|]. simpl. intros H.
  apply andb_true_iff in H. destruct H as [H H'].
  now rewrite (solid_not_space c H), (IH H').
Qed.

Lemma trim_all_solid s : all_solid s = true -> trim s = s.
Proof. intros H. now apply trim_no_space, all_solid_no_space. Qed.

Lemma js_trim_all_solid s : all_solid s = true -> js_trim s = s.
Proof.
  intros H. rewrite js_trim_solid; rewrite (trim_all_solid s H); auto.
Qed.

(** *** Digits *)

Lemma digit_value_solid c d : digit_value c = Some d -> solid c = true.
Proof.
  each_char c; intros H; solve [reflexivity | vm_compute in H; discriminate H].
Qed.

Lemma is_digit_solid base c : is_digit base c = true -> solid c = true.
Proof.
  unfold is_digit. destruct (digit_value c) as [d|] eqn:E; [|discriminate].
  intros _. now apply (digit_value_solid c d).
Qed.

Lemma radix_of_solid p base : radix_of p = Some base -> solid p = true.
Proof.
  each_char p; intros H; solve [reflexivity | vm_compute in H; discriminate H].
Qed.

Lemma is_digit_radix_of c : is_digit 10 c = true -> radix_of c = None.
Proof.
  each_char c; intros H; solve [reflexivity | vm_compute in H; discriminate H].
Qed.

Lemma is_digit_not_underscore base c :
  is_digit base c = true -> Nat.eqb (code c) 95 = false.
Proof.
  unfold is_digit. destruct (digit_value c) as [d|] eqn:E; [|discriminate].
  intros _. revert E.
  each_char c; intros H; solve [reflexivity | vm_compute in H; discriminate H].
Qed.

Lemma all_digits_solid base s : all_digits base s = true -> all_solid s = true.
Proof.
  induction s as [|c s IH]; [reflexivity|]. simpl. intros H.
  apply andb_true_iff in H. destruct H as [H H'].
  now rewrite (is_digit_solid base c H), (IH H').
Qed.

Lemma take_digits_all base s :
  all_digits base s = true -> take_digits base s = (s, EmptyString).
Proof.
  induction s as [|c s IH]; [reflexivity|]. simpl. intros H.
  apply andb_true_iff in H. destruct H as [H H'].
  now rewrite H, (IH H').
Qed.

Lemma take_digits_whole base s ds :
  take_digits base s = (ds, EmptyString) -> ds = s /\ all_digits base s = true.
Proof.
  revert ds. induction s as [|c s IH]; simpl; intros ds.
  - intros [= <-]. now split.
  - destruct (is_digit base c) eqn:Hc; [|discriminate].
    destruct (take_digits base s) as [a b]. simpl. intros [= <- ->].
    destruct (IH a eq_refl) as [-> ->]. now split.
Qed.

Lemma has_underscore_cons c s :
  has_underscore (String c s) = false ->
  Nat.eqb (code c) 95 = false /\ has_underscore s = false.
Proof. simpl. intros H. now apply orb_false_iff in H. Qed.

Lemma grouped_digits_plain base s :
  has_underscore s = false ->
  grouped_digits base s = Some (take_digits base s).
Proof.
  induction s as [|c s IH]; [reflexivity|]. intros H.
  apply has_underscore_cons in H. destruct H as [Hc Hs].
  cbn [grouped_digits take_digits]. rewrite (IH Hs), Hc.
  destruct (is_digit base c); [|reflexivity].
  now destruct (take_digits base s).
Qed.

Lemma whole_digits_plain base s ds :
  has_underscore s = false ->
  whole_digits base s = Some ds ->
  ds = s /\ s <> EmptyString /\ all_digits base s = true.
Proof.
  intros Hu. unfold whole_digits. rewrite (grouped_digits_plain base s Hu).
  destruct (take_digits base s) as [a b] eqn:E.
  destruct a as [|c a]; [discriminate|]. destruct b; [|discriminate].
  intros [= <-]. destruct (take_digits_whole base s _ E) as [<- H].
  repeat split; [discriminate | exact H].
Qed.

Lemma all_digits_underscore base s :
  all_digits base s = true -> has_underscore s = false.
Proof.
  induction s as [|c s IH]; [reflexivity|]. simpl. intros H.
  apply andb_true_iff in H. destruct H as [H H'].
  now rewrite (is_digit_not_underscore base c H), (IH H').
Qed.

Lemma whole_digits_all base s :
  all_digits base s = true -> s <> EmptyString -> whole_digits base s = Some s.
Proof.
  intros H Hs. unfold whole_digits.
  rewrite (grouped_digits_plain base s (all_digits_underscore base s H)).
  rewrite (take_digits_all base s H). destruct s; [now elim Hs | reflexivity].
Qed.

Lemma append_empty s : (s ++ EmptyString)%string = s.
Proof. induction s as [|c s IH]; simpl; [reflexivity | now rewrite IH]. Qed.

(** *** The two parsers on plain digits *)

Lemma unsigned_decimal_digits s :
  all_digits 10 s = true -> s <> EmptyString ->
  unsigned_decimal s = JNum (dec_value s).
Proof.
  intros H Hs. unfold unsigned_decimal.
  assert (E : String.eqb s "Infinity" = false).
  { destruct s as [|c s]; [reflexivity|]. simpl in H.
    apply andb_true_iff in H. destruct H as [H _]. simpl.
    destruct (Ascii.eqb_spec c "I") as [->|]; [|reflexivity].
    vm_compute in H. discriminate H. }
  rewrite E, (take_digits_all 10 s H). cbn [fst snd]. rewrite append_empty.
  destruct s as [|c s]; [now elim Hs|].
  cbn. now rewrite Z.mul_1_r.
Qed.

Lemma radix_literal_zero p ds :
  radix_literal (String "0" (String p ds))
  = match radix_of p with
    | Some base =>
        Some (match take_digits base ds with
              | (EmptyString, _) => JNaN
              | (_, String _ _) => JNaN
              | (digits, EmptyString) => JNum (radix_value base digits 0)
              end)
    | None => None
    end.
Proof. reflexivity. Qed.

Lemma radix_literal_other c s : c <> "0"%char -> radix_literal (String c s) = None.
Proof. each_char c; intros H; solve [reflexivity | now elim H]. Qed.

Lemma radix_literal_digits s : all_digits 10 s = true -> radix_literal s = None.
Proof.
  destruct s as [|c s]; [reflexivity|].
  destruct (Ascii.eqb_spec c "0") as [->|Hc]; [|intros _; now apply radix_literal_other].
  destruct s as [|p ds]; [reflexivity|].
  rewrite radix_literal_zero. simpl. intros H.
  apply andb_true_iff in H. destruct H as [H _].
  now rewrite (is_digit_radix_of p H).
Qed.

Lemma signed_decimal_other c s :
  c <> "+"%char -> c <> "-"%char ->
  signed_decimal (String c s) = unsigned_decimal (String c s).
Proof. each_char c; intros H1 H2; solve [reflexivity | now elim H1 | now elim H2]. Qed.

Lemma signed_integer_other c s :
  c <> "+"%char -> c <> "-"%char ->
  signed_integer (String c s) = unsigned_integer (String c s).
Proof. each_char c; intros H1 H2; solve [reflexivity | now elim H1 | now elim H2]. Qed.

Lemma is_digit_not_sign base c :
  is_digit base c = true -> c <> "+"%char /\ c <> "-"%char.
Proof.
  intros H. split; intros ->; unfold is_digit in H; vm_compute in H; discriminate H.
Qed.

Lemma decimal_integer_plain s :
  has_underscore s = false ->
  decimal_integer s = option_map dec_value (whole_digits 10 s).
Proof.
  destruct s as [|c s]; [reflexivity|]. intros H.
  apply has_underscore_cons in H. destruct H as [H _]. revert H.
  each_char c; intros H; solve [reflexivity | vm_compute in H; discriminate H].
Qed.

Lemma unsigned_integer_zero p ds :
  unsigned_integer (String "0" (String p ds))
  = match radix_of p with
    | Some base => option_map (fun digits => radix_value base digits 0)
                              (whole_digits base ds)
    | None => decimal_integer (String "0" (String p ds))
    end.
Proof. reflexivity. Qed.

Lemma unsigned_integer_other c s :
  c <> "0"%char -> unsigned_integer (String c s) = decimal_integer (String c s).
Proof. each_char c; intros H; solve [reflexivity | now elim H]. Qed.

(** What the store's integer input accepts without underscores: a radix
    literal, or plain decimal digits. *)
Lemma unsigned_integer_plain u z :
  has_underscore u = false ->
  unsigned_integer u = Some z ->
  (exists p ds base,
      u = String "0" (String p ds) /\ radix_of p = Some base
      /\ all_digits base ds = true /\ ds <> EmptyString
      /\ z = radix_value base ds 0)
  \/ (all_digits 10 u = true /\ u <> EmptyString /\ z = dec_value u).
Proof.
  intros Hu.
  assert (Hdec : decimal_integer u = Some z ->
                 all_digits 10 u = true /\ u <> EmptyString /\ z = dec_value u).
  { rewrite (decimal_integer_plain u Hu).
    destruct (whole_digits 10 u) as [ds|] eqn:E; [|discriminate].
    destruct (whole_digits_plain 10 u ds Hu E) as [-> [Hne Hall]].
    intros [= <-]. auto. }
  destruct u as [|c u]; [discriminate|].
  destruct (Ascii.eqb_spec c "0") as [->|Hc].
  - destruct u as [|p ds]; [intros H; right; now apply Hdec|].
    rewrite unsigned_integer_zero.
    destruct (radix_of p) as [base|] eqn:Hp; [|intros H; right; now apply Hdec].
    apply has_underscore_cons in Hu. destruct Hu as [_ Hu].
    apply has_underscore_cons in Hu. destruct Hu as [_ Hu].
    destruct (whole_digits base ds) as [x|] eqn:E; [|discriminate].
    destruct (whole_digits_plain base ds x Hu E) as [-> [Hne Hall]].
    intros [= <-]. left. exists p, ds, base. auto.
  - rewrite (unsigned_integer_other c u Hc). intros H. right. now apply Hdec.
Qed.

Lemma unsigned_integer_digits s :
  all_digits 10 s = true -> s <> EmptyString ->
  unsigned_integer s = Some (dec_value s).
Proof.
  intros H Hs.
  assert (Hdec : decimal_integer s = Some (dec_value s)).
  { rewrite (decimal_integer_plain s (all_digits_underscore 10 s H)).
    now rewrite (whole_digits_all 10 s H Hs). }
  destruct s as [|c s]; [now elim Hs|].
  destruct (Ascii.eqb_spec c "0") as [->|Hc].
  - destruct s as [|p ds]; [reflexivity|].
    rewrite unsigned_integer_zero.
    simpl in H. apply andb_true_iff in H. destruct H as [H _].
    now rewrite (is_digit_radix_of p H).
  - now rewrite (unsigned_integer_other c s Hc).
Qed.

(** *** The decimal text of an id *)

Lemma string_of_uint_digits d : all_digits 10 (NilEmpty.string_of_uint d) = true.
Proof. induction d; simpl; auto. Qed.

Lemma string_of_uint_nonempty d :
  d <> Decimal.Nil -> NilEmpty.string_of_uint d <> EmptyString.
Proof. destruct d; simpl; congruence. Qed.

Lemma dec_value_string_of_uint d : dec_value (NilEmpty.string_of_uint d) = Z.of_uint d.
Proof. unfold dec_value. now rewrite NilEmpty.usu. Qed.

(** [to_string z] is the digits of [|z|], after a minus sign when [z] is
    negative. *)
Lemma to_string_shape z :
  exists ds,
    all_digits 10 ds = true /\ ds <> EmptyString /\ dec_value ds = Z.abs z
    /\ to_string z = if z <? 0 then String "-" ds else ds.
Proof.
  destruct z as [|p|p].
  - exists "0". repeat split; discriminate.
  - exists (NilEmpty.string_of_uint (Pos.to_uint p)).
    pose proof (Unsigned.to_uint_nonnil p) as Hn.
    split; [apply string_of_uint_digits|].
    split; [now apply string_of_uint_nonempty|].
    split.
    + rewrite dec_value_string_of_uint.
      change (Z.of_int (Z.to_int (Z.pos p)) = Z.pos p). apply DecimalZ.of_to.
    + unfold to_string. simpl. unfold NilZero.string_of_uint.
      destruct (Pos.to_uint p); [now elim Hn | reflexivity ..].
  - exists (NilEmpty.string_of_uint (Pos.to_uint p)).
    pose proof (Unsigned.to_uint_nonnil p) as Hn.
    split; [apply string_of_uint_digits|].
    split; [now apply string_of_uint_nonempty|].
    split.
    + rewrite dec_value_string_of_uint.
      change (Z.of_int (Z.to_int (Z.pos p)) = Z.pos p). apply DecimalZ.of_to.
    + unfold to_string. simpl. unfold NilZero.string_of_uint.
      destruct (Pos.to_uint p); [now elim Hn | reflexivity ..].
Qed.

Lemma to_string_solid z : all_solid (to_string z) = true.
Proof.
  destruct (to_string_shape z) as [ds [Hd [_ [_ ->]]]].
  destruct (z <? 0); simpl; now rewrite (all_digits_solid 10 ds Hd).
Qed.

Lemma int_of_to_string z :
  NilZero.int_of_string (to_string z) = Some (Z.to_int z).
Proof.
  unfold to_string. apply NilZero.isi.
  - destruct z; simpl; try discriminate.
    intros [= H]. now apply Unsigned.to_uint_nonnil in H.
  - destruct z; simpl; try discriminate.
    intros [= H]. now apply Unsigned.to_uint_nonnil in H.
Qed.

Lemma trim_to_string z : trim (to_string z) = to_string z.
Proof. apply trim_all_solid, to_string_solid. Qed.

Lemma to_string_nonempty z : to_string z <> EmptyString.
Proof.
  destruct (to_string_shape z) as [ds [_ [Hne [_ ->]]]].
  destruct (z <? 0); [discriminate | exact Hne].
Qed.

Lemma int8in_to_string z : int8in (to_string z) = Some z.
Proof.
  unfold int8in. rewrite trim_to_string.
  destruct (to_string_shape z) as [ds [Hd [Hne [Hv ->]]]].
  destruct (z <? 0) eqn:Hz.
  - cbn [signed_integer]. rewrite (unsigned_integer_digits ds Hd Hne), Hv.
    simpl. f_equal. apply Z.ltb_lt in Hz. lia.
  - destruct ds as [|c ds]; [now elim Hne|].
    assert (Hc : is_digit 10 c = true).
    { simpl in Hd. apply andb_true_iff in Hd. tauto. }
    destruct (is_digit_not_sign 10 c Hc) as [H1 H2].
    rewrite (signed_integer_other c ds H1 H2), (unsigned_integer_digits _ Hd Hne), Hv.
    f_equal. apply Z.ltb_ge in Hz. lia.
Qed.

Lemma Number_to_string z : Number (to_string z) = JNum z.
Proof.
  unfold Number. rewrite (js_trim_all_solid _ (to_string_solid z)).
  destruct (to_string_shape z) as [ds [Hd [Hne [Hv ->]]]].
  destruct (z <? 0) eqn:Hz.
  - cbn [radix_literal signed_decimal].
    rewrite (unsigned_decimal_digits ds Hd Hne), Hv.
    simpl. f_equal. apply Z.ltb_lt in Hz. lia.
  - destruct ds as [|c ds]; [now elim Hne|].
    assert (Hc : is_digit 10 c = true).
    { simpl in Hd. apply andb_true_iff in Hd. tauto. }
    destruct (is_digit_not_sign 10 c Hc) as [H1 H2].
    rewrite (radix_literal_digits _ Hd), (signed_decimal_other c ds H1 H2),
      (unsigned_decimal_digits _ Hd Hne), Hv.
    f_equal. apply Z.ltb_ge in Hz. lia.
Qed.

Lemma truthy_to_string z : truthy (to_string z) = true.
Proof.
  destruct (to_string z) eqn:E; [now apply to_string_nonempty in E | reflexivity].
Qed.

(** *** Where the two parsers agree *)

Lemma has_underscore_trim_left s :
  has_underscore s = false -> has_underscore (trim_left s) = false.
Proof.
  induction s as [|c s IH]; [reflexivity|]. intros H. cbn [trim_left].
  destruct (is_space c); [|exact H].
  apply has_underscore_cons in H. now apply IH.
Qed.

Lemma has_underscore_trim_right s :
  has_underscore s = false -> has_underscore (trim_right s) = false.
Proof.
  induction s as [|c s IH]; [reflexivity|]. intros H.
  apply has_underscore_cons in H. destruct H as [Hc Hs].
  cbn [trim_right]. specialize (IH Hs).
  destruct (trim_right s).
  - destruct (is_space c); [reflexivity|]. simpl. now rewrite Hc.
  - cbn [has_underscore] in *. now rewrite Hc, IH.
Qed.

Lemma has_underscore_trim s :
  has_underscore s = false -> has_underscore (trim s) = false.
Proof.
  intros H. now apply has_underscore_trim_right, has_underscore_trim_left.
Qed.

Lemma Number_trimmed p t :
  trim p = t -> all_solid t = true -> t <> EmptyString ->
  Number p = match radix_literal t with
             | Some x => x
             | None => signed_decimal t
             end.
Proof.
  intros Ht Hs Hne. unfold Number.
  rewrite (js_trim_solid p) by now rewrite Ht.
  rewrite Ht. destruct t; [now elim Hne | reflexivity].
Qed.

(** Text without underscores and without a sign before a radix prefix
    that the store's integer input reads as [z] is text that [Number]
    reads as [z]. *)
Lemma int8in_Number p z :
  int8in p = Some z ->
  has_underscore p = false ->
  signed_radix p = false ->
  Number p = JNum z.
Proof.
  unfold int8in, signed_radix. intros Hz Hu Hr.
  apply has_underscore_trim in Hu.
  destruct (trim p) as [|c t] eqn:Ht; [discriminate|].
  assert (Hsigned : forall z', (c = "+"%char \/ c = "-"%char) ->
            unsigned_integer t = Some z' ->
            all_digits 10 t = true /\ t <> EmptyString /\ z' = dec_value t).
  { intros z' Hc Hz'. apply has_underscore_cons in Hu. destruct Hu as [_ Hu].
    destruct (unsigned_integer_plain t z' Hu Hz')
      as [[q [ds [base [-> [Hq _]]]]]|H]; [|exact H].
    rewrite Hq in Hr. destruct Hc as [-> | ->]; discriminate Hr. }
  destruct (Ascii.eqb_spec c "+") as [->|Hplus];
    [|destruct (Ascii.eqb_spec c "-") as [->|Hminus]].
  - cbn [signed_integer] in Hz.
    destruct (Hsigned z (or_introl eq_refl) Hz) as [Hd [Hne ->]].
    rewrite (Number_trimmed p _ Ht); [|simpl; now rewrite (all_digits_solid 10 t Hd)
                                       |discriminate].
    cbn [radix_literal signed_decimal]. now apply unsigned_decimal_digits.
  - cbn [signed_integer] in Hz.
    destruct (unsigned_integer t) as [z'|] eqn:Hz'; [|discriminate].
    injection Hz as <-.
    destruct (Hsigned z' (or_intror eq_refl) eq_refl) as [Hd [Hne ->]].
    rewrite (Number_trimmed p _ Ht); [|simpl; now rewrite (all_digits_solid 10 t Hd)
                                       |discriminate].
    cbn [radix_literal signed_decimal].
    now rewrite (unsigned_decimal_digits t Hd Hne).
  - rewrite (signed_integer_other c t Hplus Hminus) in Hz.
    destruct (unsigned_integer_plain _ z Hu Hz)
      as [[q [ds [base [E [Hq [Hd [Hne ->]]]]]]]|[Hd [Hne ->]]].
    + injection E as -> ->.
      rewrite (Number_trimmed p _ Ht);
        [|simpl; now rewrite (radix_of_solid q base Hq), (all_digits_solid base ds Hd)
         |discriminate].
      rewrite radix_literal_zero, Hq, (take_digits_all base ds Hd).
      destruct ds; [now elim Hne | reflexivity].
    + rewrite (Number_trimmed p _ Ht); [|now apply (all_digits_solid 10)|discriminate].
      rewrite (radix_literal_digits _ Hd), (signed_decimal_other c t Hplus Hminus).
      now apply unsigned_decimal_digits.
Qed.

(** Text that [Number] does not read as an integer is, unless it has an
    underscore or a sign before a radix prefix, text the store's integer
    input rejects. *)
Lemma not_integer_rejected p :
  isInteger (Number p) = false ->
  has_underscore p = false ->
  signed_radix p = false ->
  int8in p = None.
Proof.
  intros Hn Hu Hr. destruct (int8in p) as [z|] eqn:Hz; [|reflexivity].
  rewrite (int8in_Number p z Hz Hu Hr) in Hn. discriminate Hn.
Qed.

(** *** Where they part *)

Lemma has_underscore_nonempty s : has_underscore s = true -> s <> EmptyString.
Proof. now destruct s. Qed.

Lemma take_digits_underscore base s :
  has_underscore s = true -> has_underscore (snd (take_digits base s)) = true.
Proof.
  induction s as [|c s IH]; [discriminate|]. intros H. cbn [take_digits].
  destruct (is_digit base c) eqn:Hc; [|exact H].
  cbn [snd]. apply IH. simpl in H.
  now rewrite (is_digit_not_underscore base c Hc) in H.
Qed.

Lemma take_digits_stops base s :
  has_underscore s = true ->
  exists a c r, take_digits base s = (a, String c r).
Proof.
  intros H. pose proof (take_digits_underscore base s H) as Hr.
  destruct (take_digits base s) as [a b]. cbn [snd] in Hr.
  destruct b as [|c r]; [discriminate Hr|]. now exists a, c, r.
Qed.

Lemma sign_not_underscore c s :
  (c = "+"%char \/ c = "-"%char) ->
  has_underscore (String c s) = has_underscore s.
Proof. now intros [-> | ->]. Qed.

Lemma exponent_underscore s : has_underscore s = true -> exponent s = None.
Proof.
  destruct s as [|c r]; [discriminate|]. intros H. unfold exponent.
  destruct (Nat.eqb (code c) 101 || Nat.eqb (code c) 69)%bool eqn:Hc; [|reflexivity].
  assert (Hr : has_underscore r = true).
  { simpl in H. destruct (Nat.eqb (code c) 95) eqn:E; [|exact H].
    apply Nat.eqb_eq in E. rewrite E in Hc. discriminate Hc. }
  assert (Hd : forall k d, has_underscore d = true ->
            match take_digits 10 d with
            | (EmptyString, _) => None
            | (x, EmptyString) => Some (k * dec_value x)
            | (_, String _ _) => None
            end = None).
  { intros k d Hu. destruct (take_digits_stops 10 d Hu) as [a [c' [r' ->]]].
    now destruct a. }
  destruct r as [|c0 d]; [discriminate Hr|].
  destruct (Ascii.eqb_spec c0 "+") as [->|Hp];
    [|destruct (Ascii.eqb_spec c0 "-") as [->|Hm]].
  - apply (Hd 1 d). now rewrite (sign_not_underscore "+" d) in Hr by auto.
  - apply (Hd (-1) d). now rewrite (sign_not_underscore "-" d) in Hr by auto.
  - replace (match String c0 d with
             | String "+" d0 => (1, d0)
             | String "-" d0 => (-1, d0)
             | _ => (1, String c0 d)
             end) with (1, String c0 d).
    + now apply (Hd 1).
    + clear - Hp Hm. revert Hp Hm.
      each_char c0; intros Hp Hm; solve [reflexivity | now elim Hp | now elim Hm].
Qed.

Lemma unsigned_decimal_underscore s :
  has_underscore s = true -> unsigned_decimal s = JNaN.
Proof.
  intros H. unfold unsigned_decimal.
  destruct (String.eqb_spec s "Infinity") as [->|_]; [discriminate H|].
  pose proof (take_digits_underscore 10 s H) as Hr.
  destruct (take_digits 10 s) as [i r1]. cbn [fst snd] in *.
  destruct r1 as [|c r]; [discriminate Hr|].
  destruct (Ascii.eqb_spec c ".") as [->|Hc].
  - pose proof (take_digits_underscore 10 r Hr) as Hr2.
    destruct (take_digits 10 r) as [f r2]. cbn [fst snd] in *.
    rewrite (exponent_underscore r2 Hr2). now destruct (i ++ f)%string.
  - replace (match String c r with
             | String "." r0 => take_digits 10 r0
             | _ => (EmptyString, String c r)
             end) with (EmptyString, String c r).
    + cbn [fst snd]. rewrite (exponent_underscore _ Hr).
      now destruct (i ++ EmptyString)%string.
    + clear - Hc. revert Hc. each_char c; intros Hc; solve [reflexivity | now elim Hc].
Qed.

Lemma signed_decimal_underscore s :
  has_underscore s = true -> signed_decimal s = JNaN.
Proof.
  destruct s as [|c s]; [discriminate|]. intros H.
  destruct (Ascii.eqb_spec c "+") as [->|Hp];
    [|destruct (Ascii.eqb_spec c "-") as [->|Hm]].
  - cbn [signed_decimal]. now apply unsigned_decimal_underscore.
  - cbn [signed_decimal]. now rewrite unsigned_decimal_underscore.
  - rewrite (signed_decimal_other c s Hp Hm). now apply unsigned_decimal_underscore.
Qed.

Lemma radix_of_not_underscore p base :
  radix_of p = Some base -> Nat.eqb (code p) 95 = false.
Proof.
  each_char p; intros H; solve [reflexivity | vm_compute in H; discriminate H].
Qed.

(** [Number] reads no text with an underscore. *)
Lemma parse_underscore t :
  has_underscore t = true ->
  match radix_literal t with
  | Some x => x
  | None => signed_decimal t
  end = JNaN.
Proof.
  intros H. destruct t as [|c t]; [discriminate|].
  destruct (Ascii.eqb_spec c "0") as [->|Hc];
    [|rewrite (radix_literal_other c t Hc); now apply signed_decimal_underscore].
  destruct t as [|p ds]; [discriminate H|].
  rewrite radix_literal_zero.
  destruct (radix_of p) as [base|] eqn:Hp; [|now apply signed_decimal_underscore].
  assert (Hds : has_underscore ds = true).
  { simpl in H. now rewrite (radix_of_not_underscore p base Hp) in H. }
  destruct (take_digits_stops base ds Hds) as [a [c' [r' ->]]].
  now destruct a.
Qed.

(** Nor a radix literal with a sign. *)
Lemma parse_signed_radix c p base rest :
  (c = "+"%char \/ c = "-"%char) -> radix_of p = Some base ->
  match radix_literal (String c (String "0" (String p rest))) with
  | Some x => x
  | None => signed_decimal (String c (String "0" (String p rest)))
  end = JNaN.
Proof.
  intros Hc Hp.
  assert (E : unsigned_decimal (String "0" (String p rest)) = JNaN).
  { revert Hp. each_char p; intros Hp;
      solve [reflexivity | vm_compute in Hp; discriminate Hp]. }
  destruct Hc as [-> | ->]; cbn [radix_literal signed_decimal]; now rewrite E.
Qed.

Lemma code_underscore_solid c : Nat.eqb (code c) 95 = true -> solid c = true.
Proof.
  each_char c; intros H; solve [reflexivity | vm_compute in H; discriminate H].
Qed.

Lemma grouped_digits_solid base s : forall ds,
  grouped_digits base s = Some (ds, EmptyString) -> all_solid s = true.
Proof.
  induction s as [|c s IH]; [reflexivity|]. intros ds. cbn [grouped_digits all_solid].
  destruct (is_digit base c) eqn:Hc.
  - destruct (grouped_digits base s) as [[ds' r]|] eqn:E; [|discriminate].
    intros [= <- ->]. now rewrite (is_digit_solid base c Hc), (IH ds').
  - destruct (Nat.eqb (code c) 95) eqn:Hu; [|discriminate].
    destruct s as [|c' s']; [discriminate|].
    destruct (is_digit base c'); [|discriminate].
    intros H. now rewrite (code_underscore_solid c Hu), (IH ds H).
Qed.

Lemma whole_digits_solid base s ds :
  whole_digits base s = Some ds -> all_solid s = true.
Proof.
  unfold whole_digits.
  destruct (grouped_digits base s) as [[a b]|] eqn:E; [|discriminate].
  destruct a; [discriminate|]. destruct b; [|discriminate].
  intros _. now apply (grouped_digits_solid base s _ E).
Qed.

Lemma decimal_integer_solid s z : decimal_integer s = Some z -> all_solid s = true.
Proof.
  intros H.
  assert (E : exists ds, whole_digits 10 s = Some ds).
  { destruct s as [|c s]; [discriminate H|]. revert H. unfold decimal_integer.
    destruct (whole_digits 10 (String c s)) as [ds|]; [now exists ds|].
    each_char c; discriminate. }
  destruct E as [ds E]. now apply (whole_digits_solid 10 s ds).
Qed.

Lemma unsigned_integer_solid s z : unsigned_integer s = Some z -> all_solid s = true.
Proof.
  destruct s as [|c s]; [discriminate|].
  destruct (Ascii.eqb_spec c "0") as [->|Hc].
  - destruct s as [|p ds]; [reflexivity|]. rewrite unsigned_integer_zero.
    destruct (radix_of p) as [base|] eqn:Hp; [|apply decimal_integer_solid].
    destruct (whole_digits base ds) as [x|] eqn:E; [|discriminate].
    intros _. cbn [all_solid].
    now rewrite (radix_of_solid p base Hp), (whole_digits_solid base ds x E).
  - rewrite (unsigned_integer_other c s Hc). apply decimal_integer_solid.
Qed.

Lemma signed_integer_solid s z : signed_integer s = Some z -> all_solid s = true.
Proof.
  destruct s as [|c s]; [discriminate|].
  destruct (Ascii.eqb_spec c "+") as [->|Hp];
    [|destruct (Ascii.eqb_spec c "-") as [->|Hm]].
  - cbn [signed_integer all_solid]. intros H.
    now rewrite (unsigned_integer_solid s z H).
  - cbn [signed_integer all_solid].
    destruct (unsigned_integer s) as [z'|] eqn:E; [|discriminate].
    intros _. now rewrite (unsigned_integer_solid s z' E).
  - rewrite (signed_integer_other c s Hp Hm). apply unsigned_integer_solid.
Qed.

Lemma has_underscore_trim_left_eq s : has_underscore (trim_left s) = has_underscore s.
Proof.
  induction s as [|c s IH]; [reflexivity|]. cbn [trim_left].
  destruct (is_space c) eqn:Hc; [|reflexivity]. rewrite IH. cbn [has_underscore].
  destruct (Nat.eqb (code c) 95) eqn:E; [|reflexivity].
  rewrite (solid_not_space c (code_underscore_solid c E)) in Hc. discriminate Hc.
Qed.

Lemma has_underscore_trim_right_eq s : has_underscore (trim_right s) = has_underscore s.
Proof.
  induction s as [|c s IH]; [reflexivity|]. cbn [trim_right has_underscore].
  rewrite <- IH. destruct (trim_right s) as [|c' t].
  - destruct (is_space c) eqn:Hc; [|reflexivity]. cbn [has_underscore].
    destruct (Nat.eqb (code c) 95) eqn:E; [|reflexivity].
    rewrite (solid_not_space c (code_underscore_solid c E)) in Hc. discriminate Hc.
  - reflexivity.
Qed.

Lemma has_underscore_trim_eq s : has_underscore (trim s) = has_underscore s.
Proof.
  unfold trim. now rewrite has_underscore_trim_right_eq, has_underscore_trim_left_eq.
Qed.

(** Text the store's integer input accepts and that has an underscore or
    a sign before a radix prefix is NaN for [Number]. *)
Lemma int8in_NaN p z :
  int8in p = Some z ->
  (has_underscore p || signed_radix p)%bool = true ->
  Number p = JNaN.
Proof.
  unfold int8in. intros Hz H.
  pose proof (signed_integer_solid _ _ Hz) as Hs.
  assert (Hne : trim p <> EmptyString) by (intros E; rewrite E in Hz; discriminate Hz).
  rewrite (Number_trimmed p (trim p) eq_refl Hs Hne).
  apply orb_true_iff in H. destruct H as [H|H].
  - apply parse_underscore. now rewrite has_underscore_trim_eq.
  - unfold signed_radix in H.
    destruct (trim p) as [|c [|c0 t2]]; try discriminate H.
    destruct (Ascii.eqb_spec c0 "0") as [->|Hc0].
    + destruct t2 as [|q rest]; [discriminate H|].
      apply andb_true_iff in H. destruct H as [Hc Hq].
      destruct (radix_of q) as [base|] eqn:Eq; [|discriminate Hq].
      apply (parse_signed_radix c q base rest); [|exact Eq].
      apply orb_true_iff in Hc. destruct Hc as [Hc|Hc]; apply Nat.eqb_eq in Hc.
      * left. clear - Hc. revert Hc.
        each_char c; intros Hc; solve [reflexivity | vm_compute in Hc; discriminate Hc].
      * right. clear - Hc. revert Hc.
        each_char c; intros Hc; solve [reflexivity | vm_compute in Hc; discriminate Hc].
    + exfalso. clear - H Hc0. revert H Hc0.
      each_char c0; intros H Hc0;
        solve [now elim Hc0 | destruct t2; vm_compute in H; discriminate H].
Qed.

(** What [Number] makes of text the store's integer input reads as [z]:
    [z], or NaN when the text has an underscore or a sign before a radix
    prefix. *)
Lemma int8in_Number_cases p z :
  int8in p = Some z ->
  Number p = if (has_underscore p || signed_radix p)%bool then JNaN else JNum z.
Proof.
  intros Hz. destruct (has_underscore p || signed_radix p)%bool eqn:H.
  - now apply (int8in_NaN p z).
  - apply orb_false_iff in H. destruct H as [Hu Hr]. now apply int8in_Number.
Qed.

(** *** An id written with an underscore *)

Lemma uint_of_string_digits s :
  all_digits 10 s = true -> exists u, NilEmpty.uint_of_string s = Some u.
Proof.
  induction s as [|c s IH]; [now exists Decimal.Nil|]. simpl. intros H.
  apply andb_true_iff in H. destruct H as [Hc Hs].
  destruct (IH Hs) as [u ->]. revert Hc.
  each_char c; intros Hc; solve [eexists; reflexivity | vm_compute in Hc; discriminate Hc].
Qed.

Lemma dec_value_leading_zero s :
  all_digits 10 s = true -> dec_value (String "0" s) = dec_value s.
Proof.
  intros H. destruct (uint_of_string_digits s H) as [u Hu].
  unfold dec_value. simpl. now rewrite Hu.
Qed.

(** The decimal text of an id that is not negative, written after [0_],
    is no number for [Number] and is that id for the store. *)
Lemma underscore_id z :
  0 <= z ->
  Number ("0_" ++ to_string z) = JNaN /\ int8in ("0_" ++ to_string z) = Some z.
Proof.
  intros Hz. destruct (to_string_shape z) as [ds [Hd [Hne [Hv ->]]]].
  replace (z <? 0) with false by (symmetry; apply Z.ltb_ge; lia).
  assert (Hs : all_solid ("0_" ++ ds) = true).
  { simpl. now apply (all_digits_solid 10). }
  split.
  - unfold Number. rewrite (js_trim_all_solid _ Hs). reflexivity.
  - unfold int8in. rewrite (trim_all_solid _ Hs).
    destruct ds as [|c ds]; [now elim Hne|].
    assert (Hc : is_digit 10 c = true).
    { simpl in Hd. apply andb_true_iff in Hd. tauto. }
    assert (G : grouped_digits 10 ("0_" ++ String c ds)
                = Some (String "0" (String c ds), EmptyString)).
    { change (grouped_digits 10 ("0_" ++ String c ds))
        with (match (if is_digit 10 c then grouped_digits 10 (String c ds) else None) with
              | Some (ds0, r) => Some (String "0" ds0, r)
              | None => None
              end).
      rewrite Hc, (grouped_digits_plain 10 _ (all_digits_underscore 10 _ Hd)).
      now rewrite (take_digits_all 10 _ Hd). }
    change (signed_integer ("0_" ++ String c ds))
      with (option_map dec_value (whole_digits 10 ("0_" ++ String c ds))).
    unfold whole_digits. rewrite G. cbn [option_map].
    rewrite (dec_value_leading_zero _ Hd), Hv. f_equal. lia.
Qed.

End IdentFacts.

(** ** What each handler does to the store *)

Lemma select_user_known s id :
  (List.length (Sql.select_user id s) =? 0)%nat = negb (known s id).
Proof.
  unfold Sql.select_user, known.
  induction (users s) as [|u l IH]; simpl; [reflexivity|].
  destruct (telegram_id u =? id); simpl; [reflexivity | exact IH].
Qed.

Lemma getOrCreateUser_db id un fn w :
  snd (getOrCreateUser id un fn w)
  = mkWorld (with_user id un fn (db w)) (snapshot w) (outbox w)
  /\ exists r, fst (getOrCreateUser id un fn w) = Returned r.
Proof.
  unfold getOrCreateUser, bind, query, with_user. simpl.
  rewrite select_user_known.
  destruct (known (db w) id); simpl.
  - split; [now destruct w | eauto].
  - split; [reflexivity | eauto].
Qed.

Ltac run_user id un fn w :=
  let Hdb := fresh "Hdb" in
  let Hret := fresh "Hret" in
  let r := fresh "r" in
  destruct (getOrCreateUser_db id un fn w) as [Hdb [r Hret]];
  destruct (getOrCreateUser id un fn w) as [o w1];
  simpl in Hdb, Hret; subst o w1.

(** A regular start, and a start with one's own link: only the sender's
    row is ensured, and the menu is sent. *)
Lemma on_start_plain msg p s :
  (match p with
   | Some ref => (truthy ref && Ident.strict_neq (Ident.Number ref) (from_id msg))%bool
   | None => false
   end) = false ->
  store_after (on_start msg p) s = with_sender msg s
  /\ sent (on_start msg p) s = [(ToChat (chat_id msg), WelcomeMenu)].
Proof.
  intros Hp. unfold store_after, sent, run, on_start, try_catch, bind.
  run_user (from_id msg) (from_username msg) (from_first_name msg) (fresh s).
  destruct p as [ref|]; [rewrite Hp|]; simpl; split; reflexivity.
Qed.

(** A start with somebody else's link. *)
Lemma on_start_referred msg A s :
  A <> from_id msg ->
  let s1 := with_sender msg s in
  let B := from_id msg in
  let fn := from_first_name msg in
  let c := ToChat (chat_id msg) in
  let a := ToParam (Ident.to_string A) in
  run (on_start msg (Some (Ident.to_string A))) s
  = (Returned tt,
     match hd_error (Sql.select_referral B s1) with
     | None =>
         mkWorld (Sql.insert_referral A B s1) None
           [(c, WelcomeReferred fn); (c, GroupLink); (a, ReferrerPending fn)]
     | Some r =>
         if is_active r
         then mkWorld s1 None [(c, AlreadyActiveMember fn)]
         else mkWorld (Sql.update_referrer A B s1) None
                [(c, WelcomeBackReferred fn); (c, GroupLink);
                 (a, ReferrerPendingReturning fn)]
     end).
Proof.
  intros HA. cbv zeta.
  unfold run, on_start, try_catch, bind.
  run_user (from_id msg) (from_username msg) (from_first_name msg) (fresh s).
  rewrite IdentFacts.truthy_to_string, IdentFacts.Number_to_string.
  simpl. replace (A =? from_id msg) with false by (symmetry; now apply Z.eqb_neq).
  simpl. unfold with_sender.
  destruct (hd_error (Sql.select_referral (from_id msg) _)) as [row|].
  - destruct (is_active row); simpl; [reflexivity|].
    unfold bind_int8. rewrite IdentFacts.int8in_to_string. reflexivity.
  - unfold bind_int8. rewrite IdentFacts.int8in_to_string. reflexivity.
Qed.

Lemma step_register_self msg s :
  step s (RegisterReferral (from_id msg) msg) = with_sender msg s.
Proof.
  unfold step, handle. apply on_start_plain.
  rewrite IdentFacts.Number_to_string. simpl.
  rewrite Z.eqb_refl. apply andb_false_r.
Qed.

Lemma step_register msg A s :
  A <> from_id msg ->
  step s (RegisterReferral A msg)
  = match hd_error (Sql.select_referral (from_id msg) (with_sender msg s)) with
    | None => Sql.insert_referral A (from_id msg) (with_sender msg s)
    | Some r =>
        if is_active r then with_sender msg s
        else Sql.update_referrer A (from_id msg) (with_sender msg s)
    end.
Proof.
  intros HA. unfold step, store_after, handle.
  rewrite (on_start_referred msg A s HA). cbv zeta. simpl.
  destruct (hd_error _) as [r|]; [destruct (is_active r)|]; reflexivity.
Qed.

Lemma on_new_chat_members_run B fn s :
  run (on_new_chat_members B fn) s
  = (Returned tt,
     match Sql.select_referrer B false s with
     | r :: _ =>
         mkWorld (Sql.update_count Sql.incr r (Sql.update_active true B s)) None
           [(ToChat r, JoinSuccess fn)]
     | [] => fresh s
     end).
Proof.
  unfold run, on_new_chat_members, try_catch, bind. simpl.
  destruct (Sql.select_referrer B false s); reflexivity.
Qed.

Lemma on_left_chat_member_run B fn s :
  run (on_left_chat_member B fn) s
  = (Returned tt,
     match Sql.select_referrer B true s with
     | r :: _ =>
         mkWorld (Sql.update_active false B (Sql.update_count Sql.decr_floor r s)) None
           [(ToChat r, LeftNotice fn)]
     | [] => fresh s
     end).
Proof.
  unfold run, on_left_chat_member, try_catch, bind. simpl.
  destruct (Sql.select_referrer B true s); reflexivity.
Qed.

Lemma step_joined B fn s :
  step s (OnMemberJoined B fn)
  = match Sql.select_referrer B false s with
    | r :: _ => Sql.update_count Sql.incr r (Sql.update_active true B s)
    | [] => s
    end.
Proof.
  unfold step, store_after, handle. rewrite on_new_chat_members_run.
  destruct (Sql.select_referrer B false s); reflexivity.
Qed.

Lemma step_left B fn s :
  step s (OnMemberLeft B fn)
  = match Sql.select_referrer B true s with
    | r :: _ => Sql.update_active false B (Sql.update_count Sql.decr_floor r s)
    | [] => s
    end.
Proof.
  unfold step, store_after, handle. rewrite on_left_chat_member_run.
  destruct (Sql.select_referrer B true s); reflexivity.
Qed.

(** The store after [/start], whatever the parameter. *)
Lemma on_start_store msg p s :
  store_after (on_start msg p) s
  = match p with
    | Some ref =>
        if (truthy ref && Ident.strict_neq (Ident.Number ref) (from_id msg))%bool then
          match hd_error (Sql.select_referral (from_id msg) (with_sender msg s)),
                Ident.int8in ref with
          | None, Some z => Sql.insert_referral z (from_id msg) (with_sender msg s)
          | Some r, Some z =>
              if is_active r then with_sender msg s
              else Sql.update_referrer z (from_id msg) (with_sender msg s)
          | Some r, None => with_sender msg s
          | None, None => with_sender msg s
          end
        else with_sender msg s
    | None => with_sender msg s
    end.
Proof.
  destruct p as [ref|]; [|now apply on_start_plain].
  destruct (truthy ref && Ident.strict_neq (Ident.Number ref) (from_id msg))%bool eqn:Hg;
    [|now apply on_start_plain].
  unfold store_after, run, on_start, try_catch, bind.
  run_user (from_id msg) (from_username msg) (from_first_name msg) (fresh s).
  rewrite Hg. simpl. unfold bind_int8, with_sender.
  destruct (hd_error _) as [row|]; [destruct (is_active row)|];
    destruct (Ident.int8in ref); reflexivity.
Qed.

(** ** Lists of rows *)

Lemma nodup_map_eq {A B} (f : A -> B) (l : list A) x y :
  NoDup (map f l) -> In x l -> In y l -> f x = f y -> x = y.
Proof.
  induction l as [|a l IH]; simpl; [tauto|].
  intros Hnd Hx Hy Hf. inversion Hnd as [|? ? Hnotin Hnd']; subst.
  destruct Hx as [->|Hx], Hy as [->|Hy]; auto.
  - exfalso. apply Hnotin. rewrite Hf. now apply in_map.
  - exfalso. apply Hnotin. rewrite <- Hf. now apply in_map.
Qed.

Lemma hd_filter_some {A} (p : A -> bool) l x :
  hd_error (filter p l) = Some x -> In x l /\ p x = true.
Proof.
  intros H. apply filter_In.
  destruct (filter p l) as [|y t] eqn:E; [discriminate|].
  injection H as ->. now left.
Qed.

Lemma hd_filter_none {A} (p : A -> bool) l :
  hd_error (filter p l) = None -> forall x, In x l -> p x = false.
Proof.
  intros H x Hx. destruct (p x) eqn:Hp; [|reflexivity].
  assert (Hin : In x (filter p l)) by (apply filter_In; auto).
  destruct (filter p l); [contradiction | discriminate].
Qed.

Lemma filter_map_same {A} (p : A -> bool) (f : A -> A) l :
  (forall x, In x l -> p (f x) = p x) ->
  List.length (filter p (map f l)) = List.length (filter p l).
Proof.
  induction l as [|a l IH]; simpl; [reflexivity|].
  intros H. rewrite (H a (or_introl eq_refl)).
  destruct (p a); simpl; rewrite IH; auto.
Qed.

Lemma map_id_on {A} (f : A -> A) l :
  (forall x, In x l -> f x = x) -> map f l = l.
Proof.
  induction l as [|a l IH]; simpl; [reflexivity|].
  intros H. rewrite (H a (or_introl eq_refl)), IH; auto.
Qed.

Lemma filter_none {A} (p : A -> bool) l :
  (forall x, In x l -> p x = false) -> filter p l = [].
Proof.
  induction l as [|a l IH]; simpl; [reflexivity|].
  intros H. rewrite (H a (or_introl eq_refl)). apply IH. intros; apply H; now right.
Qed.

(** ** Statements and the derived readings *)

Lemma known_In s U :
  known s U = true <-> exists u, In u (users s) /\ telegram_id u = U.
Proof.
  unfold known. rewrite existsb_exists.
  split; intros [u [Hu E]]; exists u; split; auto; now apply Z.eqb_eq.
Qed.

Lemma set_active_referred b B r : referred_id (Sql.set_active b B r) = referred_id r.
Proof. unfold Sql.set_active. now destruct (referred_id r =? B). Qed.

Lemma set_active_referrer b B r : referrer_id (Sql.set_active b B r) = referrer_id r.
Proof. unfold Sql.set_active. now destruct (referred_id r =? B). Qed.

Lemma set_referrer_referred A B r : referred_id (Sql.set_referrer A B r) = referred_id r.
Proof. unfold Sql.set_referrer. now destruct (referred_id r =? B). Qed.

Lemma set_referrer_active A B r : is_active (Sql.set_referrer A B r) = is_active r.
Proof. unfold Sql.set_referrer. now destruct (referred_id r =? B). Qed.

Lemma referred_update_referrer A B l :
  map referred_id (map (Sql.set_referrer A B) l) = map referred_id l.
Proof.
  induction l as [|r l IH]; simpl; [reflexivity|].
  now rewrite set_referrer_referred, IH.
Qed.

Lemma referred_update_active b B l :
  map referred_id (map (Sql.set_active b B) l) = map referred_id l.
Proof.
  induction l as [|r l IH]; simpl; [reflexivity|].
  now rewrite set_active_referred, IH.
Qed.

Lemma set_count_id f U u : telegram_id (Sql.set_count f U u) = telegram_id u.
Proof. unfold Sql.set_count. now destruct (telegram_id u =? U). Qed.

Lemma known_update_count f r s U : known (Sql.update_count f r s) U = known s U.
Proof.
  unfold known, Sql.update_count. simpl.
  induction (users s) as [|u l IH]; simpl; [reflexivity|].
  now rewrite set_count_id, IH.
Qed.

Lemma select_referrer_In B b s r t :
  Sql.select_referrer B b s = r :: t ->
  exists x, In x (referrals s) /\ referred_id x = B /\ is_active x = b
            /\ referrer_id x = r.
Proof.
  unfold Sql.select_referrer. intros H.
  destruct (filter _ (referrals s)) as [|x l] eqn:E; [discriminate|].
  injection H as Hr _.
  assert (Hin : In x (filter (fun r0 => (referred_id r0 =? B) && Bool.eqb (is_active r0) b)%bool
                             (referrals s))) by (rewrite E; now left).
  apply filter_In in Hin. destruct Hin as [Hin Hp].
  apply andb_true_iff in Hp. destruct Hp as [H1 H2].
  exists x. repeat split; auto; [now apply Z.eqb_eq | now apply Bool.eqb_prop].
Qed.

(** Switching the one row of a referred user changes one referrer's
    number of active rows by one. *)
Lemma activate_count (rs : list referral_row) B U x :
  NoDup (map referred_id rs) -> In x rs -> referred_id x = B ->
  is_active x = false ->
  List.length (filter (active_for U) (map (Sql.set_active true B) rs))
  = (List.length (filter (active_for U) rs)
     + (if active_for U (Sql.set_active true B x) then 1 else 0))%nat.
Proof.
  induction rs as [|h rs IH]; simpl; [tauto|].
  intros Hnd Hin HB Hx. inversion Hnd as [|? ? Hnotin Hnd']; subst.
  destruct Hin as [->|Hin].
  - rewrite map_id_on.
    + assert (Hf : active_for U x = false)
        by (unfold active_for; rewrite Hx; apply andb_false_r).
      rewrite Hf.
      destruct (active_for U (Sql.set_active true (referred_id x) x)); simpl; lia.
    + intros y Hy. unfold Sql.set_active.
      destruct (referred_id y =? referred_id x) eqn:E; [|reflexivity].
      exfalso. apply Hnotin. apply Z.eqb_eq in E. rewrite <- E. now apply in_map.
  - assert (Hh : (referred_id h =? referred_id x) = false).
    { apply Z.eqb_neq. intros E. apply Hnotin. rewrite E. now apply in_map. }
    unfold Sql.set_active at 1. rewrite Hh.
    destruct (active_for U h); simpl;
      rewrite (IH Hnd' Hin eq_refl Hx); reflexivity.
Qed.

Lemma deactivate_count (rs : list referral_row) B U x :
  NoDup (map referred_id rs) -> In x rs -> referred_id x = B ->
  is_active x = true ->
  (List.length (filter (active_for U) (map (Sql.set_active false B) rs))
   + (if active_for U x then 1 else 0))%nat
  = List.length (filter (active_for U) rs).
Proof.
  induction rs as [|h rs IH]; simpl; [tauto|].
  intros Hnd Hin HB Hx. inversion Hnd as [|? ? Hnotin Hnd']; subst.
  destruct Hin as [->|Hin].
  - rewrite map_id_on.
    + assert (Hf : active_for U (Sql.set_active false (referred_id x) x) = false)
        by (unfold active_for, Sql.set_active; rewrite Z.eqb_refl; apply andb_false_r).
      rewrite Hf.
      destruct (active_for U x); simpl; lia.
    + intros y Hy. unfold Sql.set_active.
      destruct (referred_id y =? referred_id x) eqn:E; [|reflexivity].
      exfalso. apply Hnotin. apply Z.eqb_eq in E. rewrite <- E. now apply in_map.
  - assert (Hh : (referred_id h =? referred_id x) = false).
    { apply Z.eqb_neq. intros E. apply Hnotin. rewrite E. now apply in_map. }
    unfold Sql.set_active at 1. rewrite Hh.
    destruct (active_for U h); simpl;
      rewrite <- (IH Hnd' Hin eq_refl Hx); reflexivity.
Qed.

(** ** Every operation keeps the tables consistent for a user *)

Lemma unknown_no_active s U :
  consistent U s -> known s U = false -> active_referrals s U = 0.
Proof.
  intros [_ Hk _] HU. unfold active_referrals.
  rewrite filter_none; [reflexivity|].
  intros r Hr. unfold active_for.
  destruct (referrer_id r =? U) eqn:E; [|reflexivity].
  destruct (is_active r) eqn:Ha; [|reflexivity].
  apply Z.eqb_eq in E. specialize (Hk r Hr Ha E). congruence.
Qed.

Lemma known_with_user id un fn s U :
  known s U = true -> known (with_user id un fn s) U = true.
Proof.
  intros H. unfold with_user. destruct (known s id); [assumption|].
  unfold known in *. simpl. rewrite existsb_app, H. reflexivity.
Qed.

Lemma referrals_with_user id un fn s :
  referrals (with_user id un fn s) = referrals s.
Proof. unfold with_user. now destruct (known s id). Qed.

Lemma with_user_store id un fn s :
  with_user id un fn s = mkStore (users (with_user id un fn s)) (referrals s).
Proof. unfold with_user. destruct (known s id); now destruct s. Qed.

Lemma with_user_consistent U id un fn s :
  consistent U s -> consistent U (with_user id un fn s).
Proof.
  intros Hc. unfold with_user. destruct (known s id) eqn:Hk; [assumption|].
  pose proof (unknown_no_active s U Hc) as H0.
  destruct Hc as [Hnd Hkn Hcnt]. constructor; simpl.
  - assumption.
  - intros r Hr Ha E. unfold known. simpl. rewrite existsb_app.
    specialize (Hkn r Hr Ha E). unfold known in Hkn. now rewrite Hkn.
  - intros u Hu E. apply in_app_or in Hu. destruct Hu as [Hu|[<-|[]]].
    + now apply Hcnt.
    + simpl in *. subst id. symmetry. now apply H0.
Qed.

Lemma insert_referral_consistent U A B s :
  consistent U s ->
  hd_error (Sql.select_referral B s) = None ->
  consistent U (Sql.insert_referral A B s).
Proof.
  intros [Hnd Hkn Hcnt] Hnone.
  pose proof (hd_filter_none _ _ Hnone) as Hno.
  constructor; simpl.
  - rewrite map_app. simpl. apply NoDup_app; [assumption | repeat constructor; simpl; tauto |].
    intros b Hb [<-|[]]. apply in_map_iff in Hb. destruct Hb as [r [E Hr]].
    specialize (Hno r Hr). simpl in Hno. apply Z.eqb_neq in Hno. contradiction.
  - intros r Hr Ha. apply in_app_or in Hr.
    destruct Hr as [Hr|[<-|[]]]; [now apply Hkn | discriminate].
  - intros u Hu E. rewrite (Hcnt u Hu E). unfold active_referrals. simpl.
    rewrite filter_app, length_app.
    assert (Hf : active_for U (mkReferral A B false) = false)
      by (unfold active_for; apply andb_false_r).
    simpl. rewrite Hf. simpl. lia.
Qed.

Lemma update_referrer_consistent U A B s r :
  consistent U s ->
  hd_error (Sql.select_referral B s) = Some r -> is_active r = false ->
  consistent U (Sql.update_referrer A B s).
Proof.
  intros [Hnd Hkn Hcnt] Hsome Hr.
  apply hd_filter_some in Hsome. destruct Hsome as [Hin HB]. apply Z.eqb_eq in HB.
  assert (Hall : forall x, In x (referrals s) -> referred_id x = B -> is_active x = false).
  { intros x Hx E. rewrite <- HB in E.
    now rewrite (nodup_map_eq referred_id _ x r Hnd Hx Hin E). }
  constructor; simpl.
  - now rewrite referred_update_referrer.
  - intros x Hx Ha. apply in_map_iff in Hx. destruct Hx as [y [<- Hy]].
    rewrite set_referrer_active in Ha.
    unfold Sql.set_referrer. destruct (referred_id y =? B) eqn:E.
    + apply Z.eqb_eq in E. rewrite (Hall y Hy E) in Ha. discriminate.
    + intros HU. exact (Hkn y Hy Ha HU).
  - intros u Hu E. rewrite (Hcnt u Hu E). unfold active_referrals. simpl.
    f_equal. symmetry. apply filter_map_same.
    intros x Hx. unfold active_for. rewrite set_referrer_active.
    unfold Sql.set_referrer. destruct (referred_id x =? B) eqn:E'; [|reflexivity].
    simpl. apply Z.eqb_eq in E'. rewrite (Hall x Hx E'). now rewrite !andb_false_r.
Qed.

Lemma joined_consistent U B r t s :
  consistent U s -> Sql.select_referrer B false s = r :: t ->
  (negb (r =? U) || known s U)%bool = true ->
  consistent U (Sql.update_count Sql.incr r (Sql.update_active true B s)).
Proof.
  intros [Hnd Hkn Hcnt] Hsel Hknown.
  apply select_referrer_In in Hsel. destruct Hsel as [x [Hx [HB [Hact Hr]]]].
  constructor; simpl.
  - now rewrite referred_update_active.
  - intros y Hy Ha HU. apply in_map_iff in Hy. destruct Hy as [z [<- Hz]].
    rewrite set_active_referrer in HU.
    change (known (Sql.update_count Sql.incr r (Sql.update_active true B s)) U = true).
    rewrite known_update_count.
    change (known s U = true).
    destruct (referred_id z =? B) eqn:E.
    + apply Z.eqb_eq in E. rewrite <- HB in E.
      rewrite (nodup_map_eq referred_id _ z x Hnd Hz Hx E) in HU.
      rewrite Hr in HU. rewrite HU, Z.eqb_refl in Hknown. exact Hknown.
    + apply (Hkn z Hz); [|exact HU]. unfold Sql.set_active in Ha. now rewrite E in Ha.
  - intros u Hu E. apply in_map_iff in Hu. destruct Hu as [v [<- Hv]].
    rewrite set_count_id in E. unfold active_referrals. simpl.
    rewrite (activate_count _ B U x Hnd Hx HB Hact).
    specialize (Hcnt v Hv E). unfold active_referrals in Hcnt.
    assert (Hf : active_for U (Sql.set_active true B x) = (telegram_id v =? r)).
    { unfold active_for, Sql.set_active. rewrite <- HB, Z.eqb_refl. simpl.
      rewrite andb_true_r, Hr, E. apply Z.eqb_sym. }
    rewrite Hf. unfold Sql.set_count.
    destruct (telegram_id v =? r); simpl; unfold Sql.incr; lia.
Qed.

Lemma left_consistent U B r t s :
  consistent U s -> Sql.select_referrer B true s = r :: t ->
  consistent U (Sql.update_active false B (Sql.update_count Sql.decr_floor r s)).
Proof.
  intros [Hnd Hkn Hcnt] Hsel.
  apply select_referrer_In in Hsel. destruct Hsel as [x [Hx [HB [Hact Hr]]]].
  constructor; simpl.
  - now rewrite referred_update_active.
  - intros y Hy Ha HU. apply in_map_iff in Hy. destruct Hy as [z [<- Hz]].
    rewrite set_active_referrer in HU.
    change (known (Sql.update_count Sql.decr_floor r s) U = true).
    rewrite known_update_count.
    apply (Hkn z Hz); [|exact HU]. unfold Sql.set_active in Ha.
    destruct (referred_id z =? B); [discriminate | exact Ha].
  - intros u Hu E. apply in_map_iff in Hu. destruct Hu as [v [<- Hv]].
    rewrite set_count_id in E. unfold active_referrals. simpl.
    pose proof (deactivate_count _ B U x Hnd Hx HB Hact) as Hd.
    specialize (Hcnt v Hv E). unfold active_referrals in Hcnt.
    assert (Hf : active_for U x = (telegram_id v =? r)).
    { unfold active_for. rewrite Hact, andb_true_r, Hr, E. apply Z.eqb_sym. }
    rewrite Hf in Hd. unfold Sql.set_count.
    destruct (telegram_id v =? r); simpl; unfold Sql.decr_floor; lia.
Qed.

Lemma step_consistent U s o :
  consistent U s -> credited_present U s o = true -> consistent U (step s o).
Proof.
  intros Hc Hp. destruct o as [A msg|B fn|B fn].
  - destruct (Z.eq_dec A (from_id msg)) as [->|HA].
    + rewrite step_register_self. now apply with_user_consistent.
    + rewrite (step_register msg A s HA).
      pose proof (with_user_consistent U (from_id msg) (from_username msg)
                    (from_first_name msg) s Hc) as Hc1.
      fold (with_sender msg s) in Hc1.
      destruct (hd_error (Sql.select_referral (from_id msg) (with_sender msg s)))
        as [r|] eqn:Hsel.
      * destruct (is_active r) eqn:Hr; [assumption|].
        eapply update_referrer_consistent; eassumption.
      * now apply insert_referral_consistent.
  - rewrite step_joined. simpl in Hp.
    destruct (Sql.select_referrer B false s) as [|r t] eqn:Hsel; [assumption|].
    eapply joined_consistent; eassumption.
  - rewrite step_left.
    destruct (Sql.select_referrer B true s) as [|r t] eqn:Hsel; [assumption|].
    eapply left_consistent; eassumption.
Qed.

Lemma empty_consistent U : consistent U empty_store.
Proof. constructor; simpl; [constructor | tauto | tauto]. Qed.

Lemma steps_consistent U ops : forall s,
  consistent U s -> always_present U s ops = true -> consistent U (steps s ops).
Proof.
  induction ops as [|o ops IH]; simpl; intros s Hc Hp; [assumption|].
  apply andb_true_iff in Hp. destruct Hp as [Ho Hrest].
  apply IH; [now apply step_consistent | assumption].
Qed.

Lemma count_of_In s U c :
  count_of s U = Some c ->
  exists u, In u (users s) /\ telegram_id u = U /\ referral_count u = c.
Proof.
  unfold count_of, Sql.select_user. intros H.
  destruct (hd_error _) as [u|] eqn:E; [|discriminate].
  injection H as <-. apply hd_filter_some in E. destruct E as [Hu HU].
  exists u. repeat split; auto. now apply Z.eqb_eq.
Qed.

(** ** Reading counts after a statement *)

Lemma count_of_update_count f r s U :
  count_of (Sql.update_count f r s) U
  = if U =? r then option_map f (count_of s U) else count_of s U.
Proof.
  unfold count_of, Sql.update_count, Sql.select_user. simpl.
  induction (users s) as [|u l IH]; simpl.
  - now destruct (U =? r).
  - rewrite set_count_id. destruct (telegram_id u =? U) eqn:E; simpl.
    + apply Z.eqb_eq in E. subst U. unfold Sql.set_count.
      rewrite (Z.eqb_sym (telegram_id u) r).
      destruct (r =? telegram_id u); reflexivity.
    + exact IH.
Qed.

Lemma count_of_update_active b B s U :
  count_of (Sql.update_active b B s) U = count_of s U.
Proof. reflexivity. Qed.

Lemma count_of_known s U : known s U = true <-> exists c, count_of s U = Some c.
Proof.
  unfold known, count_of, Sql.select_user.
  induction (users s) as [|u l IH]; simpl.
  - split; [discriminate | intros [c H]; discriminate].
  - destruct (telegram_id u =? U); simpl; [|exact IH].
    split; eauto.
Qed.

Lemma count_of_with_present id un fn s U c :
  count_of s U = Some c -> count_of (with_user id un fn s) U = Some c.
Proof.
  intros H. unfold with_user. destruct (known s id); [assumption|].
  unfold count_of, Sql.select_user, Sql.insert_user in *. simpl.
  rewrite filter_app.
  destruct (filter (fun u => telegram_id u =? U) (users s)); [discriminate | exact H].
Qed.

(** ** A referred user's row at the end of the table *)

Lemma no_row_select B s : Sql.select_referral B s = [] <-> no_row B (referrals s).
Proof.
  unfold Sql.select_referral, no_row. split.
  - intros H. apply hd_filter_none. now rewrite H.
  - apply filter_none.
Qed.

Section Tail.

Variables (B : Z) (rs : list referral_row).
Hypothesis Hrs : no_row B rs.

Lemma select_referral_tail us x :
  referred_id x = B -> Sql.select_referral B (mkStore us (rs ++ [x])) = [x].
Proof.
  intros Hx. unfold Sql.select_referral. simpl.
  rewrite filter_app, (filter_none _ rs Hrs). simpl.
  now rewrite Hx, Z.eqb_refl.
Qed.

Lemma select_referrer_tail us R a b :
  Sql.select_referrer B b (mkStore us (rs ++ [mkReferral R B a]))
  = if Bool.eqb a b then [R] else [].
Proof.
  unfold Sql.select_referrer. simpl.
  rewrite filter_app, filter_none.
  - simpl. rewrite Z.eqb_refl. simpl. now destruct (Bool.eqb a b).
  - intros r Hr. now rewrite (Hrs r Hr).
Qed.

Lemma set_active_tail R a b :
  map (Sql.set_active b B) (rs ++ [mkReferral R B a]) = rs ++ [mkReferral R B b].
Proof.
  rewrite map_app, map_id_on.
  - simpl. unfold Sql.set_active. simpl. now rewrite Z.eqb_refl.
  - intros r Hr. unfold Sql.set_active. now rewrite (Hrs r Hr).
Qed.

Lemma set_referrer_tail R C a :
  map (Sql.set_referrer C B) (rs ++ [mkReferral R B a]) = rs ++ [mkReferral C B a].
Proof.
  rewrite map_app, map_id_on.
  - simpl. unfold Sql.set_referrer. simpl. now rewrite Z.eqb_refl.
  - intros r Hr. unfold Sql.set_referrer. now rewrite (Hrs r Hr).
Qed.

Lemma joined_tail us R fn :
  step (mkStore us (rs ++ [mkReferral R B false])) (OnMemberJoined B fn)
  = mkStore (map (Sql.set_count Sql.incr R) us) (rs ++ [mkReferral R B true]).
Proof.
  rewrite step_joined, select_referrer_tail. simpl.
  unfold Sql.update_count, Sql.update_active. simpl. now rewrite set_active_tail.
Qed.

Lemma left_tail us R fn :
  step (mkStore us (rs ++ [mkReferral R B true])) (OnMemberLeft B fn)
  = mkStore (map (Sql.set_count Sql.decr_floor R) us) (rs ++ [mkReferral R B false]).
Proof.
  rewrite step_left, select_referrer_tail. simpl.
  unfold Sql.update_count, Sql.update_active. simpl. now rewrite set_active_tail.
Qed.

Lemma register_new us A msg :
  from_id msg = B -> A <> B ->
  step (mkStore us rs) (RegisterReferral A msg)
  = mkStore (users (with_sender msg (mkStore us rs))) (rs ++ [mkReferral A B false]).
Proof.
  intros HB HA. rewrite <- HB in HA. rewrite (step_register msg A _ HA), HB.
  assert (E : Sql.select_referral B (with_sender msg (mkStore us rs)) = []).
  { apply no_row_select. unfold with_sender. now rewrite referrals_with_user. }
  rewrite E. simpl. unfold Sql.insert_referral, with_sender.
  now rewrite referrals_with_user.
Qed.

Lemma register_pending us R A msg :
  from_id msg = B -> A <> B ->
  step (mkStore us (rs ++ [mkReferral R B false])) (RegisterReferral A msg)
  = mkStore (users (with_sender msg (mkStore us (rs ++ [mkReferral R B false]))))
            (rs ++ [mkReferral A B false]).
Proof.
  intros HB HA. rewrite <- HB in HA. rewrite (step_register msg A _ HA), HB.
  set (s1 := with_sender msg _).
  assert (E : s1 = mkStore (users s1) (rs ++ [mkReferral R B false])).
  { unfold s1, with_sender. apply with_user_store. }
  assert (Hsel : Sql.select_referral B s1 = [mkReferral R B false]).
  { rewrite E. now apply select_referral_tail. }
  rewrite Hsel. simpl. unfold Sql.update_referrer. rewrite E at 2. simpl.
  now rewrite set_referrer_tail.
Qed.

End Tail.

(** ** The count invariant (C1) *)

(** C1 fails in the code at the run where user 2 registers with the link
    of user 1, who has no row in [users], and joins the group: the join
    handler marks the referral active, its increment updates no row, and
    it still tells user 1 that their count has increased.  When user 1
    later starts the bot (here with user 2's link) their row is created
    with count 0, while one active referral row names them as referrer. *)
Theorem count_drifts_for_late_referrer :
  let ann := private 1 None "Ann" in
  let bob := private 2 None "Bob" in
  let s1 := step empty_store (RegisterReferral 1 bob) in
  let s2 := step s1 (OnMemberJoined 2 "Bob") in
  let s3 := step s2 (RegisterReferral 2 ann) in
  sent (on_new_chat_members 2 "Bob") s1 = [(ToChat 1, JoinSuccess "Bob")]
  /\ count_of s2 1 = None /\ active_referrals s2 1 = 1
  /\ s3 = steps empty_store
            [RegisterReferral 1 bob; OnMemberJoined 2 "Bob"; RegisterReferral 2 ann]
  /\ count_of s3 1 = Some 0 /\ active_referrals s3 1 = 1.
Proof. vm_compute. repeat split; reflexivity. Qed.

(** ** Scenarios (C2, C3, C5, C10) *)

Lemma count_of_map_count f r us rs rs' U :
  count_of (mkStore (map (Sql.set_count f r) us) rs) U
  = if U =? r then option_map f (count_of (mkStore us rs') U)
    else count_of (mkStore us rs') U.
Proof. exact (count_of_update_count f r (mkStore us rs') U). Qed.

Lemma count_of_sender msg us rs rs' U c :
  count_of (mkStore us rs) U = Some c ->
  count_of (mkStore (users (with_sender msg (mkStore us rs))) rs') U = Some c.
Proof.
  intros H.
  apply (count_of_with_present (from_id msg) (from_username msg) (from_first_name msg)) in H.
  exact H.
Qed.

(** C2: for distinct A and B, A having a row with count [c] (0 in the
    claim) and B having no referral row, RegisterReferral(A,B);
    OnMemberJoined(B); OnMemberLeft(B); OnMemberJoined(B) gives A the
    count [c + 1] after the first join, [c] after the leave and [c + 1]
    after the re-join: 1, 0 and 1 for a referrer who starts at 0. *)
Theorem join_leave_cycle s A msg c fn1 fn2 fn3 :
  A <> from_id msg ->
  count_of s A = Some c -> 0 <= c ->
  Sql.select_referral (from_id msg) s = [] ->
  let B := from_id msg in
  let s1 := step (step s (RegisterReferral A msg)) (OnMemberJoined B fn1) in
  let s2 := step s1 (OnMemberLeft B fn2) in
  let s3 := step s2 (OnMemberJoined B fn3) in
  count_of s1 A = Some (c + 1)
  /\ count_of s2 A = Some c
  /\ count_of s3 A = Some (c + 1).
Proof.
  intros HA Hc Hpos Hnone. cbv zeta.
  apply no_row_select in Hnone. destruct s as [us rs]. simpl in Hnone.
  rewrite (register_new _ rs Hnone us A msg eq_refl HA).
  rewrite (joined_tail _ rs Hnone).
  rewrite (left_tail _ rs Hnone).
  rewrite (joined_tail _ rs Hnone).
  rewrite !(count_of_map_count _ _ _ _ rs), Z.eqb_refl.
  rewrite (count_of_sender msg us rs rs A c Hc). simpl.
  unfold Sql.incr, Sql.decr_floor.
  repeat split; f_equal; lia.
Qed.

Lemma join_leave_cycle_witness :
  let ann := mkUser 1 None "Ann" 0 in
  let bob := private 2 None "Bob" in
  let s := mkStore [ann; mkUser 2 None "Bob" 0] [] in
  let s1 := step (step s (RegisterReferral 1 bob)) (OnMemberJoined 2 "Bob") in
  let s2 := step s1 (OnMemberLeft 2 "Bob") in
  let s3 := step s2 (OnMemberJoined 2 "Bob") in
  count_of s1 1 = Some 1 /\ count_of s2 1 = Some 0 /\ count_of s3 1 = Some 1.
Proof.
  cbv zeta.
  apply (join_leave_cycle
           (mkStore [mkUser 1 None "Ann" 0; mkUser 2 None "Bob" 0] [])
           1 (private 2 None "Bob") 0 "Bob" "Bob" "Bob");
    [simpl; lia | reflexivity | lia | reflexivity].
Defined.

(** C3: for distinct A, B and C, A and C having rows with counts [a] and
    [c] (0 and 0 in the claim) and B having no referral row, after
    RegisterReferral(A,B); OnMemberJoined(B); OnMemberLeft(B) the one row
    of B is inactive; RegisterReferral(C,B) makes C its referrer, and the
    next OnMemberJoined(B) activates it, gives C the count [c + 1] and
    leaves A at [a]. *)
Theorem reassignment_credits_new_referrer s A C msg a c fn1 fn2 fn3 :
  A <> from_id msg -> C <> from_id msg -> A <> C ->
  count_of s A = Some a -> 0 <= a -> count_of s C = Some c ->
  Sql.select_referral (from_id msg) s = [] ->
  let B := from_id msg in
  let s2 := steps s [RegisterReferral A msg; OnMemberJoined B fn1; OnMemberLeft B fn2] in
  let s3 := step s2 (RegisterReferral C msg) in
  let s4 := step s3 (OnMemberJoined B fn3) in
  Sql.select_referral B s2 = [mkReferral A B false]
  /\ Sql.select_referral B s3 = [mkReferral C B false]
  /\ Sql.select_referral B s4 = [mkReferral C B true]
  /\ count_of s4 C = Some (c + 1)
  /\ count_of s4 A = Some a.
Proof.
  intros HA HC HAC Ha Hpos Hc Hnone. cbv zeta. unfold steps. simpl fold_left.
  apply no_row_select in Hnone. destruct s as [us rs]. simpl in Hnone.
  rewrite (register_new _ rs Hnone us A msg eq_refl HA).
  rewrite (joined_tail _ rs Hnone).
  rewrite (left_tail _ rs Hnone).
  rewrite (register_pending _ rs Hnone _ A C msg eq_refl HC).
  rewrite (joined_tail _ rs Hnone).
  rewrite !(select_referral_tail _ rs Hnone) by reflexivity.
  do 3 (split; [reflexivity|]).
  set (us1 := users (with_sender msg (mkStore us rs))).
  set (us2 := map (Sql.set_count Sql.decr_floor A) (map (Sql.set_count Sql.incr A) us1)).
  assert (H2 : forall U x, count_of (mkStore us rs) U = Some x -> 0 <= x ->
                           count_of (mkStore us2 rs) U = Some x).
  { intros U x HU Hx. unfold us2, us1.
    rewrite !(count_of_map_count _ _ _ _ rs).
    rewrite (count_of_sender msg us rs rs U x HU).
    destruct (U =? A); simpl; [|reflexivity].
    unfold Sql.incr, Sql.decr_floor. f_equal. lia. }
  assert (H2' : forall U x, U <> A -> count_of (mkStore us rs) U = Some x ->
                            count_of (mkStore us2 rs) U = Some x).
  { intros U x HU Hx. unfold us2, us1.
    rewrite !(count_of_map_count _ _ _ _ rs).
    rewrite (count_of_sender msg us rs rs U x Hx).
    apply Z.eqb_neq in HU. now rewrite HU. }
  split.
  - rewrite (count_of_map_count _ _ _ _ rs), Z.eqb_refl.
    rewrite (count_of_sender msg us2 _ rs C c); [reflexivity|].
    apply (H2' C c); [congruence | exact Hc].
  - rewrite (count_of_map_count _ _ _ _ rs).
    replace (A =? C) with false by (symmetry; now apply Z.eqb_neq).
    apply (count_of_sender msg us2 _ rs A a). now apply H2.
Qed.

Lemma reassignment_credits_new_referrer_witness :
  let bob := private 2 None "Bob" in
  let s := mkStore [mkUser 1 None "Ann" 0; mkUser 2 None "Bob" 0; mkUser 3 None "Cyd" 0] [] in
  let s2 := steps s [RegisterReferral 1 bob; OnMemberJoined 2 "Bob"; OnMemberLeft 2 "Bob"] in
  let s3 := step s2 (RegisterReferral 3 bob) in
  let s4 := step s3 (OnMemberJoined 2 "Bob") in
  Sql.select_referral 2 s2 = [mkReferral 1 2 false]
  /\ Sql.select_referral 2 s3 = [mkReferral 3 2 false]
  /\ Sql.select_referral 2 s4 = [mkReferral 3 2 true]
  /\ count_of s4 3 = Some 1
  /\ count_of s4 1 = Some 0.
Proof.
  cbv zeta.
  apply (reassignment_credits_new_referrer
           (mkStore [mkUser 1 None "Ann" 0; mkUser 2 None "Bob" 0; mkUser 3 None "Cyd" 0] [])
           1 3 (private 2 None "Bob") 0 0 "Bob" "Bob" "Bob");
    simpl; solve [lia | reflexivity].
Defined.

(** ** Self-referral (C4) *)


(** ** Registering twice (C5) *)

(** C5: for distinct A and B with no referral row for B, after two
    RegisterReferral(A, B) in a row the referral table holds one row for
    B, with referrer A and inactive; the second call leaves the table as
    the first one made it and answers with the returning-user messages of
    the existing-referral branch. *)
Theorem register_twice_one_pending_row s A msg :
  A <> from_id msg ->
  Sql.select_referral (from_id msg) s = [] ->
  let B := from_id msg in
  let s1 := step s (RegisterReferral A msg) in
  let s2 := step s1 (RegisterReferral A msg) in
  Sql.select_referral B s2 = [mkReferral A B false]
  /\ referrals s2 = referrals s1
  /\ sent (handle (RegisterReferral A msg)) s1
     = [(ToChat (chat_id msg), WelcomeBackReferred (from_first_name msg));
        (ToChat (chat_id msg), GroupLink);
        (ToParam (Ident.to_string A), ReferrerPendingReturning (from_first_name msg))].
Proof.
  intros HA Hnone. cbv zeta.
  apply no_row_select in Hnone. destruct s as [us rs]. simpl in Hnone.
  rewrite (register_new _ rs Hnone us A msg eq_refl HA).
  rewrite (register_pending _ rs Hnone _ A A msg eq_refl HA).
  rewrite (select_referral_tail _ rs Hnone) by reflexivity.
  do 2 (split; [reflexivity|]).
  unfold sent, handle. rewrite (on_start_referred msg A _ HA). cbv zeta.
  set (s1 := with_sender msg _).
  assert (E : s1 = mkStore (users s1) (rs ++ [mkReferral A (from_id msg) false])).
  { unfold s1, with_sender. apply with_user_store. }
  rewrite E. rewrite (select_referral_tail _ rs Hnone) by reflexivity.
  reflexivity.
Qed.

Lemma register_twice_one_pending_row_witness :
  let bob := private 2 None "Bob" in
  let s1 := step empty_store (RegisterReferral 1 bob) in
  let s2 := step s1 (RegisterReferral 1 bob) in
  Sql.select_referral 2 s2 = [mkReferral 1 2 false]
  /\ referrals s2 = referrals s1
  /\ sent (handle (RegisterReferral 1 bob)) s1
     = [(ToChat 2, WelcomeBackReferred "Bob"); (ToChat 2, GroupLink);
        (ToParam "1", ReferrerPendingReturning "Bob")].
Proof.
  cbv zeta.
  apply (register_twice_one_pending_row empty_store 1 (private 2 None "Bob"));
    [simpl; lia | reflexivity].
Defined.

(** ** Leaving (C7) *)

Lemma count_of_map_floor r s U c :
  count_of s U = Some c ->
  exists c', count_of (Sql.update_count Sql.decr_floor r s) U = Some c'
             /\ c - 1 <= c' /\ (0 <= c -> 0 <= c' <= c).
Proof.
  intros H. rewrite count_of_update_count, H.
  destruct (U =? r); simpl.
  - exists (Sql.decr_floor c). unfold Sql.decr_floor. repeat split; lia.
  - exists c. repeat split; lia.
Qed.

(** C7: OnMemberLeft(B) when no referral row of B is active (B has none,
    or it is already inactive) leaves the store as it is and sends
    nothing; and whatever the store, a user's count after OnMemberLeft is
    at least the count before minus one, and not negative when the count
    before was not. *)
Theorem left_never_below_floor s B fn :
  let s' := step s (OnMemberLeft B fn) in
  ((forall r, In r (referrals s) -> referred_id r = B -> is_active r = false) ->
   s' = s /\ sent (on_left_chat_member B fn) s = [])
  /\ (forall U c, count_of s U = Some c ->
        exists c', count_of s' U = Some c' /\ c - 1 <= c' /\ (0 <= c -> 0 <= c' <= c)).
Proof.
  cbv zeta. split.
  - intros Hall.
    assert (E : Sql.select_referrer B true s = []).
    { destruct (Sql.select_referrer B true s) as [|r t] eqn:Hsel; [reflexivity|].
      apply select_referrer_In in Hsel. destruct Hsel as [x [Hx [HB [Hact _]]]].
      rewrite (Hall x Hx HB) in Hact. discriminate. }
    rewrite step_left, E. split; [reflexivity|].
    unfold sent. now rewrite on_left_chat_member_run, E.
  - intros U c Hc. rewrite step_left.
    destruct (Sql.select_referrer B true s) as [|r t].
    + exists c. repeat split; auto; lia.
    + rewrite count_of_update_active. now apply count_of_map_floor.
Qed.

Lemma left_never_below_floor_witness :
  let s := mkStore [mkUser 1 None "Ann" 0; mkUser 2 None "Bob" 0]
                   [mkReferral 1 2 false] in
  step s (OnMemberLeft 2 "Bob") = s
  /\ exists c', count_of (step s (OnMemberLeft 2 "Bob")) 1 = Some c'
                /\ 0 - 1 <= c' /\ (0 <= 0 -> 0 <= c' <= 0).
Proof.
  cbv zeta.
  pose proof (left_never_below_floor
                (mkStore [mkUser 1 None "Ann" 0; mkUser 2 None "Bob" 0]
                         [mkReferral 1 2 false]) 2 "Bob") as [Hnoop Hfloor].
  split.
  - apply Hnoop. simpl. intros r [<-|[]] _. reflexivity.
  - apply (Hfloor 1 0). reflexivity.
Defined.

(** ** Malformed start parameter (C8) *)

(** C8, as stated, fails: [Number] reads the parameter [1_000] as NaN, so
    it is no number for the handler, whose guard it passes; the handler
    validates nothing more and binds the text to [referrer_id], where the
    store's integer input reads it as 1000.  A referral row is written and
    the sender is welcomed as referred. *)
Lemma grouped_parameter_writes_referral :
  let bob := private 2 None "Bob" in
  let s := mkStore [mkUser 2 None "Bob" 0] [] in
  Ident.Number "1_000" = Ident.JNaN
  /\ store_after (getOrCreateUser 2 None "Bob") s = s
  /\ store_after (on_start bob (Some "1_000")) s
     = mkStore [mkUser 2 None "Bob" 0] [mkReferral 1000 2 false]
  /\ sent (on_start bob (Some "1_000")) s
     = [(ToChat 2, WelcomeReferred "Bob"); (ToChat 2, GroupLink);
        (ToParam "1_000", ReferrerPending "Bob")].
Proof. vm_compute. repeat split; reflexivity. Qed.

(** C8, amended: a start with a parameter leaves the store as
    get-or-create of the sender leaves it, with the referral table
    unchanged, whenever the store's integer input rejects the text, and it
    rejects every text that [Number] does not read as an integer and that
    has no underscore and no sign before a radix prefix.  Text the store
    accepts as [z] is [z] for [Number] too, or NaN when it has an
    underscore or a sign before a radix prefix; when it passes the guard
    [Number(text) !== sender] it is treated as the link of [z],
    well-formed or not: a sender without a referral row gets one with
    referrer [z], a sender's inactive row is reassigned to [z], an active
    one is left alone.  Text that fails the guard writes nothing. *)
Theorem malformed_parameter_no_referral s msg p :
  let s0 := store_after (getOrCreateUser (from_id msg) (from_username msg)
                           (from_first_name msg)) s in
  let s' := store_after (on_start msg (Some p)) s in
  (Ident.int8in p = None -> s' = s0 /\ referrals s' = referrals s)
  /\ (Ident.isInteger (Ident.Number p) = false ->
      Ident.has_underscore p = false -> Ident.signed_radix p = false ->
      Ident.int8in p = None /\ s' = s0 /\ referrals s' = referrals s)
  /\ (forall z, Ident.int8in p = Some z ->
        Ident.Number p = (if (Ident.has_underscore p || Ident.signed_radix p)%bool
                          then Ident.JNaN else Ident.JNum z)
        /\ (Ident.strict_neq (Ident.Number p) (from_id msg) = true ->
            match hd_error (Sql.select_referral (from_id msg) s) with
            | None => s' = Sql.insert_referral z (from_id msg) s0
            | Some r => s' = if is_active r then s0
                             else Sql.update_referrer z (from_id msg) s0
            end))
  /\ (Ident.strict_neq (Ident.Number p) (from_id msg) = false ->
      s' = s0 /\ referrals s' = referrals s).
Proof.
  cbv zeta.
  assert (Hg : store_after (getOrCreateUser (from_id msg) (from_username msg)
                              (from_first_name msg)) s = with_sender msg s).
  { unfold store_after, run.
    destruct (getOrCreateUser_db (from_id msg) (from_username msg)
                (from_first_name msg) (fresh s)) as [Hdb _].
    now rewrite Hdb. }
  assert (Hsel : Sql.select_referral (from_id msg) (with_sender msg s)
                 = Sql.select_referral (from_id msg) s).
  { unfold Sql.select_referral, with_sender. now rewrite referrals_with_user. }
  assert (Hplain : store_after (on_start msg (Some p)) s = with_sender msg s ->
            store_after (on_start msg (Some p)) s = with_sender msg s
            /\ referrals (store_after (on_start msg (Some p)) s) = referrals s).
  { intros Hs. rewrite Hs. split; [reflexivity|].
    unfold with_sender. apply referrals_with_user. }
  assert (Hnone : Ident.int8in p = None ->
            store_after (on_start msg (Some p)) s = with_sender msg s
            /\ referrals (store_after (on_start msg (Some p)) s) = referrals s).
  { intros Hin. apply Hplain. rewrite on_start_store, Hin.
    destruct (truthy p && _)%bool; [|reflexivity].
    now destruct (hd_error _). }
  rewrite Hg. split; [exact Hnone|]. split; [|split].
  - intros Hp Hu Hr.
    pose proof (IdentFacts.not_integer_rejected p Hp Hu Hr) as Hin.
    split; [exact Hin | now apply Hnone].
  - intros z Hz. split; [now apply IdentFacts.int8in_Number_cases|]. intros Hneq.
    assert (Ht : truthy p = true) by (destruct p; [discriminate Hz | reflexivity]).
    rewrite on_start_store, Ht, Hneq, Hsel, Hz. cbn [andb].
    destruct (hd_error (Sql.select_referral (from_id msg) s)) as [r|]; reflexivity.
  - intros Hneq. apply Hplain. rewrite on_start_store, Hneq.
    now rewrite andb_false_r.
Qed.

Lemma malformed_parameter_no_referral_witness :
  let s := mkStore [mkUser 2 None "Bob" 0] [mkReferral 1 2 false] in
  let bob := private 2 None "Bob" in
  Ident.int8in "3x" = None
  /\ store_after (on_start bob (Some "3x")) s
     = store_after (getOrCreateUser 2 None "Bob") s
  /\ referrals (store_after (on_start bob (Some "3x")) s) = referrals s.
Proof.
  cbv zeta.
  destruct (malformed_parameter_no_referral
              (mkStore [mkUser 2 None "Bob" 0] [mkReferral 1 2 false])
              (private 2 None "Bob") "3x") as [_ [H _]].
  apply H; reflexivity.
Defined.

(** ** Referrer without a row (C10) *)

Lemma update_count_unknown f r s :
  known s r = false -> Sql.update_count f r s = s.
Proof.
  intros H. unfold Sql.update_count. destruct s as [us rs]. simpl. f_equal.
  apply map_id_on. intros u Hu. unfold Sql.set_count.
  destruct (telegram_id u =? r) eqn:E; [|reflexivity].
  exfalso. apply Z.eqb_eq in E.
  assert (Hk : known (mkStore us rs) r = true) by (apply known_In; eauto).
  congruence.
Qed.

Lemma known_with_other id un fn s U :
  U <> id -> known (with_user id un fn s) U = known s U.
Proof.
  intros HU. unfold with_user. destruct (known s id); [reflexivity|].
  unfold known, Sql.insert_user. simpl. rewrite existsb_app. simpl.
  replace (id =? U) with false by (symmetry; apply Z.eqb_neq; congruence).
  now rewrite !orb_false_r.
Qed.

(** C10: RegisterReferral(A, B) goes through for a referrer A who has no
    row in [users]: B's referral row is created with referrer A; the next
    OnMemberJoined(B) marks it active, tells A, and leaves the table
    [users] exactly as it was, so that no count changes. *)
Theorem unknown_referrer_gets_no_credit s A msg fn :
  A <> from_id msg -> known s A = false ->
  Sql.select_referral (from_id msg) s = [] ->
  let B := from_id msg in
  let s1 := step s (RegisterReferral A msg) in
  let s2 := step s1 (OnMemberJoined B fn) in
  Sql.select_referral B s1 = [mkReferral A B false]
  /\ Sql.select_referral B s2 = [mkReferral A B true]
  /\ users s2 = users s1
  /\ sent (on_new_chat_members B fn) s1 = [(ToChat A, JoinSuccess fn)].
Proof.
  intros HA Hk Hnone. cbv zeta.
  apply no_row_select in Hnone. destruct s as [us rs]. simpl in Hnone.
  rewrite (register_new _ rs Hnone us A msg eq_refl HA).
  set (us1 := users (with_sender msg (mkStore us rs))).
  assert (Hk1 : known (mkStore us1 (rs ++ [mkReferral A (from_id msg) true])) A = false).
  { rewrite <- Hk. unfold us1, with_sender.
    rewrite <- (known_with_other (from_id msg) (from_username msg) (from_first_name msg)
                  (mkStore us rs) A HA).
    reflexivity. }
  rewrite (joined_tail _ rs Hnone).
  change (mkStore (map (Sql.set_count Sql.incr A) us1) (rs ++ [mkReferral A (from_id msg) true]))
    with (Sql.update_count Sql.incr A (mkStore us1 (rs ++ [mkReferral A (from_id msg) true]))).
  rewrite (update_count_unknown _ _ _ Hk1).
  rewrite !(select_referral_tail _ rs Hnone) by reflexivity.
  do 3 (split; [reflexivity|]).
  unfold sent. rewrite on_new_chat_members_run.
  now rewrite (select_referrer_tail _ rs Hnone).
Qed.

Lemma unknown_referrer_gets_no_credit_witness :
  let bob := private 2 None "Bob" in
  let s1 := step empty_store (RegisterReferral 1 bob) in
  let s2 := step s1 (OnMemberJoined 2 "Bob") in
  Sql.select_referral 2 s1 = [mkReferral 1 2 false]
  /\ Sql.select_referral 2 s2 = [mkReferral 1 2 true]
  /\ users s2 = users s1
  /\ sent (on_new_chat_members 2 "Bob") s1 = [(ToChat 1, JoinSuccess "Bob")].
Proof.
  cbv zeta.
  apply (unknown_referrer_gets_no_credit empty_store 1 (private 2 None "Bob") "Bob");
    [simpl; lia | reflexivity | reflexivity].
Defined.

(** ** Rank (C6) *)

Module RankFacts.
Import Rank.

Lemma above_app c l1 l2 : above c (l1 ++ l2) = above c l1 + above c l2.
Proof. unfold above. rewrite filter_app, length_app. lia. Qed.

Lemma above_none c l :
  (forall v, In v l -> referral_count v <= c) -> above c l = 0.
Proof.
  intros H. unfold above. rewrite filter_none; [reflexivity|].
  intros v Hv. apply Z.ltb_ge. now apply H.
Qed.

Lemma above_all c l :
  (forall v, In v l -> c < referral_count v) -> above c l = Z.of_nat (List.length l).
Proof.
  intros H. unfold above. f_equal. f_equal.
  induction l as [|a l IH]; simpl; [reflexivity|].
  assert (Ha : (c <? referral_count a) = true) by (apply Z.ltb_lt, H; now left).
  rewrite Ha. f_equal. apply IH. intros; apply H; now right.
Qed.

Lemma above_perm c l l' : Permutation l l' -> above c l = above c l'.
Proof.
  unfold above. intros H. f_equal.
  induction H as [|x l l' _ IH|x y l|l l' l'' _ IH1 _ IH2]; simpl.
  - reflexivity.
  - destruct (c <? referral_count x); simpl; now rewrite IH.
  - destruct (c <? referral_count x), (c <? referral_count y); reflexivity.
  - now rewrite IH1.
Qed.

Lemma insert_desc_perm u l : Permutation (insert_desc u l) (u :: l).
Proof.
  induction l as [|v l IH]; simpl; [reflexivity|].
  destruct (referral_count u <? referral_count v); [|reflexivity].
  rewrite IH. apply perm_swap.
Qed.

Lemma order_desc_perm l : Permutation (order_desc l) l.
Proof.
  induction l as [|u l IH]; simpl; [reflexivity|].
  rewrite insert_desc_perm. now constructor.
Qed.

Lemma insert_desc_sorted u l :
  StronglySorted not_below l -> StronglySorted not_below (insert_desc u l).
Proof.
  induction l as [|v l IH]; simpl; intros Hs.
  - repeat constructor.
  - apply StronglySorted_inv in Hs. destruct Hs as [Hl Hv].
    destruct (referral_count u <? referral_count v) eqn:E.
    + apply Z.ltb_lt in E. constructor; [now apply IH|].
      rewrite Forall_forall in *. intros w Hw.
      apply (Permutation_in _ (insert_desc_perm u l)) in Hw.
      destruct Hw as [<-|Hw]; [unfold not_below; lia | now apply Hv].
    + apply Z.ltb_ge in E. constructor; [now constructor|].
      constructor; [exact E|].
      rewrite Forall_forall in *. intros w Hw. specialize (Hv w Hw).
      unfold not_below in *. lia.
Qed.

Lemma order_desc_sorted l : StronglySorted not_below (order_desc l).
Proof.
  induction l as [|u l IH]; simpl; [constructor | now apply insert_desc_sorted].
Qed.

Lemma sorted_app_between l1 l2 :
  StronglySorted not_below (l1 ++ l2) ->
  forall a b, In a l1 -> In b l2 -> referral_count b <= referral_count a.
Proof.
  induction l1 as [|x l1 IH]; simpl; intros Hs a b Ha Hb; [contradiction|].
  apply StronglySorted_inv in Hs. destruct Hs as [Hs Hx].
  destruct Ha as [<-|Ha]; [|now apply IH].
  rewrite Forall_forall in Hx. apply Hx, in_or_app. now right.
Qed.

Lemma rank_from_fst prev n l : map fst (rank_from prev n l) = l.
Proof.
  revert prev n. induction l as [|u l IH]; intros prev n; simpl; [reflexivity|].
  now rewrite IH.
Qed.

(** The rank [rank_from] gives a row is one more than the number of rows
    with a greater count, given that it starts after the rows [pre] with
    the last row's count and rank in [prev]. *)
Lemma rank_from_above l : forall pre prev n,
  StronglySorted not_below (pre ++ l) ->
  n = Z.of_nat (List.length pre) ->
  match prev with
  | None => pre = []
  | Some (c, k) => (exists last, In last pre /\ referral_count last = c)
                   /\ (forall v, In v pre -> c <= referral_count v)
                   /\ k = 1 + above c pre
  end ->
  forall u k, In (u, k) (rank_from prev n l) ->
              k = 1 + above (referral_count u) (pre ++ l).
Proof.
  induction l as [|x l IH]; intros pre prev n Hs Hn Hprev u k Hin; simpl in Hin;
    [contradiction|].
  set (position := match prev with
                   | Some (c, k0) => if c =? referral_count x then k0 else n + 1
                   | None => n + 1
                   end) in *.
  assert (Hafter : forall v, In v (x :: l) -> referral_count v <= referral_count x).
  { intros v [<-|Hv]; [lia|].
    replace (pre ++ x :: l) with ((pre ++ [x]) ++ l) in Hs
      by (now rewrite <- app_assoc).
    apply (sorted_app_between _ _ Hs x v); [apply in_or_app; right; now left | exact Hv]. }
  assert (Hbefore : forall v, In v pre -> referral_count x <= referral_count v).
  { intros v Hv. apply (sorted_app_between _ _ Hs v x Hv). now left. }
  assert (Hpos : position = 1 + above (referral_count x) pre).
  { unfold position. destruct prev as [[c k0]|].
    - destruct Hprev as [[last [Hlast Hc]] [Hge Hk0]].
      destruct (c =? referral_count x) eqn:E.
      + apply Z.eqb_eq in E. now rewrite <- E.
      + apply Z.eqb_neq in E. rewrite above_all; [lia|].
        intros v Hv. specialize (Hge v Hv). specialize (Hbefore last Hlast). lia.
    - subst pre. simpl in Hn. subst n. reflexivity. }
  destruct Hin as [Hhd|Htl].
  - injection Hhd as <- <-. rewrite above_app, (above_none _ (x :: l) Hafter). lia.
  - replace (pre ++ x :: l) with ((pre ++ [x]) ++ l) by (now rewrite <- app_assoc).
    apply (IH (pre ++ [x]) (Some (referral_count x, position)) (n + 1)); auto.
    + now rewrite <- app_assoc.
    + rewrite length_app. simpl. lia.
    + split; [|split].
      * exists x. split; [apply in_or_app; right; now left | reflexivity].
      * intros v Hv. apply in_app_or in Hv. destruct Hv as [Hv|[<-|[]]]; [now apply Hbefore | lia].
      * rewrite above_app, Hpos.
        rewrite (above_none _ [x]); [lia|]. intros v [<-|[]]. lia.
Qed.

Lemma user_rank_above s u k :
  In (u, k) (user_rank s) ->
  In u (users s) /\ k = 1 + above (referral_count u) (users s).
Proof.
  intros Hin. split.
  - apply (Permutation_in _ (order_desc_perm (users s))).
    unfold user_rank in Hin. rewrite <- (rank_from_fst None 0 (order_desc (users s))).
    apply in_map_iff. now exists (u, k).
  - rewrite <- (above_perm _ _ _ (order_desc_perm (users s))).
    apply (rank_from_above (order_desc (users s)) [] None 0); auto.
    apply order_desc_sorted.
Qed.

Lemma user_rank_covers s u :
  In u (users s) -> exists k, In (u, k) (user_rank s).
Proof.
  intros Hu. apply (Permutation_in _ (Permutation_sym (order_desc_perm (users s)))) in Hu.
  unfold user_rank. rewrite <- (rank_from_fst None 0 (order_desc (users s))) in Hu.
  apply in_map_iff in Hu. destruct Hu as [[v k] [E Hin]]. simpl in E. subst v. eauto.
Qed.

End RankFacts.

Lemma rank_query_known s U u :
  NoDup (map telegram_id (users s)) ->
  In u (users s) -> telegram_id u = U ->
  exists t, Rank.rank_query U s
            = (1 + above (referral_count u) (users s), referral_count u) :: t.
Proof.
  intros Hnd Hu HU. unfold Rank.rank_query.
  destruct (RankFacts.user_rank_covers s u Hu) as [k Hk].
  destruct (filter (fun r => telegram_id (fst r) =? U) (Rank.user_rank s))
    as [|[v j] t] eqn:E.
  - assert (Hin : In (u, k) (filter (fun r => telegram_id (fst r) =? U) (Rank.user_rank s))).
    { apply filter_In. split; [exact Hk | now apply Z.eqb_eq]. }
    rewrite E in Hin. contradiction.
  - assert (Hin : In (v, j) (filter (fun r => telegram_id (fst r) =? U) (Rank.user_rank s)))
      by (rewrite E; now left).
    apply filter_In in Hin. destruct Hin as [Hin Hv]. simpl in Hv. apply Z.eqb_eq in Hv.
    apply RankFacts.user_rank_above in Hin. destruct Hin as [Hvin Hj].
    assert (v = u) by (apply (nodup_map_eq telegram_id (users s)); auto; congruence).
    subst v. simpl. rewrite Hj. eauto.
Qed.

Lemma rank_query_unknown s U :
  count_of s U = None -> Rank.rank_query U s = [].
Proof.
  intros Hnone. unfold Rank.rank_query.
  rewrite filter_none; [reflexivity|].
  intros [v j] Hin. simpl. destruct (telegram_id v =? U) eqn:E; [|reflexivity].
  apply RankFacts.user_rank_above in Hin. destruct Hin as [Hv _].
  assert (Hk : known s U = true).
  { apply known_In. exists v. split; [exact Hv | now apply Z.eqb_eq]. }
  apply count_of_known in Hk. destruct Hk as [c Hc]. congruence.
Qed.

(** C6: with one row per user, the rank command answers a user whose
    count [c] is positive with [c] and the rank 1 + the number of users
    whose count is strictly greater than [c]; a user with count 0, or with
    no row, is told that they have no referrals yet. *)
Theorem rank_is_one_plus_greater_counts s U :
  NoDup (map telegram_id (users s)) ->
  sent (on_rank U) s
  = [(ToChat U,
      match count_of s U with
      | Some c => if c >? 0
                  then RankReport c (1 + above c (users s))
                  else NoReferralsYet
      | None => NoReferralsYet
      end)].
Proof.
  intros Hnd. unfold sent, run, on_rank, try_catch, bind, query. simpl.
  destruct (count_of s U) as [c|] eqn:Hc.
  - apply count_of_In in Hc. destruct Hc as [u [Hu [HU Hcu]]].
    destruct (rank_query_known s U u Hnd Hu HU) as [t Ht].
    rewrite Ht, Hcu. now destruct (c >? 0).
  - now rewrite (rank_query_unknown s U Hc).
Qed.

Lemma rank_is_one_plus_greater_counts_witness :
  let s := mkStore [mkUser 1 None "Ann" 5; mkUser 2 None "Bob" 5;
                    mkUser 3 None "Cyd" 3; mkUser 4 None "Dan" 0] [] in
  sent (on_rank 1) s = [(ToChat 1, RankReport 5 1)]
  /\ sent (on_rank 2) s = [(ToChat 2, RankReport 5 1)]
  /\ sent (on_rank 3) s = [(ToChat 3, RankReport 3 3)]
  /\ sent (on_rank 4) s = [(ToChat 4, NoReferralsYet)]
  /\ sent (on_rank 9) s = [(ToChat 9, NoReferralsYet)].
Proof.
  cbv zeta.
  assert (Hnd : NoDup (map telegram_id
                  (users (mkStore [mkUser 1 None "Ann" 5; mkUser 2 None "Bob" 5;
                                   mkUser 3 None "Cyd" 3; mkUser 4 None "Dan" 0] [])))).
  { simpl. repeat constructor; simpl; intuition lia. }
  do 4 (split; [rewrite (rank_is_one_plus_greater_counts _ _ Hnd); reflexivity|]).
  rewrite (rank_is_one_plus_greater_counts _ _ Hnd). reflexivity.
Defined.

(** ** Broadcast (C9) *)

Section Broadcast.

Variable transport : Z -> delivery.
Variable message : string.

Lemma broadcast_loop_run ids : forall t w,
  broadcast_loop transport message ids t w
  = (Returned
       (mkTally
          (successCount t
           + Z.of_nat (List.length (filter (fun id => is_delivered (transport id)) ids)))
          (failureCount t
           + Z.of_nat (List.length (filter (fun id => negb (is_delivered (transport id))) ids)))),
     mkWorld (purge transport ids (db w)) (snapshot w)
             (outbox w ++ map (fun id => (ToChat id, Broadcast message)) ids)).
Proof.
  induction ids as [|id ids IH]; intros t w.
  - simpl. unfold ret. rewrite !Z.add_0_r, app_nil_r. now destruct t, w.
  - cbn [broadcast_loop]. unfold bind at 1.
    unfold try_catch, awaitSendMessage, bind, sendMessage, purge.
    cbn [fold_left filter map].
    destruct (transport id) as [|code] eqn:Ht; cbn.
    + rewrite IH. cbn. rewrite <- app_assoc. cbn.
      do 2 f_equal; f_equal; lia.
    + destruct code as [code|]; cbn.
      * destruct (code =? 403) eqn:Hc; cbn; rewrite IH; cbn;
          rewrite <- app_assoc; cbn; (do 2 f_equal; f_equal; lia).
      * rewrite IH. cbn. rewrite <- app_assoc. cbn.
        do 2 f_equal; f_equal; lia.
Qed.

Lemma purge_subset ids : forall s u,
  In u (users (purge transport ids s)) -> In u (users s).
Proof.
  induction ids as [|id ids IH]; intros s u Hu; [exact Hu|].
  unfold purge in *. simpl in Hu. apply IH in Hu.
  destruct (is_blocked (transport id)); [|exact Hu].
  simpl in Hu. apply filter_In in Hu. tauto.
Qed.

Lemma purge_removes ids : forall s id,
  In id ids -> is_blocked (transport id) = true ->
  known (purge transport ids s) id = false.
Proof.
  induction ids as [|i ids IH]; intros s id Hin Hb; [contradiction|].
  destruct (known (purge transport (i :: ids) s) id) eqn:Hk; [|reflexivity].
  exfalso. apply known_In in Hk. destruct Hk as [u [Hu HU]].
  destruct Hin as [->|Hin].
  - unfold purge in Hu. simpl in Hu. rewrite Hb in Hu.
    apply purge_subset in Hu. simpl in Hu. apply filter_In in Hu.
    destruct Hu as [_ Hne]. rewrite HU, Z.eqb_refl in Hne. discriminate.
  - assert (Hk : known (purge transport ids
                          (if is_blocked (transport i) then Sql.delete_user i s else s)) id
                 = true) by (apply known_In; eauto).
    rewrite (IH _ id Hin Hb) in Hk. discriminate.
Qed.

Lemma delivered_all l :
  (forall v, In v l -> transport (telegram_id v) = Delivered) ->
  filter (fun id => is_delivered (transport id)) (map telegram_id l) = map telegram_id l
  /\ filter (fun id => negb (is_delivered (transport id))) (map telegram_id l) = [].
Proof.
  induction l as [|v l IH]; intros H; [split; reflexivity|].
  simpl. rewrite (H v (or_introl eq_refl)). simpl.
  destruct IH as [IH1 IH2]; [intros; apply H; now right|].
  now rewrite IH1, IH2.
Qed.

Lemma partition_length (l : list Z) :
  Z.of_nat (List.length (filter (fun id => is_delivered (transport id)) l))
  + Z.of_nat (List.length (filter (fun id => negb (is_delivered (transport id))) l))
  = Z.of_nat (List.length l).
Proof.
  induction l as [|id l IH]; [reflexivity|].
  cbn [filter]. destruct (is_delivered (transport id)); cbn [negb List.length]; lia.
Qed.

End Broadcast.

(** C9: a broadcast of a non-blank message attempts every user that has a
    row when it starts exactly once, in table order, and answers with
    counts whose sum is the number of those users; when the send to one
    user is rejected with status 403 and every other send is delivered,
    the answer is [n - 1] successes and 1 failure, and that user has no
    row in [users] afterwards. *)
Theorem broadcast_counts_and_removes_blocked transport m s :
  blank (Some m) = false ->
  exists sc fc w,
    run (post_broadcast transport (Some m)) s = (Returned (Completed sc fc), w)
    /\ sc + fc = Z.of_nat (List.length (users s))
    /\ outbox w = map (fun u => (ToChat (telegram_id u), Broadcast m)) (users s)
    /\ (forall l1 u l2,
          users s = l1 ++ u :: l2 ->
          transport (telegram_id u) = Rejected (Some 403) ->
          (forall v, In v (l1 ++ l2) -> transport (telegram_id v) = Delivered) ->
          sc = Z.of_nat (List.length (users s)) - 1
          /\ fc = 1
          /\ known (db w) (telegram_id u) = false).
Proof.
  intros Hm. unfold run, post_broadcast. rewrite Hm.
  unfold try_catch, broadcastMessage, bind, query.
  rewrite broadcast_loop_run. unfold ret. cbn.
  eexists _, _, _. split; [reflexivity|].
  unfold Sql.select_ids.
  split; [|split].
  - rewrite partition_length. now rewrite length_map.
  - now rewrite map_map.
  - intros l1 u l2 Hs Hu Hrest.
    assert (H1 : forall v, In v l1 -> transport (telegram_id v) = Delivered)
      by (intros; apply Hrest, in_or_app; now left).
    assert (H2 : forall v, In v l2 -> transport (telegram_id v) = Delivered)
      by (intros; apply Hrest, in_or_app; now right).
    destruct (delivered_all transport l1 H1) as [D1 F1].
    destruct (delivered_all transport l2 H2) as [D2 F2].
    split; [|split].
    + rewrite Hs, map_app, filter_app. cbn [map filter]. rewrite Hu. cbn [is_delivered].
      rewrite D1, D2, !length_app, !length_map. cbn [List.length]. lia.
    + rewrite Hs, map_app, filter_app. cbn [map filter]. rewrite Hu. cbn [is_delivered negb].
      rewrite F1, F2. reflexivity.
    + apply purge_removes.
      * rewrite Hs. apply in_map, in_or_app. right. now left.
      * now rewrite Hu.
Qed.

Lemma broadcast_counts_and_removes_blocked_witness :
  let s := mkStore [mkUser 1 None "Ann" 2; mkUser 2 None "Bob" 0; mkUser 3 None "Cyd" 1]
                   [mkReferral 1 2 true] in
  let transport := fun id => if id =? 2 then Rejected (Some 403) else Delivered in
  exists w,
    run (post_broadcast transport (Some "news")) s = (Returned (Completed 2 1), w)
    /\ known (db w) 2 = false.
Proof.
  cbv zeta.
  destruct (broadcast_counts_and_removes_blocked
              (fun id => if id =? 2 then Rejected (Some 403) else Delivered) "news"
              (mkStore [mkUser 1 None "Ann" 2; mkUser 2 None "Bob" 0; mkUser 3 None "Cyd" 1]
                       [mkReferral 1 2 true]) eq_refl)
    as [sc [fc [w [Hrun [_ [_ Hone]]]]]].
  destruct (Hone [mkUser 1 None "Ann" 2] (mkUser 2 None "Bob" 0) [mkUser 3 None "Cyd" 1]
              eq_refl eq_refl) as [Hsc [Hfc Hgone]].
  - intros v [<-|[<-|[]]]; reflexivity.
  - exists w. split; [|exact Hgone].
    rewrite Hrun, Hsc, Hfc. reflexivity.
Defined.

(** * Further properties of the handlers *)

(** ** Get-or-create *)

Lemma getOrCreateUser_run id un fn s :
  run (getOrCreateUser id un fn) s
  = (Returned (if known s id then hd_error (Sql.select_user id s)
               else Some (Sql.new_user id un fn)),
     fresh (with_user id un fn s)).
Proof.
  unfold run, getOrCreateUser, bind, query, with_user, fresh. simpl.
  rewrite select_user_known. destruct (known s id); reflexivity.
Qed.

Lemma known_with_user_self id un fn s : known (with_user id un fn s) id = true.
Proof.
  unfold with_user. destruct (known s id) eqn:E; [exact E|].
  unfold known, Sql.insert_user. simpl. rewrite existsb_app. simpl.
  now rewrite Z.eqb_refl, orb_true_r.
Qed.

(** X1: [getOrCreateUser] returns a row of the table with the id asked
    for; afterwards the id has a row, a second call (whatever names it
    carries) changes nothing, and a call for an id that already has a row
    leaves the store, names included, as it is. *)
Theorem getOrCreateUser_idempotent id un fn un' fn' s :
  let s1 := store_after (getOrCreateUser id un fn) s in
  (exists u, fst (run (getOrCreateUser id un fn) s) = Returned (Some u)
             /\ telegram_id u = id /\ In u (users s1))
  /\ known s1 id = true
  /\ store_after (getOrCreateUser id un' fn') s1 = s1
  /\ (if known s id then s1 = s
      else users s1 = users s ++ [mkUser id un fn 0] /\ referrals s1 = referrals s).
Proof.
  cbv zeta. unfold store_after. rewrite !getOrCreateUser_run. simpl.
  split; [|split; [apply known_with_user_self|split]].
  - unfold with_user. destruct (known s id) eqn:Hk.
    + apply known_In in Hk. destruct Hk as [v [Hv Hid]].
      destruct (hd_error (Sql.select_user id s)) as [u|] eqn:Hu.
      * exists u. apply hd_filter_some in Hu. destruct Hu as [Hin Hp].
        apply Z.eqb_eq in Hp. auto.
      * exfalso. pose proof (hd_filter_none _ _ Hu v Hv) as Hf. simpl in Hf.
        apply Z.eqb_neq in Hf. contradiction.
    + exists (Sql.new_user id un fn). repeat split.
      unfold Sql.insert_user. simpl. apply in_or_app. right. now left.
  - unfold with_user at 1. now rewrite known_with_user_self.
  - unfold with_user. destruct (known s id); [reflexivity | split; reflexivity].
Qed.

(** ** The start handler on any parameter *)

(** X2: the start handler reads its parameter through its integer value:
    text that the store's integer input reads as [A] (white space around
    it, a plus sign, leading zeros, a radix prefix, underscores between
    digits) has the effect on the store of the decimal text of [A], which
    is RegisterReferral(A, sender), unless [A] is the sender and the text
    has an underscore or a sign before a radix prefix. *)
Theorem start_reads_parameter_by_value msg p A s :
  Ident.int8in p = Some A ->
  (Ident.has_underscore p || Ident.signed_radix p)%bool = false \/ A <> from_id msg ->
  store_after (on_start msg (Some p)) s = step s (RegisterReferral A msg).
Proof.
  intros Hp H.
  assert (Ht : truthy p = true).
  { destruct p; [discriminate Hp | reflexivity]. }
  assert (Hg : Ident.strict_neq (Ident.Number p) (from_id msg)
               = Ident.strict_neq (Ident.JNum A) (from_id msg)).
  { rewrite (IdentFacts.int8in_Number_cases p A Hp).
    destruct (Ident.has_underscore p || Ident.signed_radix p)%bool; [|reflexivity].
    destruct H as [H|H]; [discriminate H|].
    simpl. symmetry. now apply negb_true_iff, Z.eqb_neq. }
  unfold step, handle. rewrite !on_start_store.
  rewrite Hg, Ht, Hp, IdentFacts.Number_to_string, IdentFacts.truthy_to_string,
    IdentFacts.int8in_to_string.
  reflexivity.
Qed.

Lemma start_reads_parameter_by_value_witness :
  let bob := private 2 None "Bob" in
  store_after (on_start bob (Some " +007 ")) empty_store
  = step empty_store (RegisterReferral 7 bob)
  /\ store_after (on_start bob (Some "0x10")) empty_store
     = step empty_store (RegisterReferral 16 bob)
  /\ store_after (on_start bob (Some "1_000")) empty_store
     = step empty_store (RegisterReferral 1000 bob).
Proof.
  cbv zeta. split; [|split].
  - apply (start_reads_parameter_by_value (private 2 None "Bob") " +007 " 7 empty_store);
      [reflexivity | left; reflexivity].
  - apply (start_reads_parameter_by_value (private 2 None "Bob") "0x10" 16 empty_store);
      [reflexivity | left; reflexivity].
  - apply (start_reads_parameter_by_value (private 2 None "Bob") "1_000" 1000 empty_store);
      [reflexivity | right; simpl; lia].
Defined.

(** X3: while the sender's referral row is active, a start with somebody
    else's link, well-formed or not, changes nothing in the referral
    table and answers that the sender is already an active member. *)
Theorem active_referral_is_not_reassigned msg ref s r :
  hd_error (Sql.select_referral (from_id msg) s) = Some r ->
  is_active r = true ->
  (truthy ref && Ident.strict_neq (Ident.Number ref) (from_id msg))%bool = true ->
  store_after (on_start msg (Some ref)) s = with_sender msg s
  /\ referrals (store_after (on_start msg (Some ref)) s) = referrals s
  /\ sent (on_start msg (Some ref)) s
     = [(ToChat (chat_id msg), AlreadyActiveMember (from_first_name msg))].
Proof.
  intros Hsel Hact Hg.
  assert (Hsel1 : hd_error (Sql.select_referral (from_id msg) (with_sender msg s)) = Some r).
  { unfold Sql.select_referral, with_sender. now rewrite referrals_with_user. }
  assert (Hst : store_after (on_start msg (Some ref)) s = with_sender msg s).
  { rewrite on_start_store, Hg, Hsel1, Hact. now destruct (Ident.int8in ref). }
  split; [exact Hst|]. split.
  - rewrite Hst. apply referrals_with_user.
  - unfold sent, run, on_start, try_catch, bind.
    run_user (from_id msg) (from_username msg) (from_first_name msg) (fresh s).
    rewrite Hg. simpl. fold (with_sender msg s). rewrite Hsel1. simpl.
    now rewrite Hact.
Qed.

Lemma active_referral_is_not_reassigned_witness :
  let s := mkStore [mkUser 1 None "Ann" 1; mkUser 2 None "Bob" 0] [mkReferral 1 2 true] in
  let bob := private 2 None "Bob" in
  store_after (on_start bob (Some "3")) s = with_sender bob s
  /\ referrals (store_after (on_start bob (Some "3")) s) = referrals s
  /\ sent (on_start bob (Some "3")) s = [(ToChat 2, AlreadyActiveMember "Bob")].
Proof.
  cbv zeta.
  apply (active_referral_is_not_reassigned (private 2 None "Bob") "3"
           (mkStore [mkUser 1 None "Ann" 1; mkUser 2 None "Bob" 0] [mkReferral 1 2 true])
           (mkReferral 1 2 true)); reflexivity.
Defined.

Lemma keys_update_referrer z B l :
  map (fun r => (referred_id r, is_active r)) (map (Sql.set_referrer z B) l)
  = map (fun r => (referred_id r, is_active r)) l.
Proof.
  induction l as [|r l IH]; simpl; [reflexivity|].
  now rewrite set_referrer_referred, set_referrer_active, IH.
Qed.

(** X4: no start activates or deactivates a referral or touches a count:
    the table [users] is as get-or-create leaves it, and the referral
    rows keep their referred user and their [is_active] flag, with at most
    one inactive row for the sender added at the end. *)
Theorem start_changes_no_count_or_activity msg p s :
  let s' := store_after (on_start msg p) s in
  let key := fun r => (referred_id r, is_active r) in
  users s' = users (with_sender msg s)
  /\ (forall U c, count_of s U = Some c -> count_of s' U = Some c)
  /\ (map key (referrals s') = map key (referrals s)
      \/ map key (referrals s') = map key (referrals s) ++ [(from_id msg, false)]).
Proof.
  cbv zeta. rewrite on_start_store.
  assert (Hc : forall U c, count_of s U = Some c -> count_of (with_sender msg s) U = Some c)
    by (intros U c; apply count_of_with_present).
  assert (Hr : referrals (with_sender msg s) = referrals s)
    by apply referrals_with_user.
  destruct p as [ref|]; [|rewrite Hr; auto].
  destruct (truthy ref && _)%bool; [|rewrite Hr; auto].
  destruct (hd_error _) as [row|]; destruct (Ident.int8in ref) as [z|];
    try (rewrite Hr; now auto).
  - destruct (is_active row); [rewrite Hr; now auto|].
    unfold Sql.update_referrer. simpl. rewrite keys_update_referrer, Hr. auto.
  - unfold Sql.insert_referral. simpl. rewrite map_app, Hr. simpl. auto.
Qed.

(** ** Joining and leaving *)

Lemma select_referrer_after_update b B s :
  Sql.select_referrer B (negb b) (Sql.update_active b B s) = [].
Proof.
  unfold Sql.select_referrer, Sql.update_active. simpl.
  rewrite filter_none; [reflexivity|].
  intros r Hr. apply in_map_iff in Hr. destruct Hr as [x [<- _]].
  unfold Sql.set_active. destruct (referred_id x =? B) eqn:E; simpl.
  - rewrite E. now destruct b.
  - now rewrite E.
Qed.

(** X5: a join is counted once: when the member has no inactive referral
    row (never referred, or already active) the join changes nothing and
    sends nothing, and a second join right after a join is such a join. *)
Theorem join_counts_once s B fn fn' :
  (Sql.select_referrer B false s = [] ->
   step s (OnMemberJoined B fn) = s /\ sent (on_new_chat_members B fn) s = [])
  /\ step (step s (OnMemberJoined B fn)) (OnMemberJoined B fn')
     = step s (OnMemberJoined B fn)
  /\ sent (on_new_chat_members B fn') (step s (OnMemberJoined B fn)) = [].
Proof.
  assert (Hnoop : forall s0 n, Sql.select_referrer B false s0 = [] ->
            step s0 (OnMemberJoined B n) = s0 /\ sent (on_new_chat_members B n) s0 = []).
  { intros s0 n E. rewrite step_joined. unfold sent.
    rewrite on_new_chat_members_run, E. split; reflexivity. }
  split; [apply Hnoop|].
  apply Hnoop. rewrite step_joined.
  destruct (Sql.select_referrer B false s) as [|r t] eqn:E; [exact E|].
  exact (select_referrer_after_update true B s).
Qed.

Lemma join_counts_once_witness :
  let s := mkStore [mkUser 1 None "Ann" 0; mkUser 2 None "Bob" 0] [mkReferral 1 2 false] in
  step (step s (OnMemberJoined 2 "Bob")) (OnMemberJoined 2 "Bob")
  = step s (OnMemberJoined 2 "Bob")
  /\ count_of (step (step s (OnMemberJoined 2 "Bob")) (OnMemberJoined 2 "Bob")) 1 = Some 1
  /\ step s (OnMemberJoined 3 "Cyd") = s.
Proof.
  cbv zeta.
  destruct (join_counts_once
              (mkStore [mkUser 1 None "Ann" 0; mkUser 2 None "Bob" 0] [mkReferral 1 2 false])
              2 "Bob" "Bob") as [_ [Htwice _]].
  destruct (join_counts_once
              (mkStore [mkUser 1 None "Ann" 0; mkUser 2 None "Bob" 0] [mkReferral 1 2 false])
              3 "Cyd" "Cyd") as [Hnone _].
  split; [exact Htwice|]. split; [rewrite Htwice; reflexivity|].
  apply Hnone. reflexivity.
Defined.

(** X6: a leave is counted once: a second leave right after a leave
    changes nothing and sends nothing. *)
Theorem leave_counts_once s B fn fn' :
  step (step s (OnMemberLeft B fn)) (OnMemberLeft B fn') = step s (OnMemberLeft B fn)
  /\ sent (on_left_chat_member B fn') (step s (OnMemberLeft B fn)) = [].
Proof.
  assert (E : Sql.select_referrer B true (step s (OnMemberLeft B fn)) = []).
  { rewrite step_left.
    destruct (Sql.select_referrer B true s) as [|r t] eqn:E; [exact E|].
    exact (select_referrer_after_update false B (Sql.update_count Sql.decr_floor r s)). }
  rewrite (step_left B fn'). unfold sent. rewrite on_left_chat_member_run, E.
  split; reflexivity.
Qed.

Lemma only_row (rs : list referral_row) x :
  NoDup (map referred_id rs) -> In x rs ->
  filter (fun r => referred_id r =? referred_id x) rs = [x].
Proof.
  induction rs as [|h rs IH]; simpl; [tauto|].
  intros Hnd Hin. inversion Hnd as [|? ? Hnotin Hnd']; subst.
  destruct Hin as [->|Hin].
  - rewrite Z.eqb_refl. f_equal. apply filter_none.
    intros y Hy. apply Z.eqb_neq. intros E. apply Hnotin. rewrite <- E. now apply in_map.
  - replace (referred_id h =? referred_id x) with false; [now apply IH|].
    symmetry. apply Z.eqb_neq. intros E. apply Hnotin. rewrite E. now apply in_map.
Qed.

Lemma flip_back (rs : list referral_row) B b :
  (forall r, In r rs -> referred_id r = B -> is_active r = b) ->
  map (Sql.set_active b B) (map (Sql.set_active (negb b) B) rs) = rs.
Proof.
  intros H. rewrite map_map. apply map_id_on. intros r Hr.
  unfold Sql.set_active. destruct (referred_id r =? B) eqn:E; simpl.
  - rewrite E. apply Z.eqb_eq in E. rewrite <- (H r Hr E). now destruct r.
  - now rewrite E.
Qed.

Lemma select_referrer_flipped (rs : list referral_row) us B b x :
  NoDup (map referred_id rs) -> In x rs -> referred_id x = B ->
  Sql.select_referrer B b (mkStore us (map (Sql.set_active b B) rs)) = [referrer_id x].
Proof.
  intros Hnd Hx HB. unfold Sql.select_referrer. simpl.
  assert (E : forall l,
    map referrer_id
      (filter (fun r => (referred_id r =? B) && Bool.eqb (is_active r) b)%bool
              (map (Sql.set_active b B) l))
    = map referrer_id (filter (fun r => referred_id r =? B) l)).
  { induction l as [|h l IH]; [reflexivity|]. cbn [map filter].
    rewrite set_active_referred. destruct (referred_id h =? B) eqn:Eh.
    - assert (Ha : is_active (Sql.set_active b B h) = b)
        by (unfold Sql.set_active; now rewrite Eh).
      rewrite Ha, eqb_reflx. cbn [andb map]. now rewrite set_active_referrer, IH.
    - cbn [andb]. exact IH. }
  rewrite E, <- HB, (only_row rs x Hnd Hx). reflexivity.
Qed.

Lemma count_round_trip f g r us :
  (forall u, In u us -> telegram_id u = r -> g (f (referral_count u)) = referral_count u) ->
  map (Sql.set_count g r) (map (Sql.set_count f r) us) = us.
Proof.
  intros H. rewrite map_map. apply map_id_on. intros u Hu.
  unfold Sql.set_count. destruct (telegram_id u =? r) eqn:E; simpl.
  - rewrite E. apply Z.eqb_eq in E. rewrite (H u Hu E). now destruct u.
  - now rewrite E.
Qed.

(** X7: a join followed by the same member's leave gives back the store
    the join found, when each referred user has one referral row and the
    credited referrer's count was not negative. *)
Theorem join_then_leave_restores s B r t fn fn' :
  NoDup (map referred_id (referrals s)) ->
  Sql.select_referrer B false s = r :: t ->
  (forall u, In u (users s) -> telegram_id u = r -> 0 <= referral_count u) ->
  step (step s (OnMemberJoined B fn)) (OnMemberLeft B fn') = s.
Proof.
  intros Hnd Hsel Hpos. rewrite step_joined, Hsel.
  pose proof (select_referrer_In _ _ _ _ _ Hsel) as [x [Hx [HB [Hact Hr]]]].
  rewrite step_left. destruct s as [us rs]. simpl in *.
  unfold Sql.update_count at 1, Sql.update_active at 1. simpl.
  rewrite (select_referrer_flipped rs _ B true x Hnd Hx HB), Hr.
  unfold Sql.update_count, Sql.update_active. simpl. f_equal.
  - apply count_round_trip. intros u Hu Hid. specialize (Hpos u Hu Hid).
    unfold Sql.incr, Sql.decr_floor. lia.
  - apply (flip_back rs B false). intros y Hy Hy'.
    rewrite <- HB in Hy'. now rewrite (nodup_map_eq referred_id rs y x Hnd Hy Hx Hy').
Qed.

Lemma join_then_leave_restores_witness :
  let s := mkStore [mkUser 1 None "Ann" 4; mkUser 2 None "Bob" 0]
                   [mkReferral 3 9 true; mkReferral 1 2 false] in
  step (step s (OnMemberJoined 2 "Bob")) (OnMemberLeft 2 "Bob") = s.
Proof.
  cbv zeta.
  apply (join_then_leave_restores
           (mkStore [mkUser 1 None "Ann" 4; mkUser 2 None "Bob" 0]
                    [mkReferral 3 9 true; mkReferral 1 2 false]) 2 1 [] "Bob" "Bob").
  - simpl. repeat constructor; simpl; intuition lia.
  - reflexivity.
  - simpl. intros u [<-|[<-|[]]]; simpl; lia.
Defined.

(** X8: a leave followed by the same member's join gives back the store
    the leave found, when each referred user has one referral row and the
    referrer's count was at least 1. *)
Theorem leave_then_join_restores s B r t fn fn' :
  NoDup (map referred_id (referrals s)) ->
  Sql.select_referrer B true s = r :: t ->
  (forall u, In u (users s) -> telegram_id u = r -> 1 <= referral_count u) ->
  step (step s (OnMemberLeft B fn)) (OnMemberJoined B fn') = s.
Proof.
  intros Hnd Hsel Hpos. rewrite step_left, Hsel.
  pose proof (select_referrer_In _ _ _ _ _ Hsel) as [x [Hx [HB [Hact Hr]]]].
  rewrite step_joined. destruct s as [us rs]. simpl in *.
  unfold Sql.update_count at 1, Sql.update_active at 1. simpl.
  rewrite (select_referrer_flipped rs _ B false x Hnd Hx HB), Hr.
  unfold Sql.update_count, Sql.update_active. simpl. f_equal.
  - apply count_round_trip. intros u Hu Hid. specialize (Hpos u Hu Hid).
    unfold Sql.incr, Sql.decr_floor. lia.
  - apply (flip_back rs B true). intros y Hy Hy'.
    rewrite <- HB in Hy'. now rewrite (nodup_map_eq referred_id rs y x Hnd Hy Hx Hy').
Qed.

Lemma leave_then_join_restores_witness :
  let s := mkStore [mkUser 1 None "Ann" 1; mkUser 2 None "Bob" 0] [mkReferral 1 2 true] in
  step (step s (OnMemberLeft 2 "Bob")) (OnMemberJoined 2 "Bob") = s.
Proof.
  cbv zeta.
  apply (leave_then_join_restores
           (mkStore [mkUser 1 None "Ann" 1; mkUser 2 None "Bob" 0] [mkReferral 1 2 true])
           2 1 [] "Bob" "Bob").
  - simpl. repeat constructor; simpl; intuition lia.
  - reflexivity.
  - simpl. intros u [<-|[<-|[]]]; simpl; lia.
Defined.

(** ** What every sequence of events keeps *)

Lemma ids_update_count f r us :
  map telegram_id (map (Sql.set_count f r) us) = map telegram_id us.
Proof.
  induction us as [|u us IH]; simpl; [reflexivity|]. now rewrite set_count_id, IH.
Qed.

Lemma nodup_map_filter {A B} (f : A -> B) (p : A -> bool) l :
  NoDup (map f l) -> NoDup (map f (filter p l)).
Proof.
  induction l as [|a l IH]; simpl; intros H; [constructor|].
  inversion H as [|? ? Hnotin Hnd]; subst.
  destruct (p a); simpl; [|now apply IH].
  constructor; [|now apply IH].
  intros Hin. apply Hnotin. apply in_map_iff in Hin. destruct Hin as [x [E Hx]].
  apply filter_In in Hx. rewrite <- E. apply in_map. tauto.
Qed.

Lemma active_referrals_nonneg s U : 0 <= active_referrals s U.
Proof. unfold active_referrals. lia. Qed.

Lemma sound_with_user id un fn s : sound s -> sound (with_user id un fn s).
Proof.
  intros [Hid Hrf Hcnt]. unfold with_user.
  destruct (known s id) eqn:Hk; [now constructor|].
  constructor; simpl; auto.
  - rewrite map_app. simpl. apply NoDup_app; [assumption | repeat constructor; simpl; tauto|].
    intros a Ha [<-|[]]. apply in_map_iff in Ha. destruct Ha as [u [E Hu]].
    assert (known s (telegram_id u) = true) by (apply known_In; eauto).
    congruence.
  - intros u Hu. apply in_app_or in Hu. destruct Hu as [Hu|[<-|[]]].
    + now apply Hcnt.
    + simpl. lia.
Qed.

Lemma sound_insert_referral z B s :
  sound s -> hd_error (Sql.select_referral B s) = None ->
  sound (Sql.insert_referral z B s).
Proof.
  intros [Hid Hrf Hcnt] Hnone.
  pose proof (hd_filter_none _ _ Hnone) as Hno.
  constructor; simpl; auto.
  rewrite map_app. simpl. apply NoDup_app; [assumption | repeat constructor; simpl; tauto|].
  intros b Hb [<-|[]]. apply in_map_iff in Hb. destruct Hb as [r [E Hr]].
  specialize (Hno r Hr). simpl in Hno. apply Z.eqb_neq in Hno. contradiction.
Qed.

Lemma sound_update_referrer z B s : sound s -> sound (Sql.update_referrer z B s).
Proof.
  intros [Hid Hrf Hcnt]. constructor; simpl; auto.
  now rewrite referred_update_referrer.
Qed.

Lemma sound_update_active b B s : sound s -> sound (Sql.update_active b B s).
Proof.
  intros [Hid Hrf Hcnt]. constructor; simpl; auto.
  now rewrite referred_update_active.
Qed.

Lemma sound_update_count f r s :
  (forall c, 0 <= c -> 0 <= f c) -> sound s -> sound (Sql.update_count f r s).
Proof.
  intros Hf [Hid Hrf Hcnt]. constructor; simpl; auto.
  - now rewrite ids_update_count.
  - intros u Hu. apply in_map_iff in Hu. destruct Hu as [v [<- Hv]].
    specialize (Hcnt v Hv). unfold Sql.set_count.
    destruct (telegram_id v =? r); simpl; auto.
Qed.

Lemma sound_delete id s : sound s -> sound (Sql.delete_user id s).
Proof.
  intros [Hid Hrf Hcnt]. constructor; simpl.
  - now apply nodup_map_filter.
  - destruct (existsb _ (users s)); [now apply nodup_map_filter | assumption].
  - intros u Hu. apply filter_In in Hu. destruct Hu as [Hu _]. now apply Hcnt.
Qed.

Lemma sound_purge transport ids : forall s, sound s -> sound (purge transport ids s).
Proof.
  induction ids as [|id ids IH]; intros s Hs; [exact Hs|].
  unfold purge in *. simpl. apply IH.
  destruct (is_blocked (transport id)); [now apply sound_delete | exact Hs].
Qed.

Lemma sound_start msg p s : sound s -> sound (store_after (on_start msg p) s).
Proof.
  intros Hs. rewrite on_start_store.
  pose proof (sound_with_user (from_id msg) (from_username msg) (from_first_name msg) s Hs)
    as Hs1.
  fold (with_sender msg s) in Hs1.
  destruct p as [ref|]; [|exact Hs1].
  destruct (truthy ref && Ident.strict_neq (Ident.Number ref) (from_id msg))%bool;
    [|exact Hs1].
  destruct (hd_error (Sql.select_referral (from_id msg) (with_sender msg s)))
    as [row|] eqn:Hsel;
    destruct (Ident.int8in ref) as [z|]; try exact Hs1.
  - destruct (is_active row); [exact Hs1 | now apply sound_update_referrer].
  - now apply sound_insert_referral.
Qed.

Lemma post_broadcast_store transport message s :
  store_after (post_broadcast transport message) s
  = if blank message then s else purge transport (Sql.select_ids s) s.
Proof.
  unfold store_after, run, post_broadcast.
  destruct message as [m|]; [|reflexivity].
  destruct (blank (Some m)); [reflexivity|].
  unfold try_catch, broadcastMessage, bind, query.
  rewrite broadcast_loop_run. reflexivity.
Qed.

Lemma after_joined s B fn :
  after s (MemberJoined B fn) = step s (OnMemberJoined B fn).
Proof. reflexivity. Qed.

Lemma after_left s B fn :
  after s (MemberLeft B fn) = step s (OnMemberLeft B fn).
Proof. reflexivity. Qed.

Lemma after_sound s e : sound s -> sound (after s e).
Proof.
  intros Hs. destruct e as [msg text|B fn|B fn|transport message].
  - unfold after, react, on_start_text. destruct (Command.start_match text) as [p|].
    + now apply sound_start.
    + exact Hs.
  - rewrite after_joined, step_joined.
    destruct (Sql.select_referrer B false s) as [|r t]; [exact Hs|].
    apply sound_update_count; [unfold Sql.incr; intros; lia|].
    now apply sound_update_active.
  - rewrite after_left, step_left.
    destruct (Sql.select_referrer B true s) as [|r t]; [exact Hs|].
    apply sound_update_active.
    apply sound_update_count; [unfold Sql.decr_floor; intros; lia | exact Hs].
  - unfold after, react.
    assert (E : store_after (post_broadcast transport message;;; ret tt) s
                = store_after (post_broadcast transport message) s).
    { unfold store_after, run, bind.
      destruct (post_broadcast transport message (fresh s)) as [[a|e] w]; reflexivity. }
    rewrite E, post_broadcast_store.
    destruct (blank message); [exact Hs | now apply sound_purge].
Qed.

Lemma after_all_sound es : forall s, sound s -> sound (after_all s es).
Proof.
  induction es as [|e es IH]; intros s Hs; [exact Hs|].
  simpl. apply IH. now apply after_sound.
Qed.

Lemma empty_sound : sound empty_store.
Proof. constructor; simpl; try constructor; tauto. Qed.

(** X9: whatever texts users send and whoever joins, leaves or is
    broadcast to, starting from the empty store, no user has two rows and
    no referred user has two referral rows. *)
Theorem rows_stay_unique es :
  NoDup (map telegram_id (users (after_all empty_store es)))
  /\ NoDup (map referred_id (referrals (after_all empty_store es))).
Proof.
  pose proof (after_all_sound es empty_store empty_sound) as [H1 H2 _]. now split.
Qed.

(** ** Counts that lag behind *)

Lemma behind_with_user id un fn s : behind s -> behind (with_user id un fn s).
Proof.
  intros Hb. unfold with_user. destruct (known s id); [exact Hb|].
  intros u Hu. simpl in Hu. apply in_app_or in Hu. destruct Hu as [Hu|[<-|[]]].
  - now apply Hb.
  - simpl. apply (active_referrals_nonneg s id).
Qed.

Lemma behind_insert_referral z B s : behind s -> behind (Sql.insert_referral z B s).
Proof.
  intros Hb u Hu. specialize (Hb u Hu). unfold active_referrals in *. simpl.
  rewrite filter_app, length_app. lia.
Qed.

Lemma behind_update_referrer z B s r :
  sound s -> behind s ->
  hd_error (Sql.select_referral B s) = Some r -> is_active r = false ->
  behind (Sql.update_referrer z B s).
Proof.
  intros [Hid Hrf Hcnt] Hb Hsome Hr.
  apply hd_filter_some in Hsome. destruct Hsome as [Hin HB]. apply Z.eqb_eq in HB.
  assert (Hall : forall x, In x (referrals s) -> referred_id x = B -> is_active x = false).
  { intros x Hx E. rewrite <- HB in E.
    now rewrite (nodup_map_eq referred_id _ x r Hrf Hx Hin E). }
  intros u Hu. specialize (Hb u Hu). unfold active_referrals in *. simpl.
  rewrite filter_map_same; [exact Hb|].
  intros x Hx. unfold active_for. rewrite set_referrer_active.
  unfold Sql.set_referrer. destruct (referred_id x =? B) eqn:E; [|reflexivity].
  simpl. apply Z.eqb_eq in E. rewrite (Hall x Hx E). now rewrite !andb_false_r.
Qed.

Lemma behind_joined B r t s :
  sound s -> behind s -> Sql.select_referrer B false s = r :: t ->
  behind (Sql.update_count Sql.incr r (Sql.update_active true B s)).
Proof.
  intros [Hid Hrf Hcnt] Hb Hsel.
  apply select_referrer_In in Hsel. destruct Hsel as [x [Hx [HB [Hact Hr]]]].
  intros u Hu. simpl in Hu. apply in_map_iff in Hu. destruct Hu as [v [<- Hv]].
  rewrite set_count_id. unfold active_referrals. simpl.
  rewrite (activate_count _ B (telegram_id v) x Hrf Hx HB Hact).
  specialize (Hb v Hv). unfold active_referrals in Hb.
  assert (Hf : active_for (telegram_id v) (Sql.set_active true B x)
               = (telegram_id v =? r)).
  { unfold active_for, Sql.set_active. rewrite <- HB, Z.eqb_refl. simpl.
    rewrite andb_true_r, Hr. apply Z.eqb_sym. }
  rewrite Hf. unfold Sql.set_count.
  destruct (telegram_id v =? r); simpl; unfold Sql.incr; lia.
Qed.

Lemma behind_left B r t s :
  sound s -> behind s -> Sql.select_referrer B true s = r :: t ->
  behind (Sql.update_active false B (Sql.update_count Sql.decr_floor r s)).
Proof.
  intros [Hid Hrf Hcnt] Hb Hsel.
  apply select_referrer_In in Hsel. destruct Hsel as [x [Hx [HB [Hact Hr]]]].
  intros u Hu. simpl in Hu. apply in_map_iff in Hu. destruct Hu as [v [<- Hv]].
  rewrite set_count_id. unfold active_referrals. simpl.
  pose proof (deactivate_count _ B (telegram_id v) x Hrf Hx HB Hact) as Hd.
  specialize (Hb v Hv). unfold active_referrals in Hb.
  assert (Hf : active_for (telegram_id v) x = (telegram_id v =? r)).
  { unfold active_for. rewrite Hact, andb_true_r, Hr. apply Z.eqb_sym. }
  rewrite Hf in Hd. unfold Sql.set_count.
  destruct (telegram_id v =? r); simpl; unfold Sql.decr_floor; lia.
Qed.

Lemma behind_start msg p s :
  sound s -> behind s -> behind (store_after (on_start msg p) s).
Proof.
  intros Hs Hb. rewrite on_start_store.
  pose proof (sound_with_user (from_id msg) (from_username msg) (from_first_name msg) s Hs)
    as Hs1.
  pose proof (behind_with_user (from_id msg) (from_username msg) (from_first_name msg) s Hb)
    as Hb1.
  fold (with_sender msg s) in Hs1, Hb1.
  destruct p as [ref|]; [|exact Hb1].
  destruct (truthy ref && Ident.strict_neq (Ident.Number ref) (from_id msg))%bool;
    [|exact Hb1].
  destruct (hd_error (Sql.select_referral (from_id msg) (with_sender msg s)))
    as [row|] eqn:Hsel;
    destruct (Ident.int8in ref) as [z|]; try exact Hb1.
  - destruct (is_active row) eqn:Hact; [exact Hb1|].
    now apply (behind_update_referrer z _ _ row).
  - now apply behind_insert_referral.
Qed.

Lemma after_behind s e :
  is_broadcast e = false -> sound s -> behind s -> behind (after s e).
Proof.
  intros He Hs Hb. destruct e as [msg text|B fn|B fn|transport message];
    [| | |discriminate He].
  - unfold after, react, on_start_text. destruct (Command.start_match text) as [p|].
    + now apply behind_start.
    + exact Hb.
  - rewrite after_joined, step_joined.
    destruct (Sql.select_referrer B false s) as [|r t] eqn:E; [exact Hb|].
    eapply behind_joined; eassumption.
  - rewrite after_left, step_left.
    destruct (Sql.select_referrer B true s) as [|r t] eqn:E; [exact Hb|].
    eapply behind_left; eassumption.
Qed.

Lemma after_all_behind es : forall s,
  no_broadcast es = true -> sound s -> behind s -> behind (after_all s es).
Proof.
  induction es as [|e es IH]; intros s Hes Hs Hb; [exact Hb|].
  simpl in Hes. apply andb_true_iff in Hes. destruct Hes as [He Hes].
  apply negb_true_iff in He.
  simpl. apply IH; [exact Hes | now apply after_sound | now apply after_behind].
Qed.

Lemma empty_behind : behind empty_store.
Proof. intros u []. Qed.

(** X11: after any sequence of events from the empty store no count is
    negative, and as long as nobody has been removed by a broadcast no
    count is more than the user's active referrals: referrers without a
    row and parameters the store rejects can leave a count behind, never
    ahead. *)
Theorem count_never_ahead es U c :
  count_of (after_all empty_store es) U = Some c ->
  0 <= c
  /\ (no_broadcast es = true -> c <= active_referrals (after_all empty_store es) U).
Proof.
  intros Hc. pose proof (after_all_sound es empty_store empty_sound) as Hs.
  apply count_of_In in Hc. destruct Hc as [u [Hu [<- <-]]]. split.
  - now apply (counts_nonneg _ Hs).
  - intros Hes.
    now apply (after_all_behind es empty_store Hes empty_sound empty_behind).
Qed.

Lemma count_never_ahead_witness :
  let es := [Started (private 2 None "Bob") "/start 1"; MemberJoined 2 "Bob";
             Started (private 1 None "Ann") "/start"] in
  count_of (after_all empty_store es) 1 = Some 0
  /\ 0 <= 0
  /\ 0 <= active_referrals (after_all empty_store es) 1.
Proof.
  cbv zeta. split; [reflexivity|].
  destruct (count_never_ahead
              [Started (private 2 None "Bob") "/start 1"; MemberJoined 2 "Bob";
               Started (private 1 None "Ann") "/start"] 1 0 eq_refl) as [H0 H1].
  split; [exact H0 | apply H1; reflexivity].
Defined.

(** ** Ranks *)

Lemma rank_of_row s U p c :
  rank_of s U = Some (p, c) ->
  exists u, In u (users s) /\ telegram_id u = U /\ referral_count u = c
            /\ p = 1 + above c (users s).
Proof.
  unfold rank_of, Rank.rank_query. intros H.
  destruct (filter (fun r => telegram_id (fst r) =? U) (Rank.user_rank s))
    as [|[u k] t] eqn:E; [discriminate|].
  simpl in H. injection H as <- <-.
  assert (Hin : In (u, k) (filter (fun r => telegram_id (fst r) =? U) (Rank.user_rank s)))
    by (rewrite E; now left).
  apply filter_In in Hin. destruct Hin as [Hin HU]. simpl in HU. apply Z.eqb_eq in HU.
  apply RankFacts.user_rank_above in Hin. destruct Hin as [Hu Hk].
  exists u. auto.
Qed.

Lemma above_le c c' l : c <= c' -> above c' l <= above c l.
Proof.
  intros H. unfold above. apply inj_le.
  induction l as [|v l IH]; simpl; [lia|].
  destruct (c' <? referral_count v) eqn:E'.
  - apply Z.ltb_lt in E'. replace (c <? referral_count v) with true
      by (symmetry; apply Z.ltb_lt; lia).
    simpl. lia.
  - destruct (c <? referral_count v); simpl; lia.
Qed.

Lemma above_lt c c' l v :
  In v l -> c < referral_count v <= c' -> above c' l < above c l.
Proof.
  intros Hv Hc. assert (Hle : c <= c') by lia.
  induction l as [|w l IH]; [contradiction|].
  change (w :: l) with ([w] ++ l). rewrite !RankFacts.above_app.
  pose proof (above_le c c' [w] Hle). pose proof (above_le c c' l Hle).
  destruct Hv as [->|Hv].
  - assert (E1 : above c' [v] = 0).
    { unfold above. simpl.
      replace (c' <? referral_count v) with false by (symmetry; apply Z.ltb_ge; lia).
      reflexivity. }
    assert (E2 : above c [v] = 1).
    { unfold above. simpl.
      replace (c <? referral_count v) with true by (symmetry; apply Z.ltb_lt; lia).
      reflexivity. }
    lia.
  - specialize (IH Hv). lia.
Qed.

Lemma above_below_length c l u :
  In u l -> referral_count u <= c -> above c l < Z.of_nat (List.length l).
Proof.
  intros Hu Hc. induction l as [|w l IH]; [contradiction|].
  change (w :: l) with ([w] ++ l). rewrite RankFacts.above_app, length_app.
  assert (H1 : above c [w] <= 1).
  { unfold above. simpl. destruct (c <? referral_count w); simpl; lia. }
  assert (H2 : above c l <= Z.of_nat (List.length l)).
  { unfold above. apply inj_le, filter_length_le. }
  destruct Hu as [->|Hu].
  - assert (above c [u] = 0).
    { unfold above. simpl.
      replace (c <? referral_count u) with false by (symmetry; apply Z.ltb_ge; lia).
      reflexivity. }
    simpl. lia.
  - specialize (IH Hu). simpl. lia.
Qed.

(** X12: the ranks [/rank] reads lie between 1 and the number of users,
    a user with no fewer referrals than another never ranks worse, one
    with more ranks strictly better, equal counts share a rank, and a
    user nobody exceeds ranks first. *)
Theorem rank_respects_counts s U V pu cu pv cv :
  rank_of s U = Some (pu, cu) ->
  rank_of s V = Some (pv, cv) ->
  1 <= pu <= Z.of_nat (List.length (users s))
  /\ (cu <= cv -> pv <= pu)
  /\ (cu < cv -> pv < pu)
  /\ (cu = cv -> pu = pv)
  /\ ((forall w, In w (users s) -> referral_count w <= cu) -> pu = 1).
Proof.
  intros HU HV.
  apply rank_of_row in HU. destruct HU as [u [Hu [_ [Hcu ->]]]].
  apply rank_of_row in HV. destruct HV as [v [Hv [_ [Hcv ->]]]].
  split; [|split; [|split; [|split]]].
  - pose proof (above_below_length cu (users s) u Hu). unfold above in *. lia.
  - intros H. pose proof (above_le cu cv (users s) H). lia.
  - intros H. pose proof (above_lt cu cv (users s) v Hv). lia.
  - intros ->. reflexivity.
  - intros H. rewrite (RankFacts.above_none cu (users s) H). reflexivity.
Qed.

Lemma rank_respects_counts_witness :
  let s := mkStore [mkUser 1 None "Ann" 5; mkUser 2 None "Bob" 5;
                    mkUser 3 None "Cyd" 3; mkUser 4 None "Dan" 0] [] in
  1 <= 3 <= Z.of_nat (List.length (users s))
  /\ (3 <= 5 -> 1 <= 3)
  /\ (3 < 5 -> 1 < 3)
  /\ (3 = 5 -> 3 = 1)
  /\ ((forall w, In w (users s) -> referral_count w <= 3) -> 3 = 1).
Proof.
  cbv zeta.
  apply (rank_respects_counts
           (mkStore [mkUser 1 None "Ann" 5; mkUser 2 None "Bob" 5;
                     mkUser 3 None "Cyd" 3; mkUser 4 None "Dan" 0] []) 3 2);
    reflexivity.
Defined.

(** ** The leaderboard *)

Module BoardFacts.
Import Board.

Lemma sorted_prefix (l1 l2 : list user_row) :
  StronglySorted not_below (l1 ++ l2) -> StronglySorted not_below l1.
Proof.
  induction l1 as [|a l1 IH]; simpl; intros H; [constructor|].
  apply StronglySorted_inv in H. destruct H as [Hs Ha].
  constructor; [now apply IH|].
  rewrite Forall_forall in *. intros x Hx. apply Ha, in_or_app. now left.
Qed.

Lemma candidates_In s u :
  In u (candidates s) <-> In u (users s) /\ 0 < referral_count u.
Proof.
  unfold candidates. split.
  - intros H. apply (Permutation_in _ (RankFacts.order_desc_perm _)) in H.
    apply filter_In in H. destruct H as [H1 H2]. split; [exact H1 | lia].
  - intros [H1 H2].
    apply (Permutation_in _ (Permutation_sym (RankFacts.order_desc_perm _))).
    apply filter_In. split; [exact H1 | lia].
Qed.

Lemma candidates_sorted s : StronglySorted not_below (candidates s).
Proof. apply RankFacts.order_desc_sorted. Qed.

Lemma top10_split s : candidates s = top10_query s ++ skipn 10 (candidates s).
Proof. symmetry. apply firstn_skipn. Qed.

Lemma above_candidates s c :
  0 <= c -> above c (candidates s) = above c (users s).
Proof.
  intros Hc. unfold candidates.
  rewrite (RankFacts.above_perm _ _ _ (RankFacts.order_desc_perm _)).
  unfold above. f_equal. f_equal.
  induction (users s) as [|u l IH]; simpl; [reflexivity|].
  destruct (referral_count u >? 0) eqn:E; simpl.
  - now rewrite IH.
  - replace (c <? referral_count u) with false; [exact IH|].
    symmetry. apply Z.ltb_ge. lia.
Qed.

End BoardFacts.

(** X13: the leaderboard query returns at most ten rows of [users], all
    with a positive count, in descending order of count; a user with a
    positive count is left out only when ten rows are listed, and then has
    no more referrals than any listed row. *)
Theorem leaderboard_is_the_top_ten s :
  let rows := Board.top10_query s in
  (List.length rows <= 10)%nat
  /\ StronglySorted not_below rows
  /\ (forall row, In row rows -> In row (users s) /\ 0 < referral_count row)
  /\ (forall u, In u (users s) -> 0 < referral_count u -> ~ In u rows ->
        List.length rows = 10%nat
        /\ forall row, In row rows -> referral_count u <= referral_count row).
Proof.
  cbv zeta. pose proof (BoardFacts.top10_split s) as Hsplit.
  pose proof (BoardFacts.candidates_sorted s) as Hsorted.
  split; [apply firstn_le_length|]. split; [|split].
  - rewrite Hsplit in Hsorted. now apply BoardFacts.sorted_prefix in Hsorted.
  - intros row Hrow. apply BoardFacts.candidates_In. rewrite Hsplit.
    apply in_or_app. now left.
  - intros u Hu Hpos Hout.
    assert (Hc : In u (Board.candidates s)) by (apply BoardFacts.candidates_In; auto).
    rewrite Hsplit in Hc. apply in_app_or in Hc. destruct Hc as [Hc|Hc]; [contradiction|].
    split.
    + apply firstn_length_le.
      destruct (Nat.le_gt_cases 10 (List.length (Rank.order_desc
                  (filter (fun u0 => referral_count u0 >? 0) (users s))))) as [H|H];
        [exact H|].
      unfold Board.candidates in Hc. rewrite skipn_all2 in Hc by lia. contradiction.
    + intros row Hrow. rewrite Hsplit in Hsorted.
      apply (RankFacts.sorted_app_between _ _ Hsorted row u Hrow Hc).
Qed.

Lemma leaderboard_is_the_top_ten_witness :
  let s := mkStore [mkUser 1 None "Ann" 2; mkUser 2 None "Bob" 0; mkUser 3 None "Cyd" 7] [] in
  Board.top10_query s = [mkUser 3 None "Cyd" 7; mkUser 1 None "Ann" 2]
  /\ In (mkUser 1 None "Ann" 2) (users s) /\ 0 < 2.
Proof.
  cbv zeta. split; [reflexivity|].
  destruct (leaderboard_is_the_top_ten
              (mkStore [mkUser 1 None "Ann" 2; mkUser 2 None "Bob" 0; mkUser 3 None "Cyd" 7] []))
    as [_ [_ [Hin _]]].
  apply (Hin (mkUser 1 None "Ann" 2)). right. now left.
Defined.

Lemma reply_leaderboard_sent chatId s :
  Q.sent (Board.reply_leaderboard chatId) s
  = [(ToChat chatId,
      match Board.top10_query s with
      | [] => LeaderboardEmpty
      | rows => Leaderboard (Board.render rows)
      end)].
Proof.
  unfold Q.sent, Board.reply_leaderboard, Q.try_catch, Q.bind, Q.query.
  destruct (Board.top10_query s); reflexivity.
Qed.

(** X14: the leaderboard reply is the empty-leaderboard message exactly
    when no user has a positive count; otherwise it is the rendered list
    of the query's rows. *)
Theorem leaderboard_empty_iff_no_referrals chatId s :
  (Q.sent (Board.reply_leaderboard chatId) s = [(ToChat chatId, LeaderboardEmpty)]
   <-> forall u, In u (users s) -> referral_count u <= 0)
  /\ (Q.sent (Board.reply_leaderboard chatId) s = [(ToChat chatId, LeaderboardEmpty)]
      \/ Q.sent (Board.reply_leaderboard chatId) s
         = [(ToChat chatId, Leaderboard (Board.render (Board.top10_query s)))]).
Proof.
  rewrite reply_leaderboard_sent. split.
  - split.
    + intros H u Hu. destruct (Z_le_gt_dec (referral_count u) 0) as [Hle|Hgt]; [exact Hle|].
      exfalso.
      assert (Hc : In u (Board.candidates s)) by (apply BoardFacts.candidates_In; split; [auto|lia]).
      unfold Board.top10_query in H. unfold Board.candidates in Hc.
      destruct (Rank.order_desc _) as [|a l]; [contradiction|]. simpl in H. discriminate.
    + intros H. replace (Board.top10_query s) with (@nil user_row); [reflexivity|].
      symmetry. destruct (Board.top10_query s) as [|row t] eqn:E; [reflexivity|].
      exfalso.
      assert (Hc : In row (Board.candidates s)).
      { rewrite BoardFacts.top10_split, E. now left. }
      apply BoardFacts.candidates_In in Hc. destruct Hc as [Hu Hpos].
      specialize (H row Hu). lia.
  - destruct (Board.top10_query s); auto.
Qed.

Lemma leaderboard_empty_iff_no_referrals_witness :
  let s := mkStore [mkUser 1 None "Ann" 0; mkUser 2 None "Bob" 0] [mkReferral 1 2 false] in
  Q.sent (Board.reply_leaderboard 1) s = [(ToChat 1, LeaderboardEmpty)].
Proof.
  cbv zeta.
  apply (leaderboard_empty_iff_no_referrals 1
           (mkStore [mkUser 1 None "Ann" 0; mkUser 2 None "Bob" 0] [mkReferral 1 2 false])).
  simpl. intros u [<-|[<-|[]]]; simpl; lia.
Defined.

(** X15: in a group or supergroup [/top10] answers creators and
    administrators only: for any other status, and when the membership
    lookup fails, nothing is sent; in any other chat, and for creators and
    administrators, the reply is the leaderboard reply. *)
Theorem top10_in_groups_is_for_admins getChatMember msg chat_type s :
  let in_group := (String.eqb chat_type "group" || String.eqb chat_type "supergroup")%bool in
  let is_admin := fun status =>
    (String.eqb status "creator" || String.eqb status "administrator")%bool in
  (in_group = false ->
   Q.sent (on_top10 getChatMember msg chat_type) s
   = Q.sent (Board.reply_leaderboard (chat_id msg)) s)
  /\ (in_group = true ->
      forall status, getChatMember (chat_id msg) (from_id msg) = Some status ->
      Q.sent (on_top10 getChatMember msg chat_type) s
      = if is_admin status then Q.sent (Board.reply_leaderboard (chat_id msg)) s else [])
  /\ (in_group = true ->
      getChatMember (chat_id msg) (from_id msg) = None ->
      Q.sent (on_top10 getChatMember msg chat_type) s = []).
Proof.
  cbv zeta. unfold Q.sent, on_top10, Q.bind, Q.try_catch, awaitChatMember.
  split; [|split].
  - intros ->. reflexivity.
  - intros -> status ->. simpl.
    now destruct (String.eqb status "creator" || String.eqb status "administrator")%bool.
  - intros -> ->. reflexivity.
Qed.

Lemma top10_in_groups_is_for_admins_witness :
  let s := mkStore [mkUser 1 None "Ann" 2] [] in
  Q.sent (on_top10 (fun _ _ => Some "member") (private 1 None "Ann") "group") s = []
  /\ Q.sent (on_top10 (fun _ _ => None) (private 1 None "Ann") "supergroup") s = [].
Proof.
  cbv zeta.
  destruct (top10_in_groups_is_for_admins (fun _ _ => Some "member")
              (private 1 None "Ann") "group" (mkStore [mkUser 1 None "Ann" 2] []))
    as [_ [Hmember _]].
  destruct (top10_in_groups_is_for_admins (fun _ _ => None)
              (private 1 None "Ann") "supergroup" (mkStore [mkUser 1 None "Ann" 2] []))
    as [_ [_ Hfail]].
  split.
  - exact (Hmember eq_refl "member" eq_refl).
  - exact (Hfail eq_refl eq_refl).
Defined.

Lemma on_rank_sent chatId s :
  sent (on_rank chatId) s
  = [(ToChat chatId,
      match Rank.rank_query chatId s with
      | (position, c) :: _ => if c >? 0 then RankReport c position else NoReferralsYet
      | [] => NoReferralsYet
      end)].
Proof.
  unfold sent, run, on_rank, try_catch, bind, query. simpl.
  destruct (Rank.rank_query chatId s) as [|[p c] t]; [reflexivity|].
  now destruct (c >? 0).
Qed.

(** X16: each inline button answers as its command: the rank button as
    [/rank], the link button as [/mylink], the leaderboard button as the
    leaderboard reply of [/top10] (with no check of the sender's status,
    so also for a group member [/top10] stays silent for), the menu button
    as a start without a link; any other callback data gets no message. *)
Theorem buttons_answer_as_commands botUsername chatId s :
  Q.sent (on_callback_query botUsername chatId "get_rank") s
  = map (fun m => (fst m, Template (snd m))) (sent (on_rank chatId) s)
  /\ Q.sent (on_callback_query botUsername chatId "get_link") s
     = Q.sent (on_mylink botUsername chatId) s
  /\ Q.sent (on_callback_query botUsername chatId "get_leaderboard") s
     = Q.sent (Board.reply_leaderboard chatId) s
  /\ (forall un fn,
        Q.sent (on_callback_query botUsername chatId "main_menu") s
        = map (fun m => (fst m, Template (snd m)))
              (sent (on_start (private chatId un fn) None) s))
  /\ (forall data,
        data <> "main_menu" -> data <> "get_link" -> data <> "get_rank" ->
        data <> "get_leaderboard" ->
        Q.sent (on_callback_query botUsername chatId data) s = []).
Proof.
  split; [|split; [|split; [|split]]].
  - rewrite on_rank_sent.
    unfold Q.sent, on_callback_query, Q.try_catch, Q.bind, Q.query. simpl.
    destruct (Rank.rank_query chatId s) as [|[p c] t]; [reflexivity|].
    now destruct (c >? 0).
  - reflexivity.
  - reflexivity.
  - intros un fn.
    destruct (on_start_plain (private chatId un fn) None s eq_refl) as [_ ->].
    reflexivity.
  - intros data H1 H2 H3 H4. unfold Q.sent, on_callback_query.
    apply String.eqb_neq in H1, H2, H3, H4. now rewrite H1, H2, H3, H4.
Qed.

Lemma buttons_answer_as_commands_witness :
  let s := mkStore [mkUser 1 None "Ann" 2; mkUser 2 None "Bob" 5] [] in
  Q.sent (on_callback_query "bot" 1 "get_rank") s = [(ToChat 1, Template (RankReport 2 2))]
  /\ Q.sent (on_callback_query "bot" 1 "other") s = [].
Proof.
  cbv zeta.
  destruct (buttons_answer_as_commands "bot" 1
              (mkStore [mkUser 1 None "Ann" 2; mkUser 2 None "Bob" 5] []))
    as [Hrank [_ [_ [_ Hother]]]].
  split.
  - rewrite Hrank. reflexivity.
  - apply Hother; discriminate.
Defined.

Lemma nth_error_firstn {A} (l : list A) n i x :
  nth_error (firstn n l) i = Some x -> nth_error l i = Some x.
Proof.
  revert n i. induction l as [|a l IH]; intros n i H.
  - rewrite firstn_nil in H. destruct i; discriminate.
  - destruct n; [destruct i; discriminate|]. destruct i; simpl in *; [exact H|].
    now apply (IH n).
Qed.

(** X17: the line number a user has in the leaderboard is never better
    than the rank [/rank] reports to them (users with equal counts share a
    rank but not a line), given one row per user. *)
Theorem leaderboard_line_not_above_rank s i row p c :
  NoDup (map telegram_id (users s)) ->
  nth_error (Board.top10_query s) i = Some row ->
  rank_of s (telegram_id row) = Some (p, c) ->
  c = referral_count row /\ p <= Z.of_nat i + 1.
Proof.
  intros Hnd Hrow Hrank.
  apply rank_of_row in Hrank. destruct Hrank as [u [Hu [Hid [Hc ->]]]].
  unfold Board.top10_query in Hrow. apply nth_error_firstn in Hrow.
  fold (Board.candidates s) in Hrow.
  assert (Hin : In row (Board.candidates s)) by (eapply nth_error_In; eassumption).
  apply BoardFacts.candidates_In in Hin. destruct Hin as [Hin Hpos].
  assert (u = row) by (apply (nodup_map_eq telegram_id (users s)); auto).
  subst u. split; [now symmetry|]. subst c.
  rewrite <- (BoardFacts.above_candidates s (referral_count row)) by lia.
  apply nth_error_split in Hrow. destruct Hrow as [l1 [l2 [Hl Hlen]]].
  pose proof (BoardFacts.candidates_sorted s) as Hsorted. rewrite Hl in *.
  rewrite RankFacts.above_app.
  rewrite (RankFacts.above_none _ (row :: l2)).
  - assert (above (referral_count row) l1 <= Z.of_nat (List.length l1))
      by (unfold above; apply inj_le, filter_length_le).
    lia.
  - intros v [<-|Hv]; [lia|].
    replace (l1 ++ row :: l2) with ((l1 ++ [row]) ++ l2) in Hsorted
      by (now rewrite <- app_assoc).
    apply (RankFacts.sorted_app_between _ _ Hsorted row v); [|exact Hv].
    apply in_or_app. right. now left.
Qed.

Lemma leaderboard_line_not_above_rank_witness :
  let s := mkStore [mkUser 1 None "Ann" 5; mkUser 2 None "Bob" 5] [] in
  5 = referral_count (mkUser 2 None "Bob" 5) /\ 1 <= Z.of_nat 1 + 1.
Proof.
  cbv zeta.
  apply (leaderboard_line_not_above_rank
           (mkStore [mkUser 1 None "Ann" 5; mkUser 2 None "Bob" 5] [])
           1 (mkUser 2 None "Bob" 5) 1 5).
  - simpl. repeat constructor; simpl; intuition lia.
  - reflexivity.
  - reflexivity.
Defined.

(** ** Broadcast: who stays *)

Lemma filter_filter {A} (p q : A -> bool) l :
  filter p (filter q l) = filter (fun x => (q x && p x)%bool) l.
Proof.
  induction l as [|a l IH]; simpl; [reflexivity|].
  destruct (q a); simpl; [destruct (p a)|]; now rewrite IH.
Qed.

Lemma purge_users transport ids : forall s,
  users (purge transport ids s)
  = filter (fun u => negb (existsb (fun id => (is_blocked (transport id)
                                               && (id =? telegram_id u))%bool) ids))
           (users s).
Proof.
  induction ids as [|id ids IH]; intros s.
  - unfold purge. cbn [fold_left existsb negb].
    generalize (users s). intros l.
    induction l as [|u l IHl]; [reflexivity|]. cbn [filter]. now rewrite <- IHl.
  - unfold purge in *. cbn [fold_left]. rewrite IH.
    destruct (is_blocked (transport id)) eqn:Hb; simpl.
    + rewrite filter_filter. apply filter_ext. intros u.
      rewrite Hb, (Z.eqb_sym id). now destruct (telegram_id u =? id).
    + apply filter_ext. intros u. now rewrite Hb.
Qed.

Lemma filter_all {A} (p : A -> bool) l :
  (forall x, In x l -> p x = true) -> filter p l = l.
Proof.
  induction l as [|a l IH]; simpl; [reflexivity|].
  intros H. rewrite (H a (or_introl eq_refl)), IH; auto.
Qed.

Lemma delete_unknown id s : known s id = false -> Sql.delete_user id s = s.
Proof.
  intros Hk. unfold Sql.delete_user. fold (known s id). rewrite Hk.
  destruct s as [us rs]. simpl. f_equal. apply filter_all.
  intros u Hu. apply negb_true_iff, Z.eqb_neq. intros E.
  assert (H : known (mkStore us rs) id = true) by (apply known_In; eauto).
  congruence.
Qed.

Lemma known_delete id s x :
  known (Sql.delete_user id s) x = (known s x && negb (x =? id))%bool.
Proof.
  unfold known, Sql.delete_user. simpl.
  induction (users s) as [|u l IH]; [reflexivity|]. cbn [filter existsb].
  destruct (telegram_id u =? id) eqn:E; cbn [negb existsb].
  - rewrite IH. apply Z.eqb_eq in E. rewrite E.
    destruct (id =? x) eqn:Ex; [|reflexivity].
    apply Z.eqb_eq in Ex. subst x. rewrite Z.eqb_refl. cbn.
    now rewrite andb_false_r.
  - rewrite IH. destruct (telegram_id u =? x) eqn:Ex; [|reflexivity].
    apply Z.eqb_eq in Ex. rewrite <- Ex, E. cbn.
    now rewrite orb_true_r || reflexivity.
Qed.

Lemma removed_among_delete transport ids id s x :
  x <> id ->
  removed_among transport ids (Sql.delete_user id s) x = removed_among transport ids s x.
Proof.
  intros Hx. unfold removed_among.
  induction ids as [|i ids IH]; [reflexivity|]. cbn [existsb]. rewrite IH. f_equal.
  destruct (i =? x) eqn:E; [|reflexivity]. apply Z.eqb_eq in E. subst i.
  unfold removed. rewrite known_delete.
  apply Z.eqb_neq in Hx. rewrite Hx. cbn. now rewrite andb_true_r.
Qed.

Lemma removed_among_cons transport i ids s x :
  removed_among transport (i :: ids) s x
  = ((i =? x) && removed transport s i || removed_among transport ids s x)%bool.
Proof. reflexivity. Qed.

(** The referral rows the loop leaves: those that name none of the
    recipients it deleted. *)
Lemma purge_referrals transport ids : forall s,
  referrals (purge transport ids s)
  = filter (fun r => (negb (removed_among transport ids s (referrer_id r))
                      && negb (removed_among transport ids s (referred_id r)))%bool)
           (referrals s).
Proof.
  induction ids as [|id ids IH]; intros s.
  - symmetry. now apply filter_all.
  - assert (Hsame : removed transport s id = false ->
              referrals (purge transport ids s)
              = filter (fun r => (negb (removed_among transport (id :: ids) s (referrer_id r))
                                  && negb (removed_among transport (id :: ids) s
                                             (referred_id r)))%bool)
                       (referrals s)).
    { intros Hr. rewrite IH. apply filter_ext. intros r.
      now rewrite !removed_among_cons, Hr, !andb_false_r. }
    change (purge transport (id :: ids) s)
      with (purge transport ids
              (if is_blocked (transport id) then Sql.delete_user id s else s)).
    destruct (is_blocked (transport id)) eqn:Hb.
    + destruct (known s id) eqn:Hk.
      * rewrite IH.
        assert (Hrs : referrals (Sql.delete_user id s)
                      = filter (Sql.keeps id) (referrals s)).
        { unfold Sql.delete_user. cbn [referrals]. fold (known s id). now rewrite Hk. }
        rewrite Hrs, filter_filter.
        apply filter_ext. intros r. rewrite !removed_among_cons.
        assert (Hrm : removed transport s id = true)
          by (unfold removed; now rewrite Hk, Hb).
        rewrite Hrm, !andb_true_r.
        unfold Sql.keeps.
        destruct (referrer_id r =? id) eqn:E1.
        { apply Z.eqb_eq in E1. rewrite E1, Z.eqb_refl. reflexivity. }
        destruct (referred_id r =? id) eqn:E2.
        { apply Z.eqb_eq in E2. rewrite E2, Z.eqb_refl. cbn. now rewrite andb_false_r. }
        rewrite (Z.eqb_sym id (referrer_id r)), (Z.eqb_sym id (referred_id r)), E1, E2.
        apply Z.eqb_neq in E1, E2.
        now rewrite !removed_among_delete.
      * rewrite (delete_unknown id s Hk). apply Hsame. unfold removed. now rewrite Hk.
    + apply Hsame. unfold removed. now rewrite Hb, andb_false_r.
Qed.

Lemma removed_among_all transport s x :
  removed_among transport (Sql.select_ids s) s x = removed transport s x.
Proof.
  unfold removed_among. destruct (removed transport s x) eqn:Hr.
  - apply existsb_exists. exists x. rewrite Z.eqb_refl, Hr. split; [|reflexivity].
    unfold removed in Hr. apply andb_true_iff in Hr. destruct Hr as [Hk _].
    apply known_In in Hk. destruct Hk as [u [Hu <-]].
    unfold Sql.select_ids. now apply in_map.
  - destruct (existsb _ (Sql.select_ids s)) eqn:Ex; [|reflexivity].
    apply existsb_exists in Ex. destruct Ex as [i [_ Hi]].
    apply andb_true_iff in Hi. destruct Hi as [H1 H2].
    apply Z.eqb_eq in H1. subst i. congruence.
Qed.

Lemma purge_all_users transport s :
  purge transport (Sql.select_ids s) s
  = mkStore (filter (fun u => negb (is_blocked (transport (telegram_id u)))) (users s))
            (filter (spared transport s) (referrals s)).
Proof.
  assert (E : users (purge transport (Sql.select_ids s) s)
              = filter (fun u => negb (is_blocked (transport (telegram_id u)))) (users s)).
  { rewrite purge_users. apply filter_ext_in. intros u Hu. f_equal.
    destruct (is_blocked (transport (telegram_id u))) eqn:Hb.
    - apply existsb_exists. exists (telegram_id u). split.
      + unfold Sql.select_ids. now apply in_map.
      + now rewrite Hb, Z.eqb_refl.
    - destruct (existsb _ (Sql.select_ids s)) eqn:Ex; [|reflexivity].
      apply existsb_exists in Ex. destruct Ex as [id [_ Hid]].
      apply andb_true_iff in Hid. destruct Hid as [H1 H2].
      apply Z.eqb_eq in H2. subst id. congruence. }
  assert (R : referrals (purge transport (Sql.select_ids s) s)
              = filter (spared transport s) (referrals s)).
  { rewrite purge_referrals. apply filter_ext. intros r.
    unfold spared. now rewrite !removed_among_all. }
  rewrite <- E, <- R. now destruct (purge transport (Sql.select_ids s) s).
Qed.

Lemma post_broadcast_run transport m s :
  blank (Some m) = false ->
  run (post_broadcast transport (Some m)) s
  = (Returned
       (Completed
          (Z.of_nat (List.length (filter (fun id => is_delivered (transport id))
                                         (Sql.select_ids s))))
          (Z.of_nat (List.length (filter (fun id => negb (is_delivered (transport id)))
                                         (Sql.select_ids s))))),
     mkWorld (purge transport (Sql.select_ids s) s) None
             (map (fun id => (ToChat id, Broadcast m)) (Sql.select_ids s))).
Proof.
  intros Hm. unfold run, post_broadcast. rewrite Hm.
  unfold try_catch, broadcastMessage, bind, query.
  rewrite broadcast_loop_run. reflexivity.
Qed.

(** X18: a broadcast removes from [users] exactly the rows of the
    recipients whose send was rejected with status 403, and from the
    referral table exactly the rows that name one of them as referrer or
    as referred; every other row stays as it was and in place. *)
Theorem broadcast_removes_exactly_the_blocked transport m s :
  blank (Some m) = false ->
  store_after (post_broadcast transport (Some m)) s
  = mkStore (filter (fun u => negb (is_blocked (transport (telegram_id u)))) (users s))
            (filter (spared transport s) (referrals s)).
Proof.
  intros Hm. unfold store_after. rewrite (post_broadcast_run transport m s Hm). simpl.
  apply purge_all_users.
Qed.

Lemma broadcast_removes_exactly_the_blocked_witness :
  let s := mkStore [mkUser 1 None "Ann" 1; mkUser 2 None "Bob" 0; mkUser 3 None "Cyd" 0]
                   [mkReferral 1 2 true; mkReferral 3 4 false; mkReferral 5 1 false] in
  let transport := fun id =>
    if id =? 1 then Rejected (Some 403) else if id =? 2 then Rejected None else Delivered in
  store_after (post_broadcast transport (Some "news")) s
  = mkStore [mkUser 2 None "Bob" 0; mkUser 3 None "Cyd" 0] [mkReferral 3 4 false].
Proof.
  cbv zeta.
  rewrite (broadcast_removes_exactly_the_blocked
             (fun id => if id =? 1 then Rejected (Some 403)
                        else if id =? 2 then Rejected None else Delivered)
             "news"
             (mkStore [mkUser 1 None "Ann" 1; mkUser 2 None "Bob" 0; mkUser 3 None "Cyd" 0]
                      [mkReferral 1 2 true; mkReferral 3 4 false; mkReferral 5 1 false])
             eq_refl).
  reflexivity.
Defined.

Lemma removed_after_purge transport (us : list user_row) rs x :
  removed transport
    (mkStore (filter (fun u => negb (is_blocked (transport (telegram_id u)))) us) rs) x
  = false.
Proof.
  unfold removed. destruct (known _ x) eqn:Hk; [|reflexivity].
  apply known_In in Hk. destruct Hk as [u [Hu <-]]. simpl in Hu.
  apply filter_In in Hu. destruct Hu as [_ Hu].
  apply negb_true_iff in Hu. now rewrite Hu.
Qed.

Lemma delivered_not_blocked transport (l : list user_row) :
  filter (fun id => is_delivered (transport id))
         (map telegram_id
            (filter (fun u => negb (is_blocked (transport (telegram_id u)))) l))
  = filter (fun id => is_delivered (transport id)) (map telegram_id l).
Proof.
  induction l as [|u l IH]; [reflexivity|]. cbn [filter map].
  destruct (is_blocked (transport (telegram_id u))) eqn:Hb; cbn [negb].
  - assert (Hd : is_delivered (transport (telegram_id u)) = false).
    { destruct (transport (telegram_id u)); [discriminate | reflexivity]. }
    now rewrite Hd.
  - cbn [map filter]. now rewrite IH.
Qed.

(** X19: a second broadcast over the same transport removes nobody: it
    leaves the store as the first left it and reports the same number of
    successes, the recipients removed by the first being no longer
    tried. *)
Theorem second_broadcast_removes_nobody transport m m' s :
  blank (Some m) = false -> blank (Some m') = false ->
  let s1 := store_after (post_broadcast transport (Some m)) s in
  store_after (post_broadcast transport (Some m')) s1 = s1
  /\ exists sc fc fc',
       fst (run (post_broadcast transport (Some m)) s) = Returned (Completed sc fc)
       /\ fst (run (post_broadcast transport (Some m')) s1) = Returned (Completed sc fc')
       /\ sent (post_broadcast transport (Some m')) s1
          = map (fun u => (ToChat (telegram_id u), Broadcast m')) (users s1).
Proof.
  intros Hm Hm'. cbv zeta. unfold store_after, sent.
  rewrite (post_broadcast_run transport m s Hm). cbn [snd fst db].
  rewrite (post_broadcast_run transport m' _ Hm'). cbn [snd fst db outbox].
  rewrite !purge_all_users. cbn [users referrals]. split.
  - f_equal.
    + rewrite filter_filter. apply filter_ext. intros u.
      now destruct (is_blocked (transport (telegram_id u))).
    + apply filter_all. intros r _. unfold spared.
      now rewrite !removed_after_purge.
  - eexists _, _, _. split; [reflexivity|]. split.
    + unfold Sql.select_ids. cbn [users]. now rewrite delivered_not_blocked.
    + unfold Sql.select_ids. cbn [users]. now rewrite map_map.
Qed.

Lemma second_broadcast_removes_nobody_witness :
  let s := mkStore [mkUser 1 None "Ann" 1; mkUser 2 None "Bob" 0] [] in
  let transport := fun id => if id =? 1 then Rejected (Some 403) else Delivered in
  let s1 := store_after (post_broadcast transport (Some "one")) s in
  store_after (post_broadcast transport (Some "two")) s1 = s1.
Proof.
  cbv zeta.
  apply (second_broadcast_removes_nobody
           (fun id => if id =? 1 then Rejected (Some 403) else Delivered) "one" "two"
           (mkStore [mkUser 1 None "Ann" 1; mkUser 2 None "Bob" 0] []));
    reflexivity.
Defined.

(** ** Links and command text *)

Lemma digits_to_line_end s d :
  NilEmpty.uint_of_string s = Some d -> Command.to_line_end s = s.
Proof.
  revert d. induction s as [|c s IH]; [reflexivity|].
  intros d H. simpl in H.
  destruct (NilEmpty.uint_of_string s) as [d0|] eqn:Hs; [|discriminate].
  cbn [Command.to_line_end]. rewrite (IH d0 eq_refl).
  apply uint_of_char_spec in H.
  repeat (destruct H as [[-> _]|H]; [reflexivity|]).
  destruct H as [-> _]; reflexivity.
Qed.

Lemma to_string_to_line_end z :
  Command.to_line_end (Ident.to_string z) = Ident.to_string z.
Proof.
  pose proof (IdentFacts.int_of_to_string z) as H.
  destruct (Ident.to_string z) as [|c s]; [discriminate|].
  unfold NilZero.int_of_string in H. revert H. case Ascii.eqb_spec.
  - intros -> H. unfold NilZero.uint_of_string in H.
    destruct s as [|c' s']; [discriminate|].
    destruct (NilEmpty.uint_of_string (String c' s')) as [u|] eqn:Hu; [|discriminate].
    change (Command.to_line_end (String "-" (String c' s')))
      with (String "-" (Command.to_line_end (String c' s'))).
    now rewrite (digits_to_line_end _ _ Hu).
  - intros _ H. unfold NilZero.uint_of_string in H.
    destruct (NilEmpty.uint_of_string (String c s)) as [u|] eqn:Hu; [|discriminate].
    exact (digits_to_line_end _ _ Hu).
Qed.

Lemma start_match_with_parameter p :
  p <> EmptyString -> Command.to_line_end p = p ->
  Command.start_match ("/start " ++ p) = Some (Some p).
Proof.
  intros Hne Hp. unfold Command.start_match. simpl. rewrite Ascii.eqb_refl || idtac.
  rewrite Hp. destruct p; [contradiction | reflexivity].
Qed.

Lemma start_match_without_space rest :
  (forall r, rest <> String " " r) ->
  Command.start_match ("/start" ++ rest) = Some None.
Proof.
  intros H. unfold Command.start_match. simpl.
  destruct rest as [|c r]; [reflexivity|].
  destruct (Ascii.eqb c " ") eqn:E.
  - apply Ascii.eqb_eq in E. subst c. now destruct (H r).
  - destruct c as [[|] [|] [|] [|] [|] [|] [|] [|]]; try reflexivity.
    vm_compute in E. discriminate.
Qed.

(** X20: the text a referral link produces, [/start] followed by a space
    and the referrer's id in decimal, makes the start handler run
    RegisterReferral for that referrer; [/start] followed by anything but
    a space (nothing, or [@botname ..] as commands are written in groups)
    runs it without a referrer, whatever follows. *)
Theorem start_text_carries_the_referrer msg A :
  on_start_text msg ("/start " ++ Ident.to_string A) = handle (RegisterReferral A msg)
  /\ (forall rest, (forall r, rest <> String " " r) ->
        on_start_text msg ("/start" ++ rest) = on_start msg None).
Proof.
  split.
  - unfold on_start_text.
    rewrite (start_match_with_parameter (Ident.to_string A)
               (IdentFacts.to_string_nonempty A) (to_string_to_line_end A)).
    reflexivity.
  - intros rest H. unfold on_start_text. now rewrite (start_match_without_space rest H).
Qed.

Lemma start_text_carries_the_referrer_witness :
  on_start_text (private 2 None "Bob") "/start@contest_bot 1"
  = on_start (private 2 None "Bob") None.
Proof.
  destruct (start_text_carries_the_referrer (private 2 None "Bob") 1) as [_ H].
  apply (H "@contest_bot 1"). intros r. discriminate.
Defined.

Lemma append_cancel (p x y : string) : (p ++ x = p ++ y)%string -> x = y.
Proof.
  induction p as [|c p IH]; simpl; intros H; [exact H|].
  injection H as H. now apply IH.
Qed.

(** X21: [/mylink] answers in the chat the command came from with a link
    whose start parameter is that chat's id: the sender's own id in a
    private chat, the id of the group, whoever asks, in a group.  The
    parameter reads back as that id, both for [Number] and for the store's
    integer input, and two messages get the same link exactly when they
    come from the same chat. *)
Theorem referral_link_round_trip botUsername msg msg' s :
  (exists p,
      Q.sent (on_mylink botUsername (chat_id msg)) s
      = [(ToChat (chat_id msg),
          ReferralLink ("https://t.me/" ++ botUsername ++ "?start=" ++ p)%string)]
      /\ Ident.Number p = Ident.JNum (chat_id msg)
      /\ Ident.int8in p = Some (chat_id msg))
  /\ (referral_link botUsername (chat_id msg) = referral_link botUsername (chat_id msg')
      <-> chat_id msg = chat_id msg').
Proof.
  split.
  - exists (Ident.to_string (chat_id msg)). split; [reflexivity|]. split.
    + apply IdentFacts.Number_to_string.
    + apply IdentFacts.int8in_to_string.
  - split; [|now intros ->].
    unfold referral_link. intros H.
    apply append_cancel, append_cancel, append_cancel in H.
    pose proof (IdentFacts.int8in_to_string (chat_id msg)) as HA. rewrite H in HA.
    rewrite IdentFacts.int8in_to_string in HA. now injection HA.
Qed.

Lemma referral_link_round_trip_witness :
  exists p,
    Q.sent (on_mylink "contest_bot" (-100123)) empty_store
    = [(ToChat (-100123), ReferralLink ("https://t.me/contest_bot?start=" ++ p)%string)]
    /\ Ident.Number p = Ident.JNum (-100123)
    /\ Ident.int8in p = Some (-100123).
Proof.
  exact (proj1 (referral_link_round_trip "contest_bot"
                  (mkMessage (-100123) 7 None "Bob") (mkMessage (-100123) 8 None "Cyd")
                  empty_store)).
Defined.

(** ** The count invariant where the referrer has a row *)

(** X22: for every user U, after every sequence of RegisterReferral,
    OnMemberJoined and OnMemberLeft operations run one after the other
    from the empty store in which U has a row in [users] whenever a join
    credits U, U's [referral_count] is the number of referral rows with U
    as referrer and [is_active = true]; what happens to other referrers
    does not matter. *)
Theorem referral_count_matches_active_rows ops U c :
  always_present U empty_store ops = true ->
  count_of (steps empty_store ops) U = Some c ->
  c = active_referrals (steps empty_store ops) U.
Proof.
  intros Hp Hc.
  pose proof (steps_consistent U ops empty_store (empty_consistent U) Hp) as Hinv.
  apply count_of_In in Hc. destruct Hc as [u [Hu [HU <-]]].
  now apply (count_exact _ _ Hinv).
Qed.

Lemma referral_count_matches_active_rows_witness :
  let ann := private 1 None "Ann" in
  let bob := private 2 None "Bob" in
  let ops := [RegisterReferral 1 bob; RegisterReferral 1 ann; OnMemberJoined 2 "Bob";
              RegisterReferral 7 ann; OnMemberJoined 1 "Ann"] in
  always_present 1 empty_store ops = true
  /\ known (steps empty_store ops) 7 = false
  /\ count_of (steps empty_store ops) 1 = Some 1
  /\ 1 = active_referrals (steps empty_store ops) 1.
Proof.
  cbv zeta. split; [reflexivity|]. split; [reflexivity|]. split; [reflexivity|].
  apply (referral_count_matches_active_rows
           [RegisterReferral 1 (private 2 None "Bob");
            RegisterReferral 1 (private 1 None "Ann");
            OnMemberJoined 2 "Bob";
            RegisterReferral 7 (private 1 None "Ann");
            OnMemberJoined 1 "Ann"] 1 1); reflexivity.
Defined.

(** ** The guard against one's own link *)

(** X10: the guard against self-referral compares [Number] of the
    parameter with the sender's id, and the store reads the parameter
    again: text that the store reads as the sender's own id and that has
    an underscore or a sign before a radix prefix is NaN for the guard, so
    a sender without a referral row becomes their own pending referrer.
    Every id that is not negative has such a text: its decimal digits
    after [0_]. *)
Theorem own_id_with_underscore_is_accepted msg s :
  (forall p,
      Ident.int8in p = Some (from_id msg) ->
      (Ident.has_underscore p || Ident.signed_radix p)%bool = true ->
      hd_error (Sql.select_referral (from_id msg) s) = None ->
      Ident.Number p = Ident.JNaN
      /\ store_after (on_start msg (Some p)) s
         = Sql.insert_referral (from_id msg) (from_id msg) (with_sender msg s)
      /\ In (mkReferral (from_id msg) (from_id msg) false)
            (referrals (store_after (on_start msg (Some p)) s)))
  /\ (0 <= from_id msg ->
      let p := ("0_" ++ Ident.to_string (from_id msg))%string in
      Ident.int8in p = Some (from_id msg) /\ Ident.has_underscore p = true).
Proof.
  split.
  - intros p Hi Hu Hnone.
    pose proof (IdentFacts.int8in_NaN p _ Hi Hu) as Hn.
    assert (Ht : truthy p = true) by (destruct p; [discriminate Hi | reflexivity]).
    assert (Hst : store_after (on_start msg (Some p)) s
                  = Sql.insert_referral (from_id msg) (from_id msg) (with_sender msg s)).
    { rewrite on_start_store, Hn, Ht, Hi.
      assert (Hsel : hd_error (Sql.select_referral (from_id msg) (with_sender msg s)) = None).
      { unfold Sql.select_referral, with_sender. now rewrite referrals_with_user. }
      now rewrite Hsel. }
    split; [exact Hn|]. split; [exact Hst|].
    rewrite Hst. simpl. apply in_or_app. right. now left.
  - intros Hid. cbv zeta.
    destruct (IdentFacts.underscore_id (from_id msg) Hid) as [_ Hi].
    split; [exact Hi | reflexivity].
Qed.

Lemma own_id_with_underscore_is_accepted_witness :
  let bob := private 2 None "Bob" in
  let s := mkStore [mkUser 2 None "Bob" 0] [] in
  store_after (on_start bob (Some "0_2")) s
  = mkStore [mkUser 2 None "Bob" 0] [mkReferral 2 2 false]
  /\ count_of (step (store_after (on_start bob (Some "0_2")) s) (OnMemberJoined 2 "Bob")) 2
     = Some 1.
Proof.
  cbv zeta.
  destruct (own_id_with_underscore_is_accepted
              (private 2 None "Bob") (mkStore [mkUser 2 None "Bob" 0] []))
    as [H _].
  destruct (H "0_2" eq_refl eq_refl eq_refl) as [_ [Hst _]].
  split; [|reflexivity].
  etransitivity; [exact Hst | reflexivity].
Defined.

(** ** A count left ahead by a removal *)

(** X23: a broadcast that removes a referred member whose referral is
    active takes the referral row with it and leaves the referrer's count
    as it was: the count is then ahead of the referrer's active
    referrals. *)
Theorem count_ahead_after_removal :
  let ann := private 1 None "Ann" in
  let bob := private 2 None "Bob" in
  let transport := fun id => if id =? 2 then Rejected (Some 403) else Delivered in
  let s := after_all empty_store
             [Started ann "/start"; Started bob "/start 1"; MemberJoined 2 "Bob"] in
  let s' := after s (BroadcastPosted transport (Some "news")) in
  count_of s 1 = Some 1 /\ active_referrals s 1 = 1
  /\ count_of s' 1 = Some 1 /\ active_referrals s' 1 = 0 /\ referrals s' = [].
Proof. vm_compute. repeat split; reflexivity. Qed.

(** ** Messages the broadcast route refuses *)

Lemma all_space_js_trim_start n : forall s,
  (String.length s <= n)%nat ->
  Ident.all_space (Ident.js_trim_start s) = Ident.all_space s.
Proof.
  induction n as [|n IH]; intros s Hn.
  - destruct s; [reflexivity | simpl in Hn; lia].
  - destruct s as [|c s1]; [reflexivity|].
    cbn [Ident.js_trim_start Ident.all_space]. simpl in Hn.
    destruct (Ident.space1 c) eqn:H1; [apply IH; lia|].
    destruct s1 as [|c1 s2].
    { cbn [Ident.all_space]. now rewrite H1. }
    simpl in Hn.
    destruct (Ident.space2 c c1) eqn:H2; [apply IH; lia|].
    destruct s2 as [|c2 s3].
    { cbn [Ident.all_space]. now rewrite H1, H2. }
    simpl in Hn.
    destruct (Ident.space3 c c1 c2) eqn:H3; [apply IH; lia|].
    cbn [Ident.all_space]. now rewrite H1, H2, H3.
Qed.

Lemma js_trim_empty s :
  (String.length (Ident.js_trim s) =? 0)%nat = Ident.all_space s.
Proof.
  unfold Ident.js_trim.
  rewrite <- (all_space_js_trim_start (String.length s) s (le_n _)).
  destruct (Ident.js_trim_start s) as [|c t]; [reflexivity|].
  rewrite IdentFacts.js_trim_end_cons.
  now destruct (Ident.all_space (String c t)).
Qed.

(** X24: the broadcast route refuses, with status 400 and without
    sending or changing anything, exactly the bodies whose message is
    missing or no string, empty, or made of white space only, the white
    space and line ends of Unicode included; every other message is
    broadcast. *)
Theorem blank_message_is_refused transport message s :
  blank message = match message with
                  | None => true
                  | Some m => Ident.all_space m
                  end
  /\ (blank message = true ->
      run (post_broadcast transport message) s = (Returned BadRequest, fresh s))
  /\ (blank message = false ->
      exists m sc fc w,
        message = Some m
        /\ run (post_broadcast transport message) s = (Returned (Completed sc fc), w)
        /\ outbox w = map (fun u => (ToChat (telegram_id u), Broadcast m)) (users s)).
Proof.
  split; [|split].
  - destruct message as [m|]; [|reflexivity]. unfold blank.
    rewrite js_trim_empty. destruct m; reflexivity.
  - intros Hb. unfold run, post_broadcast. rewrite Hb. now destruct message.
  - intros Hb. destruct message as [m|]; [|discriminate Hb].
    exists m. rewrite (post_broadcast_run transport m s Hb).
    eexists _, _, _. split; [reflexivity|]. split; [reflexivity|].
    unfold Sql.select_ids. cbn [outbox]. now rewrite map_map.
Qed.

Lemma blank_message_is_refused_witness :
  let nbsp := String (ascii_of_nat 194) (String (ascii_of_nat 160) EmptyString) in
  let s := mkStore [mkUser 1 None "Ann" 0] [] in
  run (post_broadcast (fun _ => Delivered) (Some (" " ++ nbsp)%string)) s
  = (Returned BadRequest, fresh s).
Proof.
  cbv zeta.
  apply (blank_message_is_refused (fun _ => Delivered)
           (Some (" " ++ String (ascii_of_nat 194) (String (ascii_of_nat 160) EmptyString))%string)
           (mkStore [mkUser 1 None "Ann" 0] [])).
  reflexivity.
Defined.
